(** * STM32L476 ADC polling firmware: model and properties

    A shallow embedding of [src/main.cpp]: the volatile register accesses
    of [adc_init], [adc_read] and [main] are written in a small
    state-and-divergence monad over an abstract register file, every access
    is recorded in a trace, and the busy-wait loops carry a bound on the
    number of polls so that a run either finishes or is reported as hung. *)

From Stdlib Require Import ZArith List Bool Lia.
Import ListNotations.
Local Open Scope Z_scope.

(* ------------------------------------------------------------------ *)
(** ** Machine integers *)

Definition wrap8  (z : Z) : Z := z mod 2 ^ 8.
Definition wrap16 (z : Z) : Z := z mod 2 ^ 16.
Definition wrap32 (z : Z) : Z := z mod 2 ^ 32.

(** [~x] on a [uint32_t]. *)
Definition not32 (x : Z) : Z := wrap32 (Z.lnot x).

(* ------------------------------------------------------------------ *)
(** ** Application configuration (the [#define]s of main.cpp) *)

Inductive pin := D3 | D4.
Inductive level := LOW | HIGH.
Inductive pin_mode := INPUT | OUTPUT.

Definition BAUD_RATE   : Z := 115200.
Definition ADC_CHANNEL : Z := 5.
Definition ADC_PIN     : Z := 0.
Definition SAMP_TIME   : Z := 0.
Definition SAMP_RATE   : Z := 100.
Definition PIN_SAMPLE  : pin := D3.
Definition PIN_SERIAL  : pin := D4.
Definition SAMP_PERIOD : Z := 1000000 / SAMP_RATE.

Definition pin_eqb (p q : pin) : bool :=
  match p, q with
  | D3, D3 | D4, D4 => true
  | _, _ => false
  end.

(* ------------------------------------------------------------------ *)
(** ** Registers and bit masks

    The registers the program touches, and the bit masks it names.  The
    masks come from the vendor's CMSIS device header [stm32l476xx.h], which
    main.cpp includes and which is not part of the repository; they carry
    the values that header gives them (reference manual RM0351, ch. 6, 8
    and 18). *)

Inductive reg :=
| RCC_AHB2ENR | RCC_CCIPR
| GPIOA_MODER | GPIOA_ASCR
| ADC123_COMMON_CCR
| ADC1_ISR | ADC1_CR | ADC1_CFGR | ADC1_SMPR1 | ADC1_SQR1 | ADC1_DR.

Definition reg_eqb (a b : reg) : bool :=
  match a, b with
  | RCC_AHB2ENR, RCC_AHB2ENR | RCC_CCIPR, RCC_CCIPR
  | GPIOA_MODER, GPIOA_MODER | GPIOA_ASCR, GPIOA_ASCR
  | ADC123_COMMON_CCR, ADC123_COMMON_CCR
  | ADC1_ISR, ADC1_ISR | ADC1_CR, ADC1_CR | ADC1_CFGR, ADC1_CFGR
  | ADC1_SMPR1, ADC1_SMPR1 | ADC1_SQR1, ADC1_SQR1 | ADC1_DR, ADC1_DR => true
  | _, _ => false
  end.

Definition RCC_AHB2ENR_GPIOAEN : Z := 0x1.          (* bit 0 *)
Definition RCC_AHB2ENR_ADCEN   : Z := 0x2000.       (* bit 13 *)
Definition RCC_CCIPR_ADCSEL    : Z := 0x30000000.   (* bits 29:28 *)
Definition ADC_CCR_PRESC       : Z := 0x3C0000.     (* bits 21:18 *)
Definition ADC_CCR_PRESC_2     : Z := 0x100000.     (* bit 20 *)
Definition ADC_CR_ADEN         : Z := 0x1.          (* bit 0 *)
Definition ADC_CR_ADDIS        : Z := 0x2.          (* bit 1 *)
Definition ADC_CR_ADSTART      : Z := 0x4.          (* bit 2 *)
Definition ADC_CR_ADVREGEN     : Z := 0x10000000.   (* bit 28 *)
Definition ADC_CR_DEEPPWD      : Z := 0x20000000.   (* bit 29 *)
Definition ADC_CR_ADCAL        : Z := 0x80000000.   (* bit 31 *)
Definition ADC_ISR_ADRDY       : Z := 0x1.          (* bit 0 *)
Definition ADC_ISR_EOC         : Z := 0x4.          (* bit 2 *)
Definition ADC_ISR_EOS         : Z := 0x8.          (* bit 3 *)
Definition ADC_ISR_OVR         : Z := 0x10.         (* bit 4 *)
Definition ADC_CFGR_RES        : Z := 0x18.         (* bits 4:3 *)
Definition ADC_CFGR_CONT       : Z := 0x2000.       (* bit 13 *)
Definition ADC_SQR1_L          : Z := 0xF.          (* bits 3:0 *)

(** Field readers used to state properties of register contents. *)
Definition sqr1_length (v : Z) : Z := Z.land v ADC_SQR1_L.
Definition sqr1_sq1 (v : Z) : Z := Z.land (Z.shiftr v 6) 0x1F.
Definition smpr1_smp (ch v : Z) : Z := Z.land (Z.shiftr v (ch * 3)) 7.

(* ------------------------------------------------------------------ *)
(** ** The register file as an interface

    Reads of a volatile peripheral register may return anything and may
    change the peripheral; writes change it.  The program is written
    against this interface, so that any simulated register file can stand
    in for the hardware. *)

Class Peripheral (D : Type) := {
  dev_read  : reg -> D -> Z * D;
  dev_write : reg -> Z -> D -> D
}.

(** What the program does to the outside world, in program order. *)
Inductive event :=
| RegRead (r : reg) (v : Z)
| RegWrite (r : reg) (v : Z)
| ArduinoInit
| SerialBegin (baud : Z)
| SerialWrite (b : Z)
| PinMode (p : pin) (m : pin_mode)
| DigitalWrite (p : pin) (l : level)
| DelayMicroseconds (us : Z).

(** A trace entry: the event together with the peripheral just before and
    just after it. *)
Record access (D : Type) := Access {
  acc_pre  : D;
  acc_ev   : event;
  acc_post : D
}.

Arguments Access {D}.
Arguments acc_pre {D}.
Arguments acc_ev {D}.
Arguments acc_post {D}.

Record world (D : Type) := World {
  hw    : D;
  pins  : pin -> level;
  trace : list (access D)
}.

Arguments World {D}.
Arguments hw {D}.
Arguments pins {D}.
Arguments trace {D}.

Definition events {D} (w : world D) : list event := map (@acc_ev D) (trace w).

(** The bytes handed to [Serial.write], in order. *)
Fixpoint serial_bytes (l : list event) : list Z :=
  match l with
  | [] => []
  | SerialWrite b :: l' => b :: serial_bytes l'
  | _ :: l' => serial_bytes l'
  end.

(** The levels driven on pin [p], in order. *)
Fixpoint pin_levels (p : pin) (l : list event) : list level :=
  match l with
  | [] => []
  | DigitalWrite q lv :: l' =>
      if pin_eqb q p then lv :: pin_levels p l' else pin_levels p l'
  | _ :: l' => pin_levels p l'
  end.

(* ------------------------------------------------------------------ *)
(** ** The monad: state passing, with [Hang] for a busy-wait that did not
    end within the poll budget *)

Inductive outcome (A : Type) := Done (a : A) | Hang.
Arguments Done {A}.
Arguments Hang {A}.

Definition M (D A : Type) := world D -> outcome A * world D.

Definition ret {D A} (a : A) : M D A := fun w => (Done a, w).

Definition bind {D A B} (m : M D A) (k : A -> M D B) : M D B :=
  fun w => match m w with
           | (Done a, w') => k a w'
           | (Hang, w') => (Hang, w')
           end.

Declare Scope prog_scope.
Delimit Scope prog_scope with prog.
Notation "x <- m ;; k" := (bind m (fun x => k))
  (at level 61, m at next level, right associativity) : prog_scope.
Notation "m ;; k" := (bind m (fun _ => k))
  (at level 61, right associativity) : prog_scope.
Local Open Scope prog_scope.

Section Program.
Context {D : Type} {P : Peripheral D}.

Definition log (e : event) (d' : D) (w : world D) : world D :=
  {| hw := d'; pins := pins w;
     trace := trace w ++ [Access (hw w) e d'] |}.

(** A load from a [volatile uint32_t] register. *)
Definition reg_read (r : reg) : M D Z := fun w =>
  let v := wrap32 (fst (dev_read r (hw w))) in
  (Done v, log (RegRead r v) (snd (dev_read r (hw w))) w).

(** A store to a register. *)
Definition reg_write (r : reg) (v : Z) : M D unit := fun w =>
  (Done tt, log (RegWrite r (wrap32 v)) (dev_write r (wrap32 v) (hw w)) w).

(** The compound assignments [|=] and [&=]: a read followed by a write. *)
Definition reg_or (r : reg) (m : Z) : M D unit :=
  v <- reg_read r ;; reg_write r (Z.lor v m).

Definition reg_and (r : reg) (m : Z) : M D unit :=
  v <- reg_read r ;; reg_write r (Z.land v m).

(** Calls into the Arduino core: recorded, no effect on the ADC. *)
Definition platform (e : event) : M D unit := fun w =>
  (Done tt, log e (hw w) w).

Definition init : M D unit := platform ArduinoInit.
Definition Serial_begin (baud : Z) : M D unit := platform (SerialBegin baud).
Definition Serial_write (b : Z) : M D unit := platform (SerialWrite (wrap8 b)).
Definition pinMode (p : pin) (m : pin_mode) : M D unit := platform (PinMode p m).
Definition delayMicroseconds (us : Z) : M D unit := platform (DelayMicroseconds us).

Definition digitalWrite (p : pin) (l : level) : M D unit := fun w =>
  (Done tt,
   {| hw := hw w;
      pins := fun q => if pin_eqb q p then l else pins w q;
      trace := trace w ++ [Access (hw w) (DigitalWrite p l) (hw w)] |}).

(** The busy-wait on register [r]: it polls while the masked value is
    non-zero when [until_set] is false, and while it is zero when
    [until_set] is true; at most [fuel] polls. *)
Fixpoint spin (fuel : nat) (r : reg) (m : Z) (until_set : bool) : M D unit :=
  match fuel with
  | O => fun w => (Hang, w)
  | S n =>
      v <- reg_read r ;;
      if Bool.eqb (negb (Z.land v m =? 0)) until_set
      then ret tt
      else spin n r m until_set
  end.

Definition wait_while (fuel : nat) (r : reg) (m : Z) : M D unit :=
  spin fuel r m false.
Definition wait_until (fuel : nat) (r : reg) (m : Z) : M D unit :=
  spin fuel r m true.

(** [for (volatile uint16_t i = 0; i < 1000; i++);] : the counter after
    at most [n] iterations. *)
Fixpoint delay_loop (n : nat) (i : Z) : Z :=
  match n with
  | O => i
  | S n' => if i <? 1000 then delay_loop n' (wrap16 (i + 1)) else i
  end.

Definition settle_delay : M D unit := fun w =>
  if delay_loop 1000 0 <? 1000 then (Hang, w) else (Done tt, w).

(** *** [adc_init] (main.cpp, lines 67-109) *)
Definition adc_init (fuel : nat) : M D unit :=
  reg_or RCC_AHB2ENR RCC_AHB2ENR_ADCEN ;;
  reg_or RCC_CCIPR RCC_CCIPR_ADCSEL ;;
  reg_and ADC123_COMMON_CCR (not32 ADC_CCR_PRESC) ;;
  reg_or ADC123_COMMON_CCR ADC_CCR_PRESC_2 ;;
  cr <- reg_read ADC1_CR ;;
  (if negb (Z.land cr ADC_CR_ADEN =? 0)
   then reg_or ADC1_CR ADC_CR_ADDIS ;;
        wait_while fuel ADC1_CR ADC_CR_ADEN
   else ret tt) ;;
  reg_and ADC1_CR (not32 ADC_CR_DEEPPWD) ;;
  reg_or ADC1_CR ADC_CR_ADVREGEN ;;
  settle_delay ;;
  reg_or ADC1_CR ADC_CR_ADCAL ;;
  wait_while fuel ADC1_CR ADC_CR_ADCAL ;;
  reg_and ADC1_CFGR (not32 ADC_CFGR_CONT) ;;
  reg_and ADC1_CFGR (not32 ADC_CFGR_RES) ;;
  reg_and ADC1_SMPR1 (not32 (Z.shiftl 7 (ADC_CHANNEL * 3))) ;;
  reg_or ADC1_SMPR1 (Z.shiftl SAMP_TIME (ADC_CHANNEL * 3)) ;;
  reg_and ADC1_SQR1 (not32 ADC_SQR1_L) ;;
  reg_or ADC1_CR ADC_CR_ADEN ;;
  wait_until fuel ADC1_ISR ADC_ISR_ADRDY.

(** The stages of [adc_init]: clock and prescaler (lines 70-76), disable
    if enabled (81-84), regulator start-up (86-90), calibration (92-93),
    conversion mode (96-104), enable and wait for ready (107-108). *)
Definition init_clock : M D unit :=
  reg_or RCC_AHB2ENR RCC_AHB2ENR_ADCEN ;;
  reg_or RCC_CCIPR RCC_CCIPR_ADCSEL ;;
  reg_and ADC123_COMMON_CCR (not32 ADC_CCR_PRESC) ;;
  reg_or ADC123_COMMON_CCR ADC_CCR_PRESC_2.

Definition init_disable (fuel : nat) : M D unit :=
  cr <- reg_read ADC1_CR ;;
  if negb (Z.land cr ADC_CR_ADEN =? 0)
  then reg_or ADC1_CR ADC_CR_ADDIS ;;
       wait_while fuel ADC1_CR ADC_CR_ADEN
  else ret tt.

Definition init_regulator : M D unit :=
  reg_and ADC1_CR (not32 ADC_CR_DEEPPWD) ;;
  reg_or ADC1_CR ADC_CR_ADVREGEN ;;
  settle_delay.

Definition init_calibrate (fuel : nat) : M D unit :=
  reg_or ADC1_CR ADC_CR_ADCAL ;;
  wait_while fuel ADC1_CR ADC_CR_ADCAL.

Definition init_configure : M D unit :=
  reg_and ADC1_CFGR (not32 ADC_CFGR_CONT) ;;
  reg_and ADC1_CFGR (not32 ADC_CFGR_RES) ;;
  reg_and ADC1_SMPR1 (not32 (Z.shiftl 7 (ADC_CHANNEL * 3))) ;;
  reg_or ADC1_SMPR1 (Z.shiftl SAMP_TIME (ADC_CHANNEL * 3)) ;;
  reg_and ADC1_SQR1 (not32 ADC_SQR1_L).

Definition init_enable (fuel : nat) : M D unit :=
  reg_or ADC1_CR ADC_CR_ADEN ;;
  wait_until fuel ADC1_ISR ADC_ISR_ADRDY.

(** *** [adc_read] (main.cpp, lines 115-129); [channel] is a [uint8_t],
    the result a [uint16_t]. *)
Definition adc_read (fuel : nat) (channel : Z) : M D Z :=
  digitalWrite PIN_SAMPLE HIGH ;;
  reg_and ADC1_SQR1 (not32 (Z.shiftl 0x1F 6)) ;;
  reg_or ADC1_SQR1 (Z.shiftl (wrap8 channel) 6) ;;
  reg_or ADC1_ISR ADC_ISR_EOC ;;
  reg_or ADC1_CR ADC_CR_ADSTART ;;
  wait_until fuel ADC1_ISR ADC_ISR_EOC ;;
  digitalWrite PIN_SAMPLE LOW ;;
  dr <- reg_read ADC1_DR ;;
  ret (wrap16 dr).

(** The two straight-line halves of [adc_read], on either side of its
    busy-wait: lines 116-123 and lines 126-128. *)
Definition adc_start (channel : Z) : M D unit :=
  digitalWrite PIN_SAMPLE HIGH ;;
  reg_and ADC1_SQR1 (not32 (Z.shiftl 0x1F 6)) ;;
  reg_or ADC1_SQR1 (Z.shiftl (wrap8 channel) 6) ;;
  reg_or ADC1_ISR ADC_ISR_EOC ;;
  reg_or ADC1_CR ADC_CR_ADSTART.

Definition adc_finish : M D Z :=
  digitalWrite PIN_SAMPLE LOW ;;
  dr <- reg_read ADC1_DR ;;
  ret (wrap16 dr).

(** A caller that converts one channel after the other. *)
Fixpoint convert_each (fuel : nat) (channels : list Z) : M D unit :=
  match channels with
  | [] => ret tt
  | ch :: rest => adc_read fuel ch ;; convert_each fuel rest
  end.

(** *** [main] (main.cpp, lines 28-61) *)

(** Everything before the loop, up to and including [adc_init]. *)
Definition startup (fuel : nat) : M D unit :=
  init ;;
  Serial_begin BAUD_RATE ;;
  reg_or RCC_AHB2ENR RCC_AHB2ENR_GPIOAEN ;;
  reg_or GPIOA_MODER (Z.shiftl 3 (ADC_PIN * 2)) ;;
  reg_or GPIOA_ASCR (Z.shiftl 1 ADC_PIN) ;;
  adc_init fuel.

(** One pass through the body of [while (1)]. *)
Definition loop_body (fuel : nat) : M D unit :=
  sample <- adc_read fuel ADC_CHANNEL ;;
  digitalWrite PIN_SERIAL HIGH ;;
  Serial_write 0xAA ;;
  Serial_write 0xAA ;;
  Serial_write (wrap8 (Z.land sample 0xFF)) ;;
  Serial_write (wrap8 (Z.shiftr sample 8)) ;;
  digitalWrite PIN_SERIAL LOW ;;
  delayMicroseconds SAMP_PERIOD.

(** The first [n] passes of the endless loop. *)
Fixpoint main_loop (fuel : nat) (n : nat) : M D unit :=
  match n with
  | O => ret tt
  | S k => loop_body fuel ;; main_loop fuel k
  end.

(** [main], observed for [n] passes of its loop. *)
Definition main (fuel : nat) (n : nat) : M D unit :=
  startup fuel ;;
  pinMode PIN_SAMPLE OUTPUT ;;
  pinMode PIN_SERIAL OUTPUT ;;
  main_loop fuel n.

End Program.

(** The world a run starts from: nothing traced yet, outputs low. *)
Definition boot {D} (d : D) : world D :=
  {| hw := d; pins := fun _ => LOW; trace := [] |}.

(* ------------------------------------------------------------------ *)
(** ** A simulated ADC

    A register file that behaves like the converter's: [ADC1_ISR] is
    write-one-to-clear, the command bits of [ADC1_CR] are set by software
    and cleared by the hardware when the action they started is over, the
    data register is read-only and every other register stores what is
    written to it.  An action takes [latency] register reads to finish;
    [analog] gives the raw code the converter produces for a channel. *)

Module Sim.

Record t := Mk {
  regs    : reg -> Z;
  busy    : nat;
  latency : nat;
  analog  : Z -> Z
}.

Definition upd (r : reg) (v : Z) (f : reg -> Z) : reg -> Z :=
  fun q => if reg_eqb q r then v else f q.

Definition has (v m : Z) : bool := negb (Z.land v m =? 0).

Definition set_regs (f : reg -> Z) (m : t) : t :=
  {| regs := f; busy := busy m; latency := latency m; analog := analog m |}.

Definition set_busy (n : nat) (m : t) : t :=
  {| regs := regs m; busy := n; latency := latency m; analog := analog m |}.

(** The pending hardware action comes to its end. *)
Definition complete (m : t) : t :=
  let c := regs m ADC1_CR in
  if has c ADC_CR_ADCAL then
    set_regs (upd ADC1_CR (Z.ldiff c ADC_CR_ADCAL) (regs m)) m
  else if has c ADC_CR_ADDIS then
    set_regs (upd ADC1_CR (Z.ldiff c (Z.lor ADC_CR_ADEN ADC_CR_ADDIS)) (regs m)) m
  else if has c ADC_CR_ADSTART then
    set_regs (upd ADC1_CR (Z.ldiff c ADC_CR_ADSTART)
             (upd ADC1_DR (analog m (sqr1_sq1 (regs m ADC1_SQR1)))
             (upd ADC1_ISR (Z.lor (regs m ADC1_ISR) (Z.lor ADC_ISR_EOC ADC_ISR_EOS))
                  (regs m)))) m
  else if has c ADC_CR_ADEN then
    set_regs (upd ADC1_ISR (Z.lor (regs m ADC1_ISR) ADC_ISR_ADRDY) (regs m)) m
  else m.

(** Time passes by one register read. *)
Definition tick (m : t) : t :=
  match busy m with
  | O => m
  | S O => complete (set_busy O m)
  | S k => set_busy k m
  end.

Definition start (bit : Z) (c1 : Z) (m : t) : t :=
  set_busy (S (latency m)) (set_regs (upd ADC1_CR (Z.lor c1 bit) (regs m)) m).

Definition write_cr (v : Z) (m : t) : t :=
  let c := regs m ADC1_CR in
  let rw := Z.lor ADC_CR_DEEPPWD ADC_CR_ADVREGEN in
  let c1 := Z.lor (Z.ldiff c rw) (Z.land v rw) in
  if has v ADC_CR_ADCAL && negb (has c ADC_CR_ADEN) && negb (has c ADC_CR_ADCAL)
  then start ADC_CR_ADCAL c1 m
  else if has v ADC_CR_ADDIS && has c ADC_CR_ADEN
          && negb (has c ADC_CR_ADSTART) && negb (has c ADC_CR_ADDIS)
  then start ADC_CR_ADDIS c1 m
  else if has v ADC_CR_ADEN && negb (has c ADC_CR_ADEN) && negb (has c ADC_CR_ADCAL)
  then start ADC_CR_ADEN c1 m
  else if has v ADC_CR_ADSTART && has c ADC_CR_ADEN
          && negb (has c ADC_CR_ADDIS) && negb (has c ADC_CR_ADSTART)
  then start ADC_CR_ADSTART c1 m
  else set_regs (upd ADC1_CR c1 (regs m)) m.

Definition read (r : reg) (m : t) : Z * t :=
  (regs (tick m) r, tick m).

Definition write (r : reg) (v : Z) (m : t) : t :=
  match r with
  | ADC1_ISR => set_regs (upd ADC1_ISR (Z.ldiff (regs m ADC1_ISR) v) (regs m)) m
  | ADC1_CR => write_cr v m
  | ADC1_DR => m
  | _ => set_regs (upd r v (regs m)) m
  end.

#[global] Instance peripheral : Peripheral t :=
  {| dev_read := read; dev_write := write |}.

(** Register contents after a reset of the chip. *)
Definition reset_regs (r : reg) : Z :=
  match r with
  | ADC1_CR => 0x20000000
  | ADC1_CFGR => 0x80000000
  | GPIOA_MODER => 0xABFFFFFF
  | _ => 0
  end.

Definition reset (lat : nat) (src : Z -> Z) : t :=
  {| regs := reset_regs; busy := O; latency := lat; analog := src |}.

(** Observations of the simulated converter. *)
Definition flags (m : t) : Z := regs m ADC1_ISR.
Definition enabled (m : t) : bool := Z.testbit (regs m ADC1_CR) 0.
Definition value (r : reg) (m : t) : Z := regs m r.

End Sim.

(* ------------------------------------------------------------------ *)
(** ** Pieces of the program, named for the statements below *)

Section Pieces.
Context {D : Type} {P : Peripheral D}.

(** A read-modify-write, as the compound assignments perform it. *)
Definition rmw (r : reg) (f : Z -> Z) : M D unit :=
  v <- reg_read r ;; reg_write r (f v).

(** Lines 53-59: what the loop body does with the sample. *)
Definition send_frame (sample : Z) : M D unit :=
  digitalWrite PIN_SERIAL HIGH ;;
  Serial_write 0xAA ;;
  Serial_write 0xAA ;;
  Serial_write (wrap8 (Z.land sample 0xFF)) ;;
  Serial_write (wrap8 (Z.shiftr sample 8)) ;;
  digitalWrite PIN_SERIAL LOW ;;
  delayMicroseconds SAMP_PERIOD.

(** Lines 86-92 as one straight-line piece. *)
Definition cal_start : M D unit :=
  init_regulator ;; reg_or ADC1_CR ADC_CR_ADCAL.

(** [main] up to, and not including, the wait for ready of line 108. *)
Definition before_wait (fuel : nat) : M D unit :=
  init ;;
  Serial_begin BAUD_RATE ;;
  reg_or RCC_AHB2ENR RCC_AHB2ENR_GPIOAEN ;;
  reg_or GPIOA_MODER (Z.shiftl 3 (ADC_PIN * 2)) ;;
  reg_or GPIOA_ASCR (Z.shiftl 1 ADC_PIN) ;;
  init_clock ;;
  init_disable fuel ;;
  init_regulator ;;
  init_calibrate fuel ;;
  init_configure ;;
  reg_or ADC1_CR ADC_CR_ADEN.

(** Lines 42-60: the pin set-up and the loop. *)
Definition after_init (fuel n : nat) : M D unit :=
  pinMode PIN_SAMPLE OUTPUT ;;
  pinMode PIN_SERIAL OUTPUT ;;
  main_loop fuel n.

(** [main] up to the entry of its loop. *)
Definition to_loop (fuel : nat) : M D unit :=
  before_wait fuel ;;
  wait_until fuel ADC1_ISR ADC_ISR_ADRDY ;;
  pinMode PIN_SAMPLE OUTPUT ;;
  pinMode PIN_SERIAL OUTPUT.

End Pieces.

(* ------------------------------------------------------------------ *)
(** ** Flags, fields and events *)

(** The exit test of a busy-wait on the value just read. *)
Definition exits (m : Z) (until_set : bool) (v : Z) : bool :=
  Bool.eqb (negb (Z.land v m =? 0)) until_set.

(** The bits of mask [m] in the value [v]: some set, all clear. *)
Definition flag_set (m v : Z) : Prop := Z.land v m <> 0.

Definition flag_clear (m v : Z) : Prop := Z.land v m = 0.

(** The values of a 32-bit register. *)
Definition u32 (v : Z) : Prop := 0 <= v < 2 ^ 32.

(** The registers that hold the conversion mode. *)
Definition config_reg (r : reg) : bool :=
  match r with
  | ADC1_CFGR | ADC1_SMPR1 | ADC1_SQR1 => true
  | _ => false
  end.

(** The registers [adc_read] does not touch. *)
Definition plain_reg (r : reg) : bool :=
  match r with
  | ADC1_SQR1 | ADC1_CR | ADC1_ISR | ADC1_DR => false
  | _ => true
  end.

(** Decoding of the fields (RM0351, 18.7.4 and 18.7.11): resolution in
    bits, and number of conversions in the regular sequence. *)
Definition cfgr_resolution (v : Z) : Z :=
  match Z.land (Z.shiftr v 3) 3 with
  | 0 => 12
  | 1 => 10
  | 2 => 8
  | _ => 6
  end.

Definition cfgr_continuous (v : Z) : bool := Z.testbit v 13.

Definition sqr1_entries (v : Z) : Z := sqr1_length v + 1.

(** Kinds of events. *)
Definition is_reg_access (e : event) : bool :=
  match e with
  | RegRead _ _ | RegWrite _ _ => true
  | _ => false
  end.

Definition is_write_to (r : reg) (e : event) : bool :=
  match e with
  | RegWrite q _ => reg_eqb q r
  | _ => false
  end.

Definition touches (r : reg) (e : event) : bool :=
  match e with
  | RegRead q _ | RegWrite q _ => reg_eqb q r
  | _ => false
  end.

(** Lines 116-123, given the four values read. *)
Definition start_events (ch a b c e : Z) : list event :=
  [ DigitalWrite PIN_SAMPLE HIGH;
    RegRead ADC1_SQR1 a;
    RegWrite ADC1_SQR1 (Z.land a (not32 (Z.shiftl 0x1F 6)));
    RegRead ADC1_SQR1 b;
    RegWrite ADC1_SQR1 (Z.lor b (Z.shiftl (wrap8 ch) 6));
    RegRead ADC1_ISR c;
    RegWrite ADC1_ISR (Z.lor c ADC_ISR_EOC);
    RegRead ADC1_CR e;
    RegWrite ADC1_CR (Z.lor e ADC_CR_ADSTART) ].

(** What the loop body does with a sample once [adc_read] has returned. *)
Definition frame_events (sample : Z) : list event :=
  [ DigitalWrite PIN_SERIAL HIGH;
    SerialWrite (wrap8 0xAA);
    SerialWrite (wrap8 0xAA);
    SerialWrite (wrap8 (wrap8 (Z.land sample 0xFF)));
    SerialWrite (wrap8 (wrap8 (Z.shiftr sample 8)));
    DigitalWrite PIN_SERIAL LOW;
    DelayMicroseconds SAMP_PERIOD ].

(** Lines 86-92: regulator start-up and the write that starts the
    calibration, given the three values read. *)
Definition calibration_start_events (a b c : Z) : list event :=
  [ RegRead ADC1_CR a;
    RegWrite ADC1_CR (Z.land a (not32 ADC_CR_DEEPPWD));
    RegRead ADC1_CR b;
    RegWrite ADC1_CR (Z.lor b ADC_CR_ADVREGEN);
    RegRead ADC1_CR c;
    RegWrite ADC1_CR (Z.lor c ADC_CR_ADCAL) ].

(** Lines 96-104: the conversion mode, given the five values read. *)
Definition mode_events (a b c e f : Z) : list event :=
  [ RegRead ADC1_CFGR a;
    RegWrite ADC1_CFGR (Z.land a (not32 ADC_CFGR_CONT));
    RegRead ADC1_CFGR b;
    RegWrite ADC1_CFGR (Z.land b (not32 ADC_CFGR_RES));
    RegRead ADC1_SMPR1 c;
    RegWrite ADC1_SMPR1 (Z.land c (not32 (Z.shiftl 7 (ADC_CHANNEL * 3))));
    RegRead ADC1_SMPR1 e;
    RegWrite ADC1_SMPR1 (Z.lor e (Z.shiftl SAMP_TIME (ADC_CHANNEL * 3)));
    RegRead ADC1_SQR1 f;
    RegWrite ADC1_SQR1 (Z.land f (not32 ADC_SQR1_L)) ].

(** What the disable stage (lines 81-84) may do, and whether it got to
    its end: it finds the converter disabled; or it finds it enabled,
    requests the disable and polls until the enable flag reads clear; or
    it polls without ever seeing the flag clear. *)
Inductive disable_events : list event -> bool -> Prop :=
| found_disabled v :
    flag_clear ADC_CR_ADEN v ->
    disable_events [RegRead ADC1_CR v] true
| disabled_on_request v0 v1 ps last :
    flag_set ADC_CR_ADEN v0 ->
    Forall (flag_set ADC_CR_ADEN) ps ->
    flag_clear ADC_CR_ADEN last ->
    disable_events
      (RegRead ADC1_CR v0 :: RegRead ADC1_CR v1
       :: RegWrite ADC1_CR (Z.lor v1 ADC_CR_ADDIS)
       :: map (RegRead ADC1_CR) (ps ++ [last])) true
| disable_not_seen v0 v1 ps :
    flag_set ADC_CR_ADEN v0 ->
    Forall (flag_set ADC_CR_ADEN) ps ->
    disable_events
      (RegRead ADC1_CR v0 :: RegRead ADC1_CR v1
       :: RegWrite ADC1_CR (Z.lor v1 ADC_CR_ADDIS)
       :: map (RegRead ADC1_CR) ps) false.

(** A read of the status register that shows the ready flag. *)
Definition observes_ready (e : event) : bool :=
  match e with
  | RegRead ADC1_ISR v => negb (Z.land v ADC_ISR_ADRDY =? 0)
  | _ => false
  end.

(** The events that come before the first observation of ready. *)
Fixpoint before_ready (es : list event) : list event :=
  match es with
  | [] => []
  | e :: es' => if observes_ready e then [] else e :: before_ready es'
  end.

(** A write to the conversion-sequence register, or a write to the
    control register with the start bit set. *)
Definition sequence_or_start_write (e : event) : bool :=
  match e with
  | RegWrite ADC1_SQR1 _ => true
  | RegWrite ADC1_CR v => negb (Z.land v ADC_CR_ADSTART =? 0)
  | _ => false
  end.

(** What may happen while the converter is being initialised: no pin is
    driven, nothing is sent, the status register is not written, the
    result register is not read; the sequence register is written only
    to clear the length field of the value just read; and a write to the
    control register leaves the start bit as it was just read. *)
Definition init_step (prev : option event) (e : event) : Prop :=
  match e with
  | DigitalWrite _ _ | SerialWrite _ | DelayMicroseconds _ | PinMode _ _ => False
  | RegRead ADC1_DR _ => False
  | RegWrite ADC1_ISR _ => False
  | RegWrite ADC1_DR _ => False
  | RegWrite ADC1_SQR1 x =>
      exists v, prev = Some (RegRead ADC1_SQR1 v) /\
                x = Z.land v (not32 ADC_SQR1_L)
  | RegWrite ADC1_CR x =>
      exists v, prev = Some (RegRead ADC1_CR v) /\
                Z.testbit x 2 = Z.testbit v 2
  | _ => True
  end.

(** Every event of [es] passes [ok], which sees the event and the one
    just before it. *)
Fixpoint steps (ok : option event -> event -> Prop) (prev : option event)
    (es : list event) : Prop :=
  match es with
  | [] => True
  | e :: es' => ok prev e /\ steps ok (Some e) es'
  end.

(** An analogue source that yields [raw] on channel [ch]. *)
Definition fixed_on (ch raw : Z) (other : Z -> Z) : Z -> Z :=
  fun c => if c =? ch then raw else other c.

(** A simulated converter that has been through [startup]: latency 2,
    poll budget 10, the same raw code on every channel. *)
Definition sim_started (raw : Z) : world Sim.t :=
  snd (startup 10 (boot (Sim.reset 2 (fun _ => raw)))).

(** A simulated converter whose mode registers hold all ones instead of
    their reset values: continuous mode, 6-bit resolution, the longest
    sample time on every channel, a sequence of sixteen entries. *)
Definition sim_unconfigured : world Sim.t :=
  boot (Sim.set_regs
          (fun r => if config_reg r then 0xFFFFFFFF else Sim.reset_regs r)
          (Sim.reset 2 (fun _ => 2048))).

(* ------------------------------------------------------------------ *)
(** ** Runs, traces and what is said about them *)

Section Observations.
Context {D : Type} {P : Peripheral D}.

(** The entries a run of [m] from [w] adds to the trace. *)
Definition added {A} (m : M D A) (w : world D) : list (access D) :=
  skipn (length (trace w)) (trace (snd (m w))).

Definition added_events {A} (m : M D A) (w : world D) : list event :=
  map (@acc_ev D) (added m w).

(** The value the next read of [r] returns. *)
Definition peek (r : reg) (w : world D) : Z := wrap32 (fst (dev_read r (hw w))).

(** [n] successive reads of [r]. *)
Fixpoint poll_n (r : reg) (n : nat) (w : world D) : world D :=
  match n with
  | O => w
  | S k => poll_n r k (snd (reg_read r w))
  end.

(** The trace entries and the values of [n] successive reads of [r]. *)
Fixpoint poll_trace (r : reg) (n : nat) (d : D) : list (access D) :=
  match n with
  | O => []
  | S k => Access d (RegRead r (wrap32 (fst (dev_read r d)))) (snd (dev_read r d))
           :: poll_trace r k (snd (dev_read r d))
  end.

Fixpoint poll_values (r : reg) (n : nat) (d : D) : list Z :=
  match n with
  | O => []
  | S k => wrap32 (fst (dev_read r d)) :: poll_values r k (snd (dev_read r d))
  end.

(** The peripheral after an event, and the trace entries of a list of
    events issued from a given state. *)
Definition step (d : D) (e : event) : D :=
  match e with
  | RegRead r _ => snd (dev_read r d)
  | RegWrite r v => dev_write r v d
  | _ => d
  end.

Fixpoint replay (d : D) (es : list event) : list (access D) :=
  match es with
  | [] => []
  | e :: es' => Access d e (step d e) :: replay (step d e) es'
  end.

Definition final (d : D) (es : list event) : D := fold_left step es d.

(** A program is faithful when the trace it leaves is the record of what
    it did to the peripheral, and nothing else touched the peripheral. *)
Definition faithful {A} (m : M D A) : Prop :=
  forall w, exists es,
    trace (snd (m w)) = trace w ++ replay (hw w) es /\
    hw (snd (m w)) = final (hw w) es.

(** Faithful programs only ever append to the trace. *)
Definition extends {A} (m : M D A) : Prop :=
  forall w, trace (snd (m w)) = trace w ++ added m w.

(** The peripheral answers: within the poll budget, some read of the
    status register after the start of the conversion shows the
    end-of-conversion flag. *)
Definition conversion_completes (fuel : nat) (ch : Z) (w : world D) : Prop :=
  exists k, (k < fuel)%nat /\
    flag_set ADC_ISR_EOC (peek ADC1_ISR (poll_n ADC1_ISR k (snd (adc_start ch w)))).

(** A check on trace entries sees the entry and the event just before
    it; [scan] applies it along a trace. *)
Definition check := option event -> access D -> Prop.

Fixpoint scan (ok : check) (prev : option event) (tr : list (access D)) : Prop :=
  match tr with
  | [] => True
  | a :: tr' => ok prev a /\ scan ok (Some (acc_ev a)) tr'
  end.

(** [triple ok Pre m Post]: started on a peripheral that satisfies [Pre],
    every trace entry [m] adds passes the check [ok], and if [m]
    finishes, the result and the peripheral satisfy [Post]. *)
Definition triple {A} (ok : check) (Pre : D -> Prop) (m : M D A)
    (Post : A -> D -> Prop) : Prop :=
  extends m /\
  forall w, Pre (hw w) ->
    (forall p, scan ok p (added m w)) /\
    (forall a, fst (m w) = Done a -> Post a (hw (snd (m w)))).

(** Checks: none at all; nothing is sent. *)
Definition any_entry : check := fun _ _ => True.

Definition no_serial : check :=
  fun _ a => match acc_ev a with SerialWrite _ => False | _ => True end.

(** The check on trace entries: an initialisation step that does not
    observe ready. *)
Definition init_check : check :=
  fun prev a => init_step prev (acc_ev a) /\ observes_ready (acc_ev a) = false.

(** Started on the peripheral [d], the program [m] finishes with result
    [a] and leaves the peripheral [d']. *)
Definition total_at {A} (d : D) (m : M D A) (a : A) (d' : D) : Prop :=
  forall w, hw w = d -> fst (m w) = Done a /\ hw (snd (m w)) = d'.

(** Accesses to other registers leave the mode alone. *)
Definition config_only (Q : D -> Prop) : Prop :=
  (forall r d, Q d -> Q (snd (dev_read r d))) /\
  (forall r v d, config_reg r = false -> Q d -> Q (dev_write r v d)).

Section OnContents.
(** [value] reads the content of a register off the peripheral. *)
Variable value : reg -> D -> Z.

(** The mode [adc_init] sets up, field by field. *)
Definition configured (d : D) : Prop :=
  cfgr_continuous (value ADC1_CFGR d) = false /\
  cfgr_resolution (value ADC1_CFGR d) = 12 /\
  smpr1_smp ADC_CHANNEL (value ADC1_SMPR1 d) = SAMP_TIME /\
  sqr1_entries (value ADC1_SQR1 d) = 1.

(** The same, as masks that read zero. *)
Definition fields_clear (d : D) : Prop :=
  flag_clear ADC_CFGR_CONT (value ADC1_CFGR d) /\
  flag_clear ADC_CFGR_RES (value ADC1_CFGR d) /\
  flag_clear (Z.shiftl 7 (ADC_CHANNEL * 3)) (value ADC1_SMPR1 d) /\
  flag_clear ADC_SQR1_L (value ADC1_SQR1 d).

(** The sequence has one entry, and it is channel [ch]. *)
Definition selected (ch : Z) (d : D) : Prop :=
  flag_clear ADC_SQR1_L (value ADC1_SQR1 d) /\
  sqr1_sq1 (value ADC1_SQR1 d) = ch.

End OnContents.

Section OnEnable.
(** [enabled] tells whether the converter is enabled. *)
Variable enabled : D -> bool.

(** The check: a write to the control register that sets the
    calibration bit, the bit having just been read as clear, finds the
    converter disabled. *)
Definition calibration_guard : check :=
  fun prev a =>
    match prev, acc_ev a with
    | Some (RegRead ADC1_CR v), RegWrite ADC1_CR x =>
        Z.testbit x 31 = true -> Z.testbit v 31 = false ->
        enabled (acc_pre a) = false
    | _, _ => True
    end.

Definition disabled (d : D) : Prop := enabled d = false.

End OnEnable.

End Observations.

(* ------------------------------------------------------------------ *)
(** ** The rest of the program: stages, event lists and monitors *)

Section Stages.
Context {D : Type} {P : Peripheral D}.

(** Lines 30-36 and 70-76: the platform set-up, the analog pin and the
    clocks. *)
Definition clock_setup : M D unit :=
  init ;;
  Serial_begin BAUD_RATE ;;
  reg_or RCC_AHB2ENR RCC_AHB2ENR_GPIOAEN ;;
  reg_or GPIOA_MODER (Z.shiftl 3 (ADC_PIN * 2)) ;;
  reg_or GPIOA_ASCR (Z.shiftl 1 ADC_PIN) ;;
  init_clock.

(** Lines 81-108: [adc_init] from the disable stage on. *)
Definition adc_bringup (fuel : nat) : M D unit :=
  init_disable fuel ;;
  init_regulator ;;
  init_calibrate fuel ;;
  init_configure ;;
  init_enable fuel.

(** Lines 42-60, as [main] has them after [startup]. *)
Definition pins_then_loop (fuel n : nat) : M D unit :=
  pinMode PIN_SAMPLE OUTPUT ;;
  pinMode PIN_SERIAL OUTPUT ;;
  main_loop fuel n.

(** A check that looks at the event alone, and the programs all of
    whose events pass it. *)
Definition event_check (Q : event -> bool) : @check D :=
  fun _ a => Q (acc_ev a) = true.

Definition emits {A} (Q : event -> bool) (m : M D A) : Prop :=
  triple (event_check Q) (fun _ => True) m (fun _ _ => True).

(** A property of the peripheral that survives every read, and every
    write to a register of the class [written]. *)
Definition survives (written : reg -> bool) (Q : D -> Prop) : Prop :=
  (forall r d, Q d -> Q (snd (dev_read r d))) /\
  (forall r v d, written r = true -> Q d -> Q (dev_write r v d)).

Section OnSystem.
(** [value] reads the content of a register off the peripheral. *)
Variable value : reg -> D -> Z.

(** What lines 34-36 and 70-76 set up: the clocks of port A and of the
    converter enabled, the system clock selected for the converter, the
    common prescaler at [0100] (divide by 8), pin [ADC_PIN] of the port
    in analog mode and connected to the converter. *)
Definition clocks_and_pin (d : D) : Prop :=
  Z.land (value RCC_AHB2ENR d) (Z.lor RCC_AHB2ENR_GPIOAEN RCC_AHB2ENR_ADCEN)
  = Z.lor RCC_AHB2ENR_GPIOAEN RCC_AHB2ENR_ADCEN /\
  Z.land (value RCC_CCIPR d) RCC_CCIPR_ADCSEL = RCC_CCIPR_ADCSEL /\
  Z.land (value ADC123_COMMON_CCR d) ADC_CCR_PRESC = ADC_CCR_PRESC_2 /\
  Z.land (value GPIOA_MODER d) (Z.shiftl 3 (ADC_PIN * 2)) = Z.shiftl 3 (ADC_PIN * 2) /\
  Z.land (value GPIOA_ASCR d) (Z.shiftl 1 ADC_PIN) = Z.shiftl 1 ADC_PIN.

(** The mode registers hold what they held in [d0]. *)
Definition same_mode (d0 d : D) : Prop :=
  value ADC1_CFGR d = value ADC1_CFGR d0 /\
  value ADC1_SMPR1 d = value ADC1_SMPR1 d0.

End OnSystem.

End Stages.

(** The events of one pass of the loop that comes to its end: lines
    116-123, the polls of the status register, the last of which shows
    the end of the conversion, lines 126-128, and lines 53-59 with the
    sample returned. *)
Definition complete_pass (es : list event) : Prop :=
  exists a b c e polls last dr,
    Forall (flag_clear ADC_ISR_EOC) polls /\ flag_set ADC_ISR_EOC last /\
    es = start_events ADC_CHANNEL a b c e
         ++ map (RegRead ADC1_ISR) (polls ++ [last])
         ++ [DigitalWrite PIN_SAMPLE LOW; RegRead ADC1_DR dr]
         ++ frame_events (wrap16 dr).

(** The events of a pass in which the conversion never ends: lines
    116-123 and polls of the status register, none of which shows the
    end of the conversion. *)
Definition stalled_pass (es : list event) : Prop :=
  exists a b c e polls,
    Forall (flag_clear ADC_ISR_EOC) polls /\
    es = start_events ADC_CHANNEL a b c e ++ map (RegRead ADC1_ISR) polls.

(** The values read from the result register, in order. *)
Fixpoint result_reads (l : list event) : list Z :=
  match l with
  | [] => []
  | RegRead ADC1_DR v :: l' => v :: result_reads l'
  | _ :: l' => result_reads l'
  end.

(** The four bytes lines 54-57 send for a sample. *)
Definition frame (sample : Z) : list Z :=
  [0xAA; 0xAA; Z.land sample 0xFF; Z.shiftr sample 8].

(** The frame sent for a value read from the result register: line 128
    narrows it to [uint16_t] first. *)
Definition frame_of_read (raw : Z) : list Z := frame (wrap16 raw).

(** Events that neither send a byte nor configure or drive a pin nor
    delay nor read the result register: the other register accesses and
    the two platform calls that open [main]. *)
Definition quiet (e : event) : bool :=
  match e with
  | RegRead ADC1_DR _ => false
  | RegRead _ _ | RegWrite _ _ | ArduinoInit | SerialBegin _ => true
  | _ => false
  end.

(** Register classes: clock control and pin configuration, which
    [startup] sets and nothing else writes; the port; the converter. *)
Definition system_reg (r : reg) : bool :=
  match r with
  | RCC_AHB2ENR | RCC_CCIPR | GPIOA_MODER | GPIOA_ASCR | ADC123_COMMON_CCR => true
  | _ => false
  end.

Definition gpio_reg (r : reg) : bool :=
  match r with
  | GPIOA_MODER | GPIOA_ASCR => true
  | _ => false
  end.

Definition adc_reg (r : reg) : bool :=
  match r with
  | ADC123_COMMON_CCR
  | ADC1_ISR | ADC1_CR | ADC1_CFGR | ADC1_SMPR1 | ADC1_SQR1 | ADC1_DR => true
  | _ => false
  end.

(** An access to one of the registers that hold the conversion mode. *)
Definition mode_access (e : event) : bool :=
  match e with
  | RegRead r _ | RegWrite r _ => config_reg r
  | _ => false
  end.

(** An access to a register of the converter itself. *)
Definition adc_access (e : event) : bool :=
  match e with
  | RegRead r _ | RegWrite r _ => adc_reg r
  | _ => false
  end.

(** An event that is no access to a register outside the converter. *)
Definition converter_only (e : event) : bool :=
  match e with
  | RegRead r _ | RegWrite r _ => adc_reg r
  | _ => true
  end.

(** An event that sets no pin mode. *)
Definition no_pin_mode (e : event) : bool :=
  match e with
  | PinMode _ _ => false
  | _ => true
  end.

Definition is_high (l : level) : bool :=
  match l with HIGH => true | LOW => false end.

Definition is_output (m : pin_mode) : bool :=
  match m with OUTPUT => true | INPUT => false end.

(** A monitor reads the events in program order: it keeps a state, and
    accepts or rejects each event in the state it finds. *)
Record monitor (S : Type) := Monitor {
  accepts : S -> event -> bool;
  after   : S -> event -> S
}.

Arguments Monitor {S}.
Arguments accepts {S}.
Arguments after {S}.

Fixpoint passes {S} (m : monitor S) (s : S) (es : list event) : bool :=
  match es with
  | [] => true
  | e :: es' => accepts m s e && passes m (after m s e) es'
  end.

Definition state_after {S} (m : monitor S) (s : S) (es : list event) : S :=
  fold_left (after m) es s.

(** Clock gating.  The state tells whether the last value written to
    [RCC->AHB2ENR] had the clock-enable bit of port A, and that of the
    converter; an access to a register of the port, or of the converter,
    is accepted only when its clock is enabled. *)
Definition clock_gating : monitor (bool * bool) :=
  {| accepts := fun s e =>
       match e with
       | RegRead r _ | RegWrite r _ =>
           implb (gpio_reg r) (fst s) && implb (adc_reg r) (snd s)
       | _ => true
       end;
     after := fun s e =>
       match e with
       | RegWrite RCC_AHB2ENR v =>
           (negb (Z.land v RCC_AHB2ENR_GPIOAEN =? 0),
            negb (Z.land v RCC_AHB2ENR_ADCEN =? 0))
       | _ => s
       end |}.

(** Pin set-up.  The state tells whether [PIN_SAMPLE], and [PIN_SERIAL],
    has been made an output; a [digitalWrite] is accepted only on a pin
    that has. *)
Definition pin_setup : monitor (bool * bool) :=
  {| accepts := fun s e =>
       match e with
       | DigitalWrite D3 _ => fst s
       | DigitalWrite D4 _ => snd s
       | _ => true
       end;
     after := fun s e =>
       match e with
       | PinMode D3 m => (is_output m, snd s)
       | PinMode D4 m => (fst s, is_output m)
       | _ => s
       end |}.

(** The two timing probes.  The state tells whether [PIN_SAMPLE], and
    [PIN_SERIAL], is driven high.  The probes are never high together; a
    byte is sent only while [PIN_SERIAL] is high and [PIN_SAMPLE] low;
    the result register is read, and the delay between samples taken,
    only while both are low; the status register is written and the
    control register accessed only while [PIN_SERIAL] is low. *)
Definition probe_windows : monitor (bool * bool) :=
  {| accepts := fun s e =>
       match e with
       | DigitalWrite D3 l => negb (is_high l && snd s)
       | DigitalWrite D4 l => negb (fst s && is_high l)
       | SerialWrite _ => snd s && negb (fst s)
       | RegRead ADC1_DR _ | DelayMicroseconds _ => negb (fst s) && negb (snd s)
       | RegRead _ _ | RegWrite _ _ => negb (snd s)
       | _ => true
       end;
     after := fun s e =>
       match e with
       | DigitalWrite D3 l => (is_high l, snd s)
       | DigitalWrite D4 l => (fst s, is_high l)
       | _ => s
       end |}.

(* ------------------------------------------------------------------ *)
(** ** Running programs: basic facts *)

(** Symbolic execution of straight-line code. *)
Ltac run :=
  cbn [bind ret reg_or reg_and reg_read reg_write platform digitalWrite log
       init Serial_begin Serial_write pinMode delayMicroseconds
       adc_start adc_finish fst snd hw pins trace].

Ltac flat := repeat rewrite <- app_assoc; cbn [app].

Section Runs.
Context {D : Type} {P : Peripheral D}.

Lemma skipn_app_exact {A} (l l' : list A) : skipn (length l) (l ++ l') = l'.
Proof. induction l; simpl; auto. Qed.

Lemma added_of_trace {A} (m : M D A) w l :
  trace (snd (m w)) = trace w ++ l -> added m w = l.
Proof. unfold added. intros ->. apply skipn_app_exact. Qed.

Lemma run_pair {A} (m : M D A) w : m w = (fst (m w), snd (m w)).
Proof. destruct (m w); reflexivity. Qed.

Lemma poll_n_trace r n : forall w,
  trace (poll_n r n w) = trace w ++ poll_trace r n (hw w).
Proof.
  induction n as [|n IH]; intros w; simpl.
  - now rewrite app_nil_r.
  - rewrite IH. simpl. now rewrite <- app_assoc.
Qed.

Lemma poll_n_pins r n : forall w, pins (poll_n r n w) = pins w.
Proof. induction n as [|n IH]; intros w; simpl; [reflexivity|]. now rewrite IH. Qed.

Lemma poll_trace_events r n : forall d,
  map (@acc_ev D) (poll_trace r n d) = map (RegRead r) (poll_values r n d).
Proof. induction n as [|n IH]; intros d; simpl; [reflexivity|]. now rewrite IH. Qed.

Lemma poll_values_length r n : forall d, length (poll_values r n d) = n.
Proof. induction n as [|n IH]; intros d; simpl; [reflexivity|]. now rewrite IH. Qed.

Lemma poll_n_S r n : forall w,
  poll_n r (S n) w = snd (reg_read r (poll_n r n w)).
Proof.
  induction n as [|n IH]; intros w; [reflexivity|].
  change (poll_n r (S (S n)) w) with (poll_n r (S n) (snd (reg_read r w))).
  rewrite IH. reflexivity.
Qed.

(** A property of the peripheral that no read of [r] disturbs survives any
    number of polls. *)
Lemma poll_n_preserves (I : D -> Prop) r :
  (forall d, I d -> I (snd (dev_read r d))) ->
  forall n w, I (hw w) -> I (hw (poll_n r n w)).
Proof.
  intros step. induction n as [|n IH]; intros w Hw; simpl; [assumption|].
  apply IH. simpl. apply step, Hw.
Qed.

(** What a busy-wait does: it polls until the exit test succeeds or the
    budget is spent. *)
Lemma spin_run fuel r m b : forall w,
  exists n,
    (forall k, (k < n)%nat -> exits m b (peek r (poll_n r k w)) = false) /\
    ((n = fuel /\ spin fuel r m b w = (Hang, poll_n r n w)) \/
     ((n < fuel)%nat /\ exits m b (peek r (poll_n r n w)) = true /\
      spin fuel r m b w = (Done tt, poll_n r (S n) w))).
Proof.
  induction fuel as [|fuel IH]; intros w.
  - exists O. split; [intros k Hk; inversion Hk|]. left. split; reflexivity.
  - destruct (exits m b (peek r w)) eqn:E.
    + exists O. split; [intros k Hk; inversion Hk|]. right.
      split; [lia|]. split; [exact E|].
      simpl. unfold bind. simpl. unfold exits, peek in E. rewrite E. reflexivity.
    + destruct (IH (snd (reg_read r w))) as (n & Hlt & Hn).
      exists (S n). split.
      * intros [|k] Hk; [exact E|]. simpl. apply Hlt. lia.
      * assert (Hs : spin (S fuel) r m b w = spin fuel r m b (snd (reg_read r w))).
        { simpl. unfold bind. simpl. unfold exits, peek in E. rewrite E. reflexivity. }
        rewrite Hs.
        destruct Hn as [[-> H]|(Hn & Hx & H)].
        -- left. split; [reflexivity|exact H].
        -- right. split; [lia|]. split; [exact Hx|exact H].
Qed.

(** If the flag shows up within the budget, the wait ends. *)
Lemma spin_total fuel r m b : forall w k,
  (k < fuel)%nat -> exits m b (peek r (poll_n r k w)) = true ->
  exists n, (n <= k)%nat /\ spin fuel r m b w = (Done tt, poll_n r (S n) w).
Proof.
  intros w k Hk Hx.
  destruct (spin_run fuel r m b w) as (n & Hlt & [[-> H]|(Hn & Hxn & H)]).
  - rewrite Hlt in Hx by exact Hk. discriminate.
  - exists n. split; [|exact H].
    destruct (Nat.le_gt_cases n k) as [Hle|Hgt]; [exact Hle|].
    rewrite Hlt in Hx by exact Hgt. discriminate.
Qed.

Lemma replay_app d es1 es2 :
  replay d (es1 ++ es2) = replay d es1 ++ replay (final d es1) es2.
Proof. revert d. induction es1 as [|e es1 IH]; intros d; simpl; [reflexivity|]. now rewrite IH. Qed.

Lemma final_app d es1 es2 : final d (es1 ++ es2) = final (final d es1) es2.
Proof. apply fold_left_app. Qed.

Lemma replay_events d es : map acc_ev (replay d es) = es.
Proof. revert d. induction es as [|e es IH]; intros d; simpl; [reflexivity|]. now rewrite IH. Qed.

Lemma faithful_ret {A} (a : A) : faithful (ret a).
Proof. intros w. exists []. simpl. now rewrite app_nil_r. Qed.

Lemma faithful_bind {A B} (m : M D A) (k : A -> M D B) :
  faithful m -> (forall a, faithful (k a)) -> faithful (bind m k).
Proof.
  intros Hm Hk w. unfold bind.
  destruct (Hm w) as (es & Ht & Hh). destruct (m w) as [[a|] w'] eqn:E; simpl in *.
  - destruct (Hk a w') as (es' & Ht' & Hh'). exists (es ++ es').
    rewrite Ht', Ht, Hh', Hh, replay_app, final_app, <- app_assoc. auto.
  - exists es. auto.
Qed.

Lemma faithful_reg_read r : faithful (reg_read r).
Proof. intros w. exists [RegRead r (peek r w)]. split; reflexivity. Qed.

Lemma faithful_reg_write r v : faithful (reg_write r v).
Proof. intros w. exists [RegWrite r (wrap32 v)]. split; reflexivity. Qed.

Lemma faithful_platform e :
  (forall d, step d e = d) -> faithful (platform e).
Proof. intros H w. exists [e]. simpl. rewrite H. split; reflexivity. Qed.

Lemma faithful_digitalWrite p l : faithful (digitalWrite p l).
Proof. intros w. exists [DigitalWrite p l]. split; reflexivity. Qed.

Lemma faithful_settle_delay : faithful settle_delay.
Proof.
  intros w. exists []. unfold settle_delay. simpl replay. rewrite app_nil_r.
  now destruct (_ <? _).
Qed.

Lemma faithful_spin fuel r m b : faithful (spin fuel r m b).
Proof.
  induction fuel as [|fuel IH].
  - intros w. exists []. simpl. now rewrite app_nil_r.
  - cbn [spin]. apply faithful_bind; [apply faithful_reg_read|].
    intros v. destruct (Bool.eqb _ _); [apply faithful_ret|apply IH].
Qed.

End Runs.

Ltac faithful_tac :=
  repeat match goal with
  | |- faithful (bind _ _) => apply faithful_bind; [|intros ?]
  | |- faithful (ret _) => apply faithful_ret
  | |- faithful (reg_read _) => apply faithful_reg_read
  | |- faithful (reg_write _ _) => apply faithful_reg_write
  | |- faithful (platform _) => apply faithful_platform; reflexivity
  | |- faithful (digitalWrite _ _) => apply faithful_digitalWrite
  | |- faithful settle_delay => apply faithful_settle_delay
  | |- faithful (spin _ _ _ _) => apply faithful_spin
  | |- faithful (if ?c then _ else _) => destruct c
  end.

Section Traces.
Context {D : Type} {P : Peripheral D}.

Lemma faithful_adc_init fuel : faithful (adc_init fuel).
Proof. unfold adc_init, reg_or, reg_and, wait_while, wait_until. faithful_tac. Qed.

Lemma faithful_adc_start ch : faithful (adc_start ch).
Proof. unfold adc_start, reg_or, reg_and. faithful_tac. Qed.

Lemma faithful_adc_finish : faithful adc_finish.
Proof. unfold adc_finish. faithful_tac. Qed.

Lemma faithful_adc_read fuel ch : faithful (adc_read fuel ch).
Proof. unfold adc_read, reg_or, reg_and, wait_until. faithful_tac. Qed.

Lemma faithful_startup fuel : faithful (startup fuel).
Proof.
  unfold startup, init, Serial_begin, reg_or.
  repeat match goal with
  | |- faithful (adc_init _) => apply faithful_adc_init
  | _ => progress faithful_tac
  end.
Qed.

Lemma faithful_loop_body fuel : faithful (loop_body fuel).
Proof.
  unfold loop_body, Serial_write, delayMicroseconds.
  apply faithful_bind; [apply faithful_adc_read|intros ?]. faithful_tac.
Qed.

Lemma faithful_main_loop fuel n : faithful (main_loop fuel n).
Proof.
  induction n as [|n IH]; cbn [main_loop]; [apply faithful_ret|].
  apply faithful_bind; [apply faithful_loop_body|intros _; exact IH].
Qed.

Lemma faithful_main fuel n : faithful (main fuel n).
Proof.
  unfold main, pinMode.
  apply faithful_bind; [apply faithful_startup|intros ?].
  apply faithful_bind; [apply faithful_platform; reflexivity|intros ?].
  apply faithful_bind; [apply faithful_platform; reflexivity|intros ?].
  apply faithful_main_loop.
Qed.

Lemma faithful_extends {A} (m : M D A) : faithful m -> extends m.
Proof.
  intros H w. destruct (H w) as (es & Ht & _).
  now rewrite (added_of_trace m w _ Ht).
Qed.

Lemma faithful_added {A} (m : M D A) w :
  faithful m ->
  added m w = replay (hw w) (added_events m w) /\
  hw (snd (m w)) = final (hw w) (added_events m w).
Proof.
  intros H. destruct (H w) as (es & Ht & Hh).
  unfold added_events. rewrite (added_of_trace m w _ Ht), replay_events. auto.
Qed.

(** The trace of a sequence is the concatenation of the traces. *)
Lemma added_bind {A B} (m : M D A) (k : A -> M D B) w :
  extends m -> (forall a, extends (k a)) ->
  added (bind m k) w =
  added m w ++ match fst (m w) with
               | Done a => added (k a) (snd (m w))
               | Hang => []
               end.
Proof.
  intros Hm Hk. apply added_of_trace. unfold bind.
  specialize (Hm w). destruct (m w) as [[a|] w'] eqn:E; simpl in *.
  - rewrite (Hk a w'), Hm, <- app_assoc. reflexivity.
  - now rewrite app_nil_r.
Qed.

Lemma events_added {A} (m : M D A) w :
  extends m -> events (snd (m w)) = events w ++ added_events m w.
Proof. intros H. unfold events, added_events. now rewrite H, map_app. Qed.

(** [adc_read] is its first half, the wait, and its second half. *)
Lemma adc_read_split fuel ch w :
  adc_read fuel ch w =
  (adc_start ch ;; wait_until fuel ADC1_ISR ADC_ISR_EOC ;; adc_finish) w.
Proof. reflexivity. Qed.

Lemma adc_read_run fuel ch w :
  exists n,
    (forall k, (k < n)%nat ->
       exits ADC_ISR_EOC true
         (peek ADC1_ISR (poll_n ADC1_ISR k (snd (adc_start ch w)))) = false) /\
    ((n = fuel /\
      adc_read fuel ch w = (Hang, poll_n ADC1_ISR n (snd (adc_start ch w)))) \/
     ((n < fuel)%nat /\
      exits ADC_ISR_EOC true
        (peek ADC1_ISR (poll_n ADC1_ISR n (snd (adc_start ch w)))) = true /\
      adc_read fuel ch w =
      adc_finish (poll_n ADC1_ISR (S n) (snd (adc_start ch w))))).
Proof.
  destruct (spin_run fuel ADC1_ISR ADC_ISR_EOC true (snd (adc_start ch w)))
    as (n & Hlt & H).
  exists n. split; [exact Hlt|].
  rewrite adc_read_split.
  change ((adc_start ch ;; wait_until fuel ADC1_ISR ADC_ISR_EOC ;; adc_finish) w)
    with ((wait_until fuel ADC1_ISR ADC_ISR_EOC ;; adc_finish) (snd (adc_start ch w))).
  unfold bind, wait_until.
  destruct H as [[-> H]|(Hn & Hx & H)]; [left|right]; rewrite H; auto.
Qed.

(** *** Machine-integer facts *)

Lemma wrap32_range z : 0 <= wrap32 z < 2 ^ 32.
Proof. apply Z.mod_pos_bound. reflexivity. Qed.

Lemma wrap32_small z : 0 <= z < 2 ^ 32 -> wrap32 z = z.
Proof. apply Z.mod_small. Qed.

Lemma wrap16_small z : 0 <= z < 2 ^ 16 -> wrap16 z = z.
Proof. apply Z.mod_small. Qed.

Lemma wrap8_small z : 0 <= z < 2 ^ 8 -> wrap8 z = z.
Proof. apply Z.mod_small. Qed.

Lemma wrap8_range z : 0 <= wrap8 z < 2 ^ 8.
Proof. apply Z.mod_pos_bound. reflexivity. Qed.

Lemma wrap16_range z : 0 <= wrap16 z < 2 ^ 16.
Proof. apply Z.mod_pos_bound. reflexivity. Qed.

Lemma below_pow2_bits n z :
  0 <= n -> 0 <= z ->
  (z < 2 ^ n <-> forall i, n <= i -> Z.testbit z i = false).
Proof.
  intros Hn Hz. split.
  - intros Hlt i Hi. destruct (Z.eq_dec z 0) as [->|Hnz]; [apply Z.bits_0|].
    apply Z.bits_above_log2; [assumption|].
    assert (Z.log2 z < n) by (apply Z.log2_lt_pow2; lia). lia.
  - intros Hb. destruct (Z.eq_dec z 0) as [->|Hnz]; [apply Z.pow_pos_nonneg; lia|].
    apply Z.log2_lt_pow2; [lia|].
    destruct (Z.lt_ge_cases (Z.log2 z) n) as [|Hge]; [assumption|].
    pose proof (Hb _ Hge) as Hf. pose proof (Z.bit_log2 z ltac:(lia)). congruence.
Qed.

Lemma lor_range n x y :
  0 <= n -> 0 <= x < 2 ^ n -> 0 <= y < 2 ^ n -> 0 <= Z.lor x y < 2 ^ n.
Proof.
  intros Hn Hx Hy.
  assert (H0 : 0 <= Z.lor x y) by (apply Z.lor_nonneg; lia).
  split; [exact H0|]. apply (below_pow2_bits n); try assumption.
  intros i Hi. rewrite Z.lor_spec.
  rewrite (proj1 (below_pow2_bits n x Hn (proj1 Hx)) (proj2 Hx) i Hi).
  rewrite (proj1 (below_pow2_bits n y Hn (proj1 Hy)) (proj2 Hy) i Hi).
  reflexivity.
Qed.

Lemma land_range n x y :
  0 <= n -> 0 <= x < 2 ^ n -> 0 <= Z.land x y < 2 ^ n.
Proof.
  intros Hn Hx.
  assert (H0 : 0 <= Z.land x y) by (apply Z.land_nonneg; lia).
  split; [exact H0|]. apply (below_pow2_bits n); try assumption.
  intros i Hi. rewrite Z.land_spec.
  rewrite (proj1 (below_pow2_bits n x Hn (proj1 Hx)) (proj2 Hx) i Hi).
  reflexivity.
Qed.

Lemma wrap32_lor x y :
  0 <= x < 2 ^ 32 -> 0 <= y < 2 ^ 32 -> wrap32 (Z.lor x y) = Z.lor x y.
Proof. intros. apply wrap32_small, lor_range; lia. Qed.

Lemma wrap32_land x y : 0 <= x < 2 ^ 32 -> wrap32 (Z.land x y) = Z.land x y.
Proof. intros. apply wrap32_small, land_range; lia. Qed.

Lemma peek_range r w : 0 <= peek r w < 2 ^ 32.
Proof. apply wrap32_range. Qed.

(** *** Polling *)

Lemma poll_n_hw r n : forall w, hw (poll_n r n w) = final (hw w) (map (RegRead r) (poll_values r n (hw w))).
Proof.
  induction n as [|n IH]; intros w; [reflexivity|].
  cbn [poll_n poll_values map]. rewrite IH. reflexivity.
Qed.

Lemma poll_n_events r n w :
  events (poll_n r n w) = events w ++ map (RegRead r) (poll_values r n (hw w)).
Proof.
  unfold events. rewrite poll_n_trace, map_app, poll_trace_events. reflexivity.
Qed.

Lemma poll_values_S r n : forall w,
  poll_values r (S n) (hw w) = poll_values r n (hw w) ++ [peek r (poll_n r n w)].
Proof.
  induction n as [|n IH]; intros w; [reflexivity|].
  change (poll_values r (S (S n)) (hw w))
    with (peek r w :: poll_values r (S n) (hw (snd (reg_read r w)))).
  rewrite IH. reflexivity.
Qed.

Lemma poll_values_Forall (Q : Z -> Prop) r n : forall w,
  (forall k, (k < n)%nat -> Q (peek r (poll_n r k w))) ->
  Forall Q (poll_values r n (hw w)).
Proof.
  induction n as [|n IH]; intros w H; [constructor|].
  cbn [poll_values]. constructor.
  - apply (H O). lia.
  - apply (IH (snd (reg_read r w))). intros k Hk. apply (H (S k)). lia.
Qed.

Lemma poll_values_range r n : forall d,
  Forall (fun v => 0 <= v < 2 ^ 32) (poll_values r n d).
Proof.
  induction n as [|n IH]; intros d; cbn [poll_values]; constructor;
    [apply wrap32_range|apply IH].
Qed.

(** *** The events of [adc_read] *)

Lemma shifted_channel_range ch : 0 <= Z.shiftl (wrap8 ch) 6 < 2 ^ 32.
Proof.
  pose proof (wrap8_range ch). rewrite Z.shiftl_mul_pow2 by lia.
  change (2 ^ 8) with 256 in *. change (2 ^ 6) with 64. change (2 ^ 32) with 4294967296. lia.
Qed.

Lemma adc_start_events ch w :
  exists a b c e, u32 a /\ u32 b /\ u32 c /\ u32 e /\
    added_events (adc_start ch) w = start_events ch a b c e.
Proof.
  unfold added_events, added. run. flat. rewrite skipn_app_exact.
  cbn [map acc_ev].
  unfold start_events, u32.
  rewrite !wrap32_land by apply wrap32_range.
  rewrite !wrap32_lor
    by first [apply wrap32_range | apply shifted_channel_range
             | cbv; intuition congruence].
  eexists _, _, _, _.
  split; [|split; [|split; [|split; [|reflexivity]]]]; apply wrap32_range.
Qed.

Lemma adc_finish_run w :
  adc_finish w =
  (Done (wrap16 (peek ADC1_DR w)),
   snd (reg_read ADC1_DR (snd (digitalWrite PIN_SAMPLE LOW w)))).
Proof. reflexivity. Qed.

Lemma adc_finish_events w :
  added_events adc_finish w =
  [DigitalWrite PIN_SAMPLE LOW; RegRead ADC1_DR (peek ADC1_DR w)].
Proof.
  unfold added_events, added. run. flat. rewrite skipn_app_exact. reflexivity.
Qed.

Lemma exits_set_true m v : exits m true v = true <-> flag_set m v.
Proof.
  unfold exits, flag_set. destruct (Z.eqb_spec (Z.land v m) 0); simpl; split;
    congruence.
Qed.

Lemma exits_set_false m v : exits m true v = false <-> flag_clear m v.
Proof.
  unfold exits, flag_clear. destruct (Z.eqb_spec (Z.land v m) 0); simpl; split;
    congruence.
Qed.

Lemma exits_clear_true m v : exits m false v = true <-> flag_clear m v.
Proof.
  unfold exits, flag_clear. destruct (Z.eqb_spec (Z.land v m) 0); simpl; split;
    congruence.
Qed.

Lemma exits_clear_false m v : exits m false v = false <-> flag_set m v.
Proof.
  unfold exits, flag_set. destruct (Z.eqb_spec (Z.land v m) 0); simpl; split;
    congruence.
Qed.

(** The whole of [adc_read], as a list of events: the straight-line
    start, the polls, and - unless the budget ran out - the end. *)
Lemma adc_read_events fuel ch w :
  exists a b c e polls,
    u32 a /\ u32 b /\ u32 c /\ u32 e /\
    Forall (flag_clear ADC_ISR_EOC) polls /\
    ((fst (adc_read fuel ch w) = Hang /\ length polls = fuel /\
      added_events (adc_read fuel ch) w =
      start_events ch a b c e ++ map (RegRead ADC1_ISR) polls) \/
     (exists last dr,
        flag_set ADC_ISR_EOC last /\ u32 dr /\ (length polls < fuel)%nat /\
        fst (adc_read fuel ch w) = Done (wrap16 dr) /\
        added_events (adc_read fuel ch) w =
        start_events ch a b c e ++ map (RegRead ADC1_ISR) (polls ++ [last])
        ++ [DigitalWrite PIN_SAMPLE LOW; RegRead ADC1_DR dr])).
Proof.
  destruct (adc_start_events ch w) as (a & b & c & e & Ha & Hb & Hc & He & Hs).
  destruct (adc_read_run fuel ch w) as (n & Hlt & H).
  set (w0 := snd (adc_start ch w)) in *.
  assert (Hw0 : events w0 = events w ++ start_events ch a b c e).
  { unfold w0. rewrite <- Hs. apply events_added, faithful_extends, faithful_adc_start. }
  assert (Hadd : forall w', (exists l, events w' = events w0 ++ l) ->
            trace (snd (adc_read fuel ch w)) = trace w' ->
            added_events (adc_read fuel ch) w =
            skipn (length (events w)) (events w')).
  { intros w' _ Ht. unfold added_events, added. rewrite Ht. unfold events.
    rewrite <- (length_map acc_ev (trace w)), <- skipn_map. reflexivity. }
  exists a, b, c, e, (poll_values ADC1_ISR n (hw w0)).
  repeat (split; [assumption|]).
  split.
  { apply poll_values_Forall. intros k Hk. apply exits_set_false, Hlt, Hk. }
  destruct H as [[-> H]|(Hn & Hx & H)]; [left|right].
  - rewrite H. cbn [fst]. split; [reflexivity|].
    split; [apply poll_values_length|].
    rewrite (Hadd (poll_n ADC1_ISR fuel w0)).
    + rewrite poll_n_events, Hw0, <- app_assoc, skipn_app_exact. reflexivity.
    + rewrite poll_n_events. eauto.
    + rewrite H. reflexivity.
  - exists (peek ADC1_ISR (poll_n ADC1_ISR n w0)),
           (peek ADC1_DR (poll_n ADC1_ISR (S n) w0)).
    split; [apply exits_set_true, Hx|].
    split; [apply peek_range|].
    split; [rewrite poll_values_length; exact Hn|].
    rewrite H, adc_finish_run. cbn [fst]. split; [reflexivity|].
    rewrite (Hadd (snd (adc_finish (poll_n ADC1_ISR (S n) w0)))).
    + rewrite (events_added adc_finish _ (faithful_extends _ faithful_adc_finish)).
      rewrite adc_finish_events, poll_n_events, Hw0, poll_values_S.
      rewrite <- !app_assoc, skipn_app_exact. reflexivity.
    + rewrite (events_added adc_finish _ (faithful_extends _ faithful_adc_finish)).
      rewrite poll_n_events, <- app_assoc. eauto.
    + rewrite H. reflexivity.
Qed.

(** *** One pass of the main loop *)

Lemma loop_body_split fuel w :
  loop_body fuel w = (sample <- adc_read fuel ADC_CHANNEL ;; send_frame sample) w.
Proof. reflexivity. Qed.

Lemma send_frame_done s (w : world D) : fst (send_frame s w) = Done tt.
Proof. reflexivity. Qed.

Lemma send_frame_events s (w : world D) :
  added_events (send_frame s) w = frame_events s.
Proof.
  unfold added_events, added, send_frame. run. flat.
  rewrite skipn_app_exact. reflexivity.
Qed.

Lemma send_frame_pins s (w : world D) :
  pins (snd (send_frame s w)) PIN_SAMPLE = pins w PIN_SAMPLE.
Proof. reflexivity. Qed.

Lemma faithful_send_frame s : faithful (send_frame s).
Proof. unfold send_frame, Serial_write, delayMicroseconds. faithful_tac. Qed.

Lemma loop_body_done fuel w s :
  fst (adc_read fuel ADC_CHANNEL w) = Done s ->
  loop_body fuel w = send_frame s (snd (adc_read fuel ADC_CHANNEL w)) /\
  fst (loop_body fuel w) = Done tt /\
  added_events (loop_body fuel) w =
  added_events (adc_read fuel ADC_CHANNEL) w ++ frame_events s.
Proof.
  intros H.
  assert (E : loop_body fuel w = send_frame s (snd (adc_read fuel ADC_CHANNEL w))).
  { rewrite loop_body_split. unfold bind.
    rewrite (run_pair (adc_read fuel ADC_CHANNEL) w), H. reflexivity. }
  split; [exact E|]. split; [rewrite E; apply send_frame_done|].
  unfold added_events.
  change (loop_body fuel) with (bind (adc_read fuel ADC_CHANNEL) send_frame).
  rewrite added_bind
    by (intros; apply faithful_extends;
        [apply faithful_adc_read || apply faithful_send_frame]).
  rewrite H, map_app. f_equal. apply send_frame_events.
Qed.

Lemma loop_body_hang fuel w :
  fst (adc_read fuel ADC_CHANNEL w) = Hang ->
  loop_body fuel w = (Hang, snd (adc_read fuel ADC_CHANNEL w)).
Proof.
  intros H. rewrite loop_body_split. unfold bind.
  rewrite (run_pair (adc_read fuel ADC_CHANNEL) w), H. reflexivity.
Qed.

(** *** Projections of event lists *)

Lemma serial_bytes_app l1 l2 :
  serial_bytes (l1 ++ l2) = serial_bytes l1 ++ serial_bytes l2.
Proof.
  induction l1 as [|e l1 IH]; [reflexivity|].
  destruct e; cbn [app serial_bytes]; rewrite IH; reflexivity.
Qed.

Lemma serial_bytes_reads r vs : serial_bytes (map (RegRead r) vs) = [].
Proof. induction vs; [reflexivity|assumption]. Qed.

Lemma pin_levels_app p l1 l2 :
  pin_levels p (l1 ++ l2) = pin_levels p l1 ++ pin_levels p l2.
Proof.
  induction l1 as [|e l1 IH]; [reflexivity|].
  destruct e; cbn [app pin_levels]; rewrite IH; try reflexivity.
  now destruct (pin_eqb _ _).
Qed.

Lemma pin_levels_reads p r vs : pin_levels p (map (RegRead r) vs) = [].
Proof. induction vs; [reflexivity|assumption]. Qed.

Lemma reads_are_reg_accesses r vs :
  Forall (fun e => is_reg_access e = true) (map (RegRead r) vs).
Proof. induction vs; constructor; auto. Qed.

(** *** Bytes of a sample *)

Lemma low_byte_range s : 0 <= Z.land s 0xFF < 2 ^ 8.
Proof.
  change 0xFF with (Z.ones 8). rewrite Z.land_ones by lia.
  apply Z.mod_pos_bound. reflexivity.
Qed.

Lemma high_byte_range s : 0 <= s < 2 ^ 16 -> 0 <= Z.shiftr s 8 < 2 ^ 8.
Proof.
  intros H. rewrite Z.shiftr_div_pow2 by lia. split.
  - apply Z.div_pos; lia.
  - apply Z.div_lt_upper_bound; [reflexivity|]. change (2 ^ 8 * 2 ^ 8) with (2 ^ 16). lia.
Qed.

Lemma bytes_roundtrip s :
  Z.lor (Z.land s 0xFF) (Z.shiftl (Z.shiftr s 8) 8) = s.
Proof.
  apply Z.bits_inj'. intros n Hn.
  rewrite Z.lor_spec, Z.land_spec, Z.shiftl_spec by lia.
  change 0xFF with (Z.ones 8).
  destruct (Z.lt_ge_cases n 8) as [Hlt|Hge].
  - rewrite Z.ones_spec_low by lia.
    rewrite (Z.testbit_neg_r _ (n - 8)) by lia.
    now rewrite andb_true_r, orb_false_r.
  - rewrite Z.ones_spec_high by lia.
    rewrite Z.shiftr_spec by lia.
    replace (n - 8 + 8) with n by lia.
    now rewrite andb_false_r.
Qed.

Lemma adc_read_serial_silent fuel ch w :
  serial_bytes (added_events (adc_read fuel ch) w) = [].
Proof.
  destruct (adc_read_events fuel ch w)
    as (a & b & c & e & polls & _ & _ & _ & _ & _ & H).
  destruct H as [(_ & _ & ->)|(last & dr & _ & _ & _ & _ & ->)];
    rewrite !serial_bytes_app, !serial_bytes_reads; reflexivity.
Qed.

Lemma adc_read_result_range fuel ch w s :
  fst (adc_read fuel ch w) = Done s -> 0 <= s < 2 ^ 16.
Proof.
  destruct (adc_read_events fuel ch w)
    as (a & b & c & e & polls & _ & _ & _ & _ & _ & H).
  destruct H as [(-> & _)|(last & dr & _ & _ & _ & -> & _)]; [discriminate|].
  intros [= <-]. apply wrap16_range.
Qed.

End Traces.

(* ------------------------------------------------------------------ *)
(** ** Properties of the firmware *)

Section Framing.
Context {D : Type} {P : Peripheral D}.

(** What one pass sends, once [adc_read] has returned a 16-bit sample. *)
Lemma loop_body_frame (fuel : nat) (w : world D) (sample : Z) :
  fst (adc_read fuel ADC_CHANNEL w) = Done sample ->
  fst (loop_body fuel w) = Done tt /\
  serial_bytes (added_events (loop_body fuel) w)
  = [0xAA; 0xAA; Z.land sample 0xFF; Z.shiftr sample 8].
Proof.
  intros Hs.
  pose proof (adc_read_result_range fuel ADC_CHANNEL w sample Hs) as Hrange.
  destruct (loop_body_done fuel w sample Hs) as (_ & Hdone & Hev).
  split; [exact Hdone|].
  rewrite Hev, serial_bytes_app, adc_read_serial_silent.
  cbn [app frame_events serial_bytes].
  rewrite (wrap8_small (Z.land sample 0xFF)) by apply low_byte_range.
  rewrite (wrap8_small (Z.shiftr sample 8)) by (apply high_byte_range; exact Hrange).
  rewrite (wrap8_small (Z.land sample 0xFF)) by apply low_byte_range.
  rewrite (wrap8_small (Z.shiftr sample 8)) by (apply high_byte_range; exact Hrange).
  reflexivity.
Qed.

(** C1. For every sample in 0..4095 that [adc_read] hands to the loop
    body, the bytes written to the serial port in that pass are exactly
    0xAA, 0xAA, the low byte [sample & 0xFF] and the high byte
    [sample >> 8], in this order; the two payload bytes give the sample
    back as [low | (high << 8)]; sample 0x0000 is framed as AA AA 00 00
    and sample 0x0FFF as AA AA FF 0F. *)
Theorem frame_shape (fuel : nat) (w : world D) (sample : Z) :
  fst (adc_read fuel ADC_CHANNEL w) = Done sample ->
  0 <= sample <= 4095 ->
  let low_byte := Z.land sample 0xFF in
  let high_byte := Z.shiftr sample 8 in
  let sent := serial_bytes (added_events (loop_body fuel) w) in
  fst (loop_body fuel w) = Done tt /\
  sent = [0xAA; 0xAA; low_byte; high_byte] /\
  Z.lor low_byte (Z.shiftl high_byte 8) = sample /\
  (sample = 0x0000 -> sent = [0xAA; 0xAA; 0x00; 0x00]) /\
  (sample = 0x0FFF -> sent = [0xAA; 0xAA; 0xFF; 0x0F]).
Proof.
  intros Hs Hrange low_byte high_byte sent.
  destruct (loop_body_frame fuel w sample Hs) as [Hdone Hsent].
  fold sent low_byte high_byte in Hsent.
  split; [exact Hdone|]. split; [exact Hsent|].
  split; [apply bytes_roundtrip|].
  split; intros E; rewrite Hsent; unfold low_byte, high_byte; rewrite E; reflexivity.
Qed.

End Framing.

Lemma frame_shape_witness :
  fst (adc_read 10 ADC_CHANNEL (sim_started 0xFFF)) = Done 0xFFF /\
  0 <= 0xFFF <= 4095 /\
  serial_bytes (added_events (loop_body 10) (sim_started 0xFFF))
  = [0xAA; 0xAA; 0xFF; 0x0F].
Proof.
  assert (H : fst (adc_read 10 ADC_CHANNEL (sim_started 0xFFF)) = Done 0xFFF)
    by (vm_compute; reflexivity).
  split; [exact H|]. split; [lia|].
  exact (proj1 (proj2 (frame_shape 10 (sim_started 0xFFF) 0xFFF H ltac:(lia)))).
Defined.

Section Conversion.
Context {D : Type} {P : Peripheral D}.

Lemma adc_read_completes fuel ch w :
  conversion_completes fuel ch w ->
  exists n, (n < fuel)%nat /\
    adc_read fuel ch w = adc_finish (poll_n ADC1_ISR (S n) (snd (adc_start ch w))).
Proof.
  intros (k & Hk & Hset).
  destruct (adc_read_run fuel ch w) as (n & Hlt & [[-> _]|(Hn & _ & H)]).
  - apply exits_set_true in Hset. rewrite Hlt in Hset by exact Hk. discriminate.
  - eauto.
Qed.

(** C5, in the form that holds.  Whenever the conversion completes,
    [adc_read] returns, and what it returns is the value [raw] read from
    the result register as its last action, narrowed to [uint16_t] and
    not masked: a value in 0..65535; the value read itself, zero-extended,
    whenever it fits 16 bits; and a 12-bit magnitude in 0..4095 whenever
    the register holds one, as it does in the 12-bit right-aligned
    mode. *)
Theorem adc_read_returns_result (fuel : nat) (ch : Z) (w : world D) :
  conversion_completes fuel ch w ->
  exists raw,
    fst (adc_read fuel ch w) = Done (wrap16 raw) /\
    (exists l, added_events (adc_read fuel ch) w = l ++ [RegRead ADC1_DR raw]) /\
    0 <= raw < 2 ^ 32 /\
    0 <= wrap16 raw <= 65535 /\
    (raw < 2 ^ 16 -> wrap16 raw = raw) /\
    (raw < 2 ^ 12 -> wrap16 raw = raw /\ 0 <= wrap16 raw <= 4095).
Proof.
  intros Hc.
  destruct (adc_read_completes fuel ch w Hc) as (n & _ & Hrun).
  destruct (adc_read_events fuel ch w)
    as (a & b & c & e & polls & _ & _ & _ & _ & _ & H).
  rewrite Hrun, adc_finish_run in H. cbn [fst] in H.
  destruct H as [(Hh & _)|(last & dr & _ & Hdr & _ & Hd & Hev)]; [discriminate|].
  exists dr. rewrite Hrun, adc_finish_run. cbn [fst].
  split; [exact Hd|]. split.
  { eexists. rewrite Hev.
    change [DigitalWrite PIN_SAMPLE LOW; RegRead ADC1_DR dr]
      with ([DigitalWrite PIN_SAMPLE LOW] ++ [RegRead ADC1_DR dr]).
    rewrite !app_assoc. reflexivity. }
  split; [exact Hdr|]. destruct Hdr as [Hdr0 _].
  split.
  { pose proof (wrap16_range dr) as Hr. change (2 ^ 16) with 65536 in Hr. lia. }
  split.
  - intros Hlt. apply wrap16_small. lia.
  - intros Hlt. change (2 ^ 12) with 4096 in Hlt.
    rewrite wrap16_small by (change (2 ^ 16) with 65536; lia). lia.
Qed.

End Conversion.

Lemma adc_read_returns_result_witness :
  conversion_completes 10 ADC_CHANNEL (sim_started 2048) /\
  fst (adc_read 10 ADC_CHANNEL (sim_started 2048)) = Done 2048 /\
  0 <= 2048 <= 4095.
Proof.
  assert (H : conversion_completes 10 ADC_CHANNEL (sim_started 2048)).
  { exists 2%nat. split; [lia|]. vm_compute. discriminate. }
  split; [exact H|].
  destruct (adc_read_returns_result 10 ADC_CHANNEL (sim_started 2048) H)
    as (raw & Hd & (l & Hev) & _ & _ & _ & H12).
  assert (E : raw = 2048).
  { assert (L : last (added_events (adc_read 10 ADC_CHANNEL) (sim_started 2048))
                     ArduinoInit = RegRead ADC1_DR 2048)
      by (vm_compute; reflexivity).
    rewrite Hev, last_last in L. injection L. auto. }
  subst raw. destruct (H12 ltac:(lia)) as [Hw Hr].
  rewrite Hw in Hd, Hr. split; [exact Hd|exact Hr].
Defined.

(** C5 does not hold to the letter: line 128 narrows the value read to
    16 bits and does not mask it, so on a converter whose result register
    holds 0xFFFF a call on which the conversion completes returns 65535,
    which is no 12-bit magnitude. *)
Lemma adc_read_returns_above_4095 :
  conversion_completes 10 ADC_CHANNEL (sim_started 0xFFFF) /\
  fst (adc_read 10 ADC_CHANNEL (sim_started 0xFFFF)) = Done 65535 /\
  ~ (0 <= 65535 <= 4095).
Proof.
  split; [|split].
  - exists 2%nat. split; [lia|]. vm_compute. discriminate.
  - vm_compute. reflexivity.
  - lia.
Qed.

Section Probe.
Context {D : Type} {P : Peripheral D}.

Lemma adc_read_done_pins fuel ch w s :
  fst (adc_read fuel ch w) = Done s ->
  pins (snd (adc_read fuel ch w)) PIN_SAMPLE = LOW.
Proof.
  destruct (adc_read_run fuel ch w) as (n & _ & [[_ ->]|(_ & _ & ->)]);
    [discriminate|reflexivity].
Qed.

Lemma adc_read_done_shape fuel ch w s :
  fst (adc_read fuel ch w) = Done s ->
  exists accesses c dr,
    added_events (adc_read fuel ch) w =
    DigitalWrite PIN_SAMPLE HIGH
    :: accesses
    ++ [RegRead ADC1_ISR c; DigitalWrite PIN_SAMPLE LOW; RegRead ADC1_DR dr] /\
    Forall (fun e => is_reg_access e = true) accesses /\
    flag_set ADC_ISR_EOC c.
Proof.
  intros Hs.
  destruct (adc_read_events fuel ch w)
    as (a & b & c & e & polls & _ & _ & _ & _ & _ & H).
  destruct H as [(Hh & _)|(last & dr & Hlast & _ & _ & _ & Hev)];
    [congruence|].
  exists (tl (start_events ch a b c e) ++ map (RegRead ADC1_ISR) polls), last, dr.
  split; [|split; [|exact Hlast]].
  - rewrite Hev, map_app. cbn [start_events tl map app].
    rewrite <- !app_assoc. reflexivity.
  - apply Forall_app. split; [|apply reads_are_reg_accesses].
    cbn [start_events tl]. repeat constructor.
Qed.

Lemma adc_read_done_levels fuel ch w s :
  fst (adc_read fuel ch w) = Done s ->
  pin_levels PIN_SAMPLE (added_events (adc_read fuel ch) w) = [HIGH; LOW].
Proof.
  intros Hs.
  destruct (adc_read_events fuel ch w)
    as (a & b & c & e & polls & _ & _ & _ & _ & _ & H).
  destruct H as [(Hh & _)|(last & dr & _ & _ & _ & _ & ->)]; [congruence|].
  rewrite !pin_levels_app, pin_levels_reads. reflexivity.
Qed.

Lemma main_loop_levels fuel n : forall w,
  fst (main_loop fuel n w) = Done tt ->
  pin_levels PIN_SAMPLE (added_events (main_loop fuel n) w)
  = concat (repeat [HIGH; LOW] n) /\
  (n <> O -> pins (snd (main_loop fuel n w)) PIN_SAMPLE = LOW).
Proof.
  induction n as [|n IH]; intros w Hdone.
  - split; [|congruence]. unfold added_events, added. cbn [main_loop ret snd].
    now rewrite skipn_all.
  - cbn [main_loop] in *.
    destruct (fst (adc_read fuel ADC_CHANNEL w)) as [s|] eqn:Hs.
    2:{ unfold bind in Hdone. rewrite (loop_body_hang fuel w Hs) in Hdone.
        discriminate. }
    destruct (loop_body_done fuel w s Hs) as (Hrun & Hd & Hev).
    assert (Hk : bind (loop_body fuel) (fun _ => main_loop fuel n) w
                 = main_loop fuel n (snd (loop_body fuel w))).
    { unfold bind. rewrite (run_pair (loop_body fuel) w), Hd. reflexivity. }
    rewrite Hk in Hdone. destruct (IH _ Hdone) as (IHl & IHp).
    split.
    + unfold added_events. rewrite added_bind
        by (intros; apply faithful_extends;
            [apply faithful_loop_body || apply faithful_main_loop]).
      rewrite Hd, map_app, pin_levels_app.
      fold (added_events (loop_body fuel) w).
      fold (added_events (main_loop fuel n) (snd (loop_body fuel w))).
      rewrite IHl, Hev, pin_levels_app, (adc_read_done_levels fuel _ w s Hs).
      reflexivity.
    + intros _. rewrite Hk. destruct n as [|n].
      * cbn [main_loop ret snd]. rewrite Hrun, send_frame_pins.
        apply (adc_read_done_pins fuel _ w s Hs).
      * apply IHp. congruence.
Qed.

(** C10. A call of [adc_read] that returns first drives the probe pin
    high, then performs only register accesses, the last of which is the
    status read that shows the conversion complete, then drives the
    probe low, and only then reads the result register; the probe is low
    when the call returns; and over the passes of the main loop the
    levels driven on the probe are high, low, high, low and so on, one
    pair per call. *)
Theorem probe_brackets_conversion :
  (forall fuel ch (w : world D) s,
     fst (adc_read fuel ch w) = Done s ->
     (exists accesses c dr,
        added_events (adc_read fuel ch) w =
        DigitalWrite PIN_SAMPLE HIGH
        :: accesses
        ++ [RegRead ADC1_ISR c; DigitalWrite PIN_SAMPLE LOW; RegRead ADC1_DR dr] /\
        Forall (fun e => is_reg_access e = true) accesses /\
        flag_set ADC_ISR_EOC c) /\
     pins (snd (adc_read fuel ch w)) PIN_SAMPLE = LOW) /\
  (forall fuel n (w : world D),
     fst (main_loop fuel n w) = Done tt ->
     pin_levels PIN_SAMPLE (added_events (main_loop fuel n) w)
     = concat (repeat [HIGH; LOW] n) /\
     (n <> O -> pins (snd (main_loop fuel n w)) PIN_SAMPLE = LOW)).
Proof.
  split.
  - intros fuel ch w s Hs. split.
    + exact (adc_read_done_shape fuel ch w s Hs).
    + exact (adc_read_done_pins fuel ch w s Hs).
  - intros fuel n w. apply main_loop_levels.
Qed.

End Probe.

Lemma probe_brackets_conversion_witness :
  (fst (adc_read 10 ADC_CHANNEL (sim_started 2048)) = Done 2048 /\
   pins (snd (adc_read 10 ADC_CHANNEL (sim_started 2048))) PIN_SAMPLE = LOW) /\
  (fst (main_loop 10 3 (sim_started 2048)) = Done tt /\
   pin_levels PIN_SAMPLE (added_events (main_loop 10 3) (sim_started 2048))
   = [HIGH; LOW; HIGH; LOW; HIGH; LOW] /\
   pins (snd (main_loop 10 3 (sim_started 2048))) PIN_SAMPLE = LOW).
Proof.
  assert (H1 : fst (adc_read 10 ADC_CHANNEL (sim_started 2048)) = Done 2048)
    by (vm_compute; reflexivity).
  assert (H2 : fst (main_loop 10 3 (sim_started 2048)) = Done tt)
    by (vm_compute; reflexivity).
  split.
  - split; [exact H1|].
    exact (proj2 (proj1 probe_brackets_conversion 10%nat ADC_CHANNEL
                    (sim_started 2048) 2048 H1)).
  - split; [exact H2|].
    destruct (proj2 probe_brackets_conversion 10%nat 3%nat (sim_started 2048) H2)
      as [Hl Hp].
    split; [exact Hl|]. apply Hp. discriminate.
Defined.

Lemma single_bit_clear i v :
  0 <= i -> (flag_clear (2 ^ i) v <-> Z.testbit v i = false).
Proof.
  intros Hi. unfold flag_clear. split.
  - intros H. assert (Hb : Z.testbit (Z.land v (2 ^ i)) i = false)
      by (rewrite H; apply Z.bits_0).
    rewrite Z.land_spec, Z.pow2_bits_true, andb_true_r in Hb by lia. exact Hb.
  - intros H. apply Z.bits_inj'. intros n Hn.
    rewrite Z.land_spec, Z.bits_0, Z.pow2_bits_eqb by lia.
    destruct (Z.eqb_spec i n) as [->|]; [now rewrite H|apply andb_false_r].
Qed.

Lemma single_bit_set i v :
  0 <= i -> (flag_set (2 ^ i) v <-> Z.testbit v i = true).
Proof.
  intros Hi. unfold flag_set. pose proof (single_bit_clear i v Hi) as H.
  unfold flag_clear in H. destruct (Z.testbit v i); split; intros; try congruence.
  - intros E. apply H in E. discriminate.
  - exfalso. apply H0. apply H. reflexivity.
Qed.

Section StatusFlags.
Context {D : Type} {P : Peripheral D}.

(** The status register is write-one-to-clear: [flags] reads the
    peripheral's status flags, and a write clears every flag whose bit is
    one in the value written. *)
Variable flags : D -> Z.
Hypothesis write_one_to_clear :
  forall v d i, Z.testbit v i = true ->
                Z.testbit (flags (dev_write ADC1_ISR v d)) i = false.

Lemma reads_write_nothing r q vs :
  Forall (fun e => is_write_to q e = false) (map (RegRead r) vs).
Proof. induction vs; constructor; auto. Qed.

Lemma adc_read_added fuel ch w :
  exists a b c e rest,
    u32 a /\ u32 b /\ u32 c /\ u32 e /\
    added (adc_read fuel ch) w =
    replay (hw w) (start_events ch a b c e)
    ++ replay (final (hw w) (start_events ch a b c e)) rest /\
    Forall (fun x => is_write_to ADC1_ISR x = false) rest /\
    Forall (fun x => is_write_to ADC1_CR x = false) rest.
Proof.
  destruct (adc_read_events fuel ch w)
    as (a & b & c & e & polls & Ha & Hb & Hc & He & _ & H).
  destruct (faithful_added (adc_read fuel ch) w (faithful_adc_read fuel ch))
    as [Hadd _].
  exists a, b, c, e.
  destruct H as [(_ & _ & Hev)|(last & dr & _ & _ & _ & _ & Hev)];
    rewrite Hev, replay_app in Hadd; eexists; (repeat (split; [eassumption|]));
    split;
    repeat first [apply Forall_app; split | apply reads_write_nothing
                 | constructor; try reflexivity].
Qed.

Lemma start_events_added ch a b c e d :
  exists pre rd_sqr wr_sqr rd_isr wr_isr rd_cr wr_cr,
    replay d (start_events ch a b c e)
    = pre ++ [rd_sqr; wr_sqr; rd_isr; wr_isr; rd_cr; wr_cr] /\
    Forall (fun x => is_write_to ADC1_ISR (acc_ev x) = false) pre /\
    Forall (fun x => is_write_to ADC1_CR (acc_ev x) = false) pre /\
    acc_ev rd_sqr = RegRead ADC1_SQR1 b /\
    acc_ev wr_sqr = RegWrite ADC1_SQR1 (Z.lor b (Z.shiftl (wrap8 ch) 6)) /\
    acc_ev rd_isr = RegRead ADC1_ISR c /\
    acc_ev wr_isr = RegWrite ADC1_ISR (Z.lor c ADC_ISR_EOC) /\
    acc_ev rd_cr = RegRead ADC1_CR e /\
    acc_ev wr_cr = RegWrite ADC1_CR (Z.lor e ADC_CR_ADSTART) /\
    acc_pre wr_isr = acc_post rd_isr /\
    acc_post wr_isr = dev_write ADC1_ISR (Z.lor c ADC_ISR_EOC) (acc_pre wr_isr) /\
    acc_pre rd_cr = acc_post wr_isr /\
    acc_pre wr_cr = acc_post rd_cr.
Proof.
  cbn [replay start_events step].
  eexists [_; _; _], _, _, _, _, _, _. cbn [app].
  split; [reflexivity|].
  split; [repeat constructor|]. split; [repeat constructor|].
  cbn [acc_ev acc_pre acc_post]. repeat split.
Qed.

Lemma replay_Forall (Q : event -> Prop) es : forall d,
  Forall Q es -> Forall (fun x => Q (acc_ev x)) (replay d es).
Proof.
  induction es as [|x es IH]; intros d H; cbn [replay]; [constructor|].
  inversion H; subst. constructor; [assumption|]. now apply IH.
Qed.

Lemma lor_sets_bit i v : 0 <= i -> flag_set (2 ^ i) (Z.lor v (2 ^ i)).
Proof.
  intros Hi. apply single_bit_set; [exact Hi|].
  rewrite Z.lor_spec, Z.pow2_bits_true by lia. apply orb_true_r.
Qed.

(** C9. In every call of [adc_read] the status flags are acknowledged by
    a read of the status register followed by a write of the value read
    with the end-of-conversion bit set; this is the only write to the
    status register in the call.  The value written has a one wherever
    the value read had one, so on a write-one-to-clear register every
    flag that was read as set is clear after the write - the ready,
    end-of-sequence and overrun flags included, and not the
    end-of-conversion flag alone. *)
Theorem status_clear_writes_back_all_flags (fuel : nat) (ch : Z) (w : world D) :
  exists pre rd clr post c,
    added (adc_read fuel ch) w = pre ++ [rd; clr] ++ post /\
    acc_ev rd = RegRead ADC1_ISR c /\
    acc_ev clr = RegWrite ADC1_ISR (Z.lor c ADC_ISR_EOC) /\
    acc_pre clr = acc_post rd /\
    Forall (fun x => is_write_to ADC1_ISR (acc_ev x) = false) (pre ++ post) /\
    flag_set ADC_ISR_EOC (Z.lor c ADC_ISR_EOC) /\
    (forall i, Z.testbit c i = true ->
       Z.testbit (Z.lor c ADC_ISR_EOC) i = true /\
       Z.testbit (flags (acc_post clr)) i = false) /\
    (flag_set ADC_ISR_ADRDY c -> flag_clear ADC_ISR_ADRDY (flags (acc_post clr))) /\
    (flag_set ADC_ISR_EOS c -> flag_clear ADC_ISR_EOS (flags (acc_post clr))) /\
    (flag_set ADC_ISR_OVR c -> flag_clear ADC_ISR_OVR (flags (acc_post clr))) /\
    flag_clear ADC_ISR_EOC (flags (acc_post clr)).
Proof.
  destruct (adc_read_added fuel ch w)
    as (a & b & c & e & rest & _ & _ & _ & _ & Hadd & Hisr & _).
  destruct (start_events_added ch a b c e (hw w))
    as (pre & rd_sqr & wr_sqr & rd_isr & wr_isr & rd_cr & wr_cr & Hst & Hpre & _
        & Hrs & Hws & Hri & Hwi & Hrc & Hwc & Hchain & Hpost & _).
  exists (pre ++ [rd_sqr; wr_sqr]), rd_isr, wr_isr,
         ([rd_cr; wr_cr] ++ replay (final (hw w) (start_events ch a b c e)) rest), c.
  assert (Hall : forall i, Z.testbit c i = true ->
            Z.testbit (Z.lor c ADC_ISR_EOC) i = true /\
            Z.testbit (flags (acc_post wr_isr)) i = false).
  { intros i Hi.
    assert (Hw : Z.testbit (Z.lor c ADC_ISR_EOC) i = true)
      by (rewrite Z.lor_spec, Hi; reflexivity).
    split; [exact Hw|]. rewrite Hpost. apply write_one_to_clear, Hw. }
  assert (Hbit : forall i, 0 <= i -> flag_set (2 ^ i) c ->
            flag_clear (2 ^ i) (flags (acc_post wr_isr))).
  { intros i Hi Hs. apply single_bit_clear; [exact Hi|].
    apply Hall. apply single_bit_set; assumption. }
  split.
  { rewrite Hadd, Hst, <- !app_assoc. reflexivity. }
  repeat (split; [assumption|]).
  split.
  { rewrite <- app_assoc. apply Forall_app. split; [exact Hpre|].
    cbn [app]. constructor; [now rewrite Hrs|]. constructor; [now rewrite Hws|].
    constructor; [now rewrite Hrc|]. constructor; [now rewrite Hwc|].
    apply replay_Forall with (Q := fun x => is_write_to ADC1_ISR x = false).
    exact Hisr. }
  split; [apply (lor_sets_bit 2 c); lia|].
  split; [exact Hall|].
  split; [apply (Hbit 0); lia|].
  split; [apply (Hbit 3); lia|].
  split; [apply (Hbit 4); lia|].
  apply (single_bit_clear 2); [lia|]. rewrite Hpost.
  apply write_one_to_clear.
  apply (single_bit_set 2); [lia|]. apply (lor_sets_bit 2 c). lia.
Qed.

(** C2. In every call of [adc_read] the write that acknowledges the
    end-of-conversion flag comes before the write that sets the start
    bit, with nothing but the read of the control register between them;
    the start bit is written nowhere else in the call; and on a
    write-one-to-clear status register the flag is clear once it has
    been acknowledged, so that the start bit is set with no completion
    left over from an earlier call. *)
Theorem completion_flag_cleared_before_start (fuel : nat) (ch : Z) (w : world D) :
  exists pre clr rd start post c e,
    added (adc_read fuel ch) w = pre ++ [clr; rd; start] ++ post /\
    acc_ev clr = RegWrite ADC1_ISR (Z.lor c ADC_ISR_EOC) /\
    flag_set ADC_ISR_EOC (Z.lor c ADC_ISR_EOC) /\
    acc_ev rd = RegRead ADC1_CR e /\
    acc_ev start = RegWrite ADC1_CR (Z.lor e ADC_CR_ADSTART) /\
    flag_set ADC_CR_ADSTART (Z.lor e ADC_CR_ADSTART) /\
    Forall (fun x => is_write_to ADC1_CR (acc_ev x) = false) (pre ++ post) /\
    flag_clear ADC_ISR_EOC (flags (acc_post clr)) /\
    acc_pre rd = acc_post clr /\
    acc_pre start = acc_post rd.
Proof.
  destruct (adc_read_added fuel ch w)
    as (a & b & c & e & rest & _ & _ & _ & _ & Hadd & _ & Hcr).
  destruct (start_events_added ch a b c e (hw w))
    as (pre & rd_sqr & wr_sqr & rd_isr & wr_isr & rd_cr & wr_cr & Hst & _ & Hpre
        & Hrs & Hws & Hri & Hwi & Hrc & Hwc & _ & Hpost & Hc1 & Hc2).
  exists (pre ++ [rd_sqr; wr_sqr; rd_isr]), wr_isr, rd_cr, wr_cr,
         (replay (final (hw w) (start_events ch a b c e)) rest), c, e.
  split.
  { rewrite Hadd, Hst, <- !app_assoc. reflexivity. }
  split; [exact Hwi|].
  split; [apply (lor_sets_bit 2 c); lia|].
  split; [exact Hrc|]. split; [exact Hwc|].
  split; [apply (lor_sets_bit 2 e); lia|].
  split.
  { rewrite <- app_assoc. apply Forall_app. split; [exact Hpre|].
    cbn [app]. constructor; [now rewrite Hrs|]. constructor; [now rewrite Hws|].
    constructor; [now rewrite Hri|].
    apply replay_Forall with (Q := fun x => is_write_to ADC1_CR x = false).
    exact Hcr. }
  split; [|split; assumption].
  apply (single_bit_clear 2); [lia|]. rewrite Hpost.
  apply write_one_to_clear.
  apply (single_bit_set 2); [lia|]. apply (lor_sets_bit 2 c). lia.
Qed.

End StatusFlags.

(** The simulated status register is write-one-to-clear. *)
Lemma sim_write_one_to_clear v d i :
  Z.testbit v i = true ->
  Z.testbit (Sim.flags (dev_write ADC1_ISR v d)) i = false.
Proof.
  intros H. unfold Sim.flags. cbn.
  rewrite Z.ldiff_spec, H. apply andb_false_r.
Qed.

Lemma status_clear_writes_back_all_flags_witness :
  (forall v d i, Z.testbit v i = true ->
                 Z.testbit (Sim.flags (dev_write ADC1_ISR v d)) i = false) /\
  exists rd clr c,
    In rd (added (adc_read 10 ADC_CHANNEL) (sim_started 2048)) /\
    In clr (added (adc_read 10 ADC_CHANNEL) (sim_started 2048)) /\
    acc_ev rd = RegRead ADC1_ISR c /\
    acc_ev clr = RegWrite ADC1_ISR (Z.lor c ADC_ISR_EOC) /\
    flag_clear ADC_ISR_EOC (Sim.flags (acc_post clr)).
Proof.
  split; [exact sim_write_one_to_clear|].
  destruct (status_clear_writes_back_all_flags Sim.flags sim_write_one_to_clear
              10 ADC_CHANNEL (sim_started 2048))
    as (pre & rd & clr & post & c & Hadd & Hrd & Hclr & _ & _ & _ & _ & _ & _ & _ & H).
  exists rd, clr, c. rewrite Hadd.
  split; [apply in_or_app; right; left; reflexivity|].
  split; [apply in_or_app; right; right; left; reflexivity|].
  auto.
Defined.

Lemma completion_flag_cleared_before_start_witness :
  (forall v d i, Z.testbit v i = true ->
                 Z.testbit (Sim.flags (dev_write ADC1_ISR v d)) i = false) /\
  exists pre clr rd start post c e,
    added (adc_read 10 ADC_CHANNEL) (sim_started 2048)
    = pre ++ [clr; rd; start] ++ post /\
    acc_ev clr = RegWrite ADC1_ISR (Z.lor c ADC_ISR_EOC) /\
    acc_ev start = RegWrite ADC1_CR (Z.lor e ADC_CR_ADSTART) /\
    flag_clear ADC_ISR_EOC (Sim.flags (acc_post clr)).
Proof.
  split; [exact sim_write_one_to_clear|].
  destruct (completion_flag_cleared_before_start Sim.flags sim_write_one_to_clear
              10 ADC_CHANNEL (sim_started 2048))
    as (pre & clr & rd & start & post & c & e & Hadd & Hclr & _ & _ & Hst & _ & _ & H & _).
  exists pre, clr, rd, start, post, c, e. auto.
Defined.

Section Initialization.
Context {D : Type} {P : Peripheral D}.

Lemma bind_assoc {A B C} (m : M D A) (k : A -> M D B) (h : B -> M D C) w :
  bind (bind m k) h w = bind m (fun a => bind (k a) h) w.
Proof. unfold bind. destruct (m w) as [[a|] w']; reflexivity. Qed.

Lemma bind_ext {A B} (m : M D A) (k k' : A -> M D B) w :
  (forall a w', k a w' = k' a w') -> bind m k w = bind m k' w.
Proof. intros H. unfold bind. destruct (m w) as [[a|] w']; [apply H|reflexivity]. Qed.

Lemma bind_done {A B} (m : M D A) (k : A -> M D B) w a :
  fst (m w) = Done a -> bind m k w = k a (snd (m w)).
Proof. intros H. unfold bind. rewrite (run_pair m w), H. reflexivity. Qed.

Lemma bind_hang {A B} (m : M D A) (k : A -> M D B) w :
  fst (m w) = Hang -> bind m k w = (Hang, snd (m w)).
Proof. intros H. unfold bind. rewrite (run_pair m w), H. reflexivity. Qed.

Lemma settle_delay_run (w : world D) : settle_delay w = (Done tt, w).
Proof.
  unfold settle_delay.
  replace (delay_loop 1000 0 <? 1000) with false by (vm_compute; reflexivity).
  reflexivity.
Qed.

(** [adc_init] is the sequence of its stages. *)
Lemma adc_init_split fuel w :
  adc_init fuel w =
  (init_clock ;; init_disable fuel ;; init_regulator ;; init_calibrate fuel ;;
   init_configure ;; init_enable fuel) w.
Proof.
  unfold adc_init, init_clock, init_disable, init_regulator, init_calibrate,
    init_configure, init_enable.
  repeat first
    [ rewrite bind_assoc
    | apply bind_ext; intros ? ?
    | match goal with |- _ = bind (if ?c then _ else _) _ _ => destruct c end ].
  all: reflexivity.
Qed.

End Initialization.

(* ------------------------------------------------------------------ *)
(** ** A small program logic: the rules of [triple] *)

Section Logic.
Context {D : Type} {P : Peripheral D}.

Lemma scan_app (ok : @check D) p l1 l2 :
  scan ok p l1 -> (forall q, scan ok q l2) -> scan ok p (l1 ++ l2).
Proof.
  revert p. induction l1 as [|a l1 IH]; intros p H1 H2; cbn [app scan] in *.
  - apply H2.
  - destruct H1 as [Ha H1]. split; [exact Ha|]. now apply IH.
Qed.

Lemma scan_app_inv (ok : @check D) p l1 l2 : scan ok p (l1 ++ l2) -> scan ok p l1.
Proof.
  revert p. induction l1 as [|a l1 IH]; intros p H; cbn [app scan] in *; [exact I|].
  destruct H as [Ha H]. split; [exact Ha|]. now apply IH.
Qed.

Lemma scan_weaken (ok ok' : @check D) :
  (forall p a, ok p a -> ok' p a) ->
  forall tr p, scan ok p tr -> scan ok' p tr.
Proof.
  intros H tr. induction tr as [|a tr IH]; intros p Hs; cbn [scan] in *; [exact I|].
  destruct Hs. split; auto.
Qed.

Lemma added_nil {A} (m : M D A) w : snd (m w) = w -> added m w = [].
Proof. intros E. unfold added. rewrite E. apply skipn_all. Qed.

Lemma triple_ret {A} (ok : @check D) (Pre : D -> Prop) (a : A) (Post : A -> D -> Prop) :
  (forall d, Pre d -> Post a d) -> triple ok Pre (ret a) Post.
Proof.
  intros H. split; [apply faithful_extends, faithful_ret|].
  intros w Hw. split.
  - intros p. rewrite added_nil by reflexivity. exact I.
  - intros a' [= <-]. apply H, Hw.
Qed.

Lemma triple_bind {A B} (ok : @check D) Pre (m : M D A) Mid (k : A -> M D B) Post :
  triple ok Pre m Mid ->
  (forall a, triple ok (Mid a) (k a) Post) ->
  triple ok Pre (bind m k) Post.
Proof.
  intros [Em Hm] Hk.
  assert (Ek : forall a, extends (k a)) by (intros a; apply Hk).
  split.
  { intros w. rewrite (added_bind m k w Em Ek). unfold bind.
    pose proof (Em w) as Emw.
    destruct (m w) as [[a|] w'] eqn:E; cbn [fst snd] in *.
    - rewrite (Ek a w'), Emw, <- app_assoc. reflexivity.
    - rewrite app_nil_r. exact Emw. }
  intros w Hw. destruct (Hm w Hw) as [Hs Hp].
  rewrite (added_bind m k w Em Ek). unfold bind.
  destruct (m w) as [[a|] w'] eqn:E; cbn [fst snd] in *.
  - destruct (Hk a) as [_ Hka]. destruct (Hka w' (Hp a eq_refl)) as [Hs' Hp'].
    split; [|exact Hp']. intros p. apply scan_app; auto.
  - split; [|discriminate]. intros p. rewrite app_nil_r. apply Hs.
Qed.

Lemma triple_conseq {A} (ok : @check D) (Pre Pre' : D -> Prop) (m : M D A)
    (Post Post' : A -> D -> Prop) :
  triple ok Pre m Post ->
  (forall d, Pre' d -> Pre d) -> (forall a d, Post a d -> Post' a d) ->
  triple ok Pre' m Post'.
Proof.
  intros [E H] H1 H2. split; [exact E|]. intros w Hw.
  destruct (H w (H1 _ Hw)) as [Hs Hp]. split; [exact Hs|]. intros a Ha. auto.
Qed.

Lemma triple_if {A} (ok : @check D) Pre (c : bool) (m1 m2 : M D A) Post :
  (c = true -> triple ok Pre m1 Post) ->
  (c = false -> triple ok Pre m2 Post) ->
  triple ok Pre (if c then m1 else m2) Post.
Proof. destruct c; auto. Qed.

Lemma added_one {A} (m : M D A) w x :
  trace (snd (m w)) = trace w ++ [x] -> added m w = [x].
Proof. apply added_of_trace. Qed.

Lemma triple_reg_read (ok : @check D) (Pre : D -> Prop) r (Post : Z -> D -> Prop) :
  (forall d p, Pre d ->
     let v := wrap32 (fst (dev_read r d)) in
     let d1 := snd (dev_read r d) in
     ok p (Access d (RegRead r v) d1) /\ Post v d1) ->
  triple ok Pre (reg_read r) Post.
Proof.
  intros H. split; [apply faithful_extends, faithful_reg_read|].
  intros w Hw. split.
  - intros p. rewrite (added_one (reg_read r) w _ eq_refl). cbn [scan].
    split; [apply H, Hw|exact I].
  - intros a [= <-]. apply (H (hw w) None Hw).
Qed.

Lemma triple_rmw (ok : @check D) (Pre : D -> Prop) r f (Post : unit -> D -> Prop) :
  (forall d p, Pre d ->
     let v := wrap32 (fst (dev_read r d)) in
     let d1 := snd (dev_read r d) in
     let x := wrap32 (f v) in
     let d2 := dev_write r x d1 in
     ok p (Access d (RegRead r v) d1) /\
     ok (Some (RegRead r v)) (Access d1 (RegWrite r x) d2) /\
     Post tt d2) ->
  triple ok Pre (rmw r f) Post.
Proof.
  intros H. split.
  { apply faithful_extends. unfold rmw.
    apply faithful_bind; [apply faithful_reg_read|intros; apply faithful_reg_write]. }
  intros w Hw. destruct (H (hw w) None Hw) as (_ & _ & Hp). split.
  - intros p. destruct (H (hw w) p Hw) as (H1 & H2 & _).
    erewrite (added_of_trace (rmw r f) w).
    2:{ unfold rmw. run. flat. reflexivity. }
    cbn [scan acc_ev]. auto.
  - intros [] _. exact Hp.
Qed.

Lemma triple_reg_or (ok : @check D) Pre r m Post :
  (forall d p, Pre d ->
     let v := wrap32 (fst (dev_read r d)) in
     let d1 := snd (dev_read r d) in
     let x := wrap32 (Z.lor v m) in
     let d2 := dev_write r x d1 in
     ok p (Access d (RegRead r v) d1) /\
     ok (Some (RegRead r v)) (Access d1 (RegWrite r x) d2) /\
     Post tt d2) ->
  triple ok Pre (reg_or r m) Post.
Proof. apply (triple_rmw ok Pre r (fun v => Z.lor v m) Post). Qed.

Lemma triple_reg_and (ok : @check D) Pre r m Post :
  (forall d p, Pre d ->
     let v := wrap32 (fst (dev_read r d)) in
     let d1 := snd (dev_read r d) in
     let x := wrap32 (Z.land v m) in
     let d2 := dev_write r x d1 in
     ok p (Access d (RegRead r v) d1) /\
     ok (Some (RegRead r v)) (Access d1 (RegWrite r x) d2) /\
     Post tt d2) ->
  triple ok Pre (reg_and r m) Post.
Proof. apply (triple_rmw ok Pre r (fun v => Z.land v m) Post). Qed.

Lemma triple_platform (ok : @check D) (Pre : D -> Prop) e (Post : unit -> D -> Prop) :
  (forall d p, Pre d -> ok p (Access d e d) /\ Post tt d) ->
  triple ok Pre (platform e) Post.
Proof.
  intros H. split.
  { intros w. rewrite (added_one (platform e) w _ eq_refl). reflexivity. }
  intros w Hw. split.
  - intros p. rewrite (added_one (platform e) w _ eq_refl). cbn [scan].
    split; [apply H, Hw|exact I].
  - intros [] _. apply (H (hw w) None Hw).
Qed.

Lemma triple_digitalWrite (ok : @check D) (Pre : D -> Prop) pn l (Post : unit -> D -> Prop) :
  (forall d p, Pre d -> ok p (Access d (DigitalWrite pn l) d) /\ Post tt d) ->
  triple ok Pre (digitalWrite pn l) Post.
Proof.
  intros H. split; [apply faithful_extends, faithful_digitalWrite|].
  intros w Hw. split.
  - intros p. rewrite (added_one (digitalWrite pn l) w _ eq_refl). cbn [scan].
    split; [apply H, Hw|exact I].
  - intros [] _. apply (H (hw w) None Hw).
Qed.

Lemma triple_settle_delay (ok : @check D) (Pre : D -> Prop) :
  triple ok Pre settle_delay (fun _ => Pre).
Proof.
  split; [apply faithful_extends, faithful_settle_delay|].
  intros w Hw. split.
  - intros p. rewrite added_nil by (rewrite settle_delay_run; reflexivity). exact I.
  - intros [] _. rewrite settle_delay_run. exact Hw.
Qed.

(** The rule for a busy-wait: [Inv] holds whenever the loop is about to
    poll, and [Post] once a poll has passed the exit test. *)
Lemma triple_spin (ok : @check D) (Inv : D -> Prop) fuel r m b (Post : unit -> D -> Prop) :
  (forall d p, Inv d ->
     let v := wrap32 (fst (dev_read r d)) in
     let d1 := snd (dev_read r d) in
     ok p (Access d (RegRead r v) d1) /\
     (exits m b v = false -> Inv d1) /\
     (exits m b v = true -> Post tt d1)) ->
  triple ok Inv (spin fuel r m b) Post.
Proof.
  intros H. induction fuel as [|fuel IH].
  - split; [apply faithful_extends, faithful_spin|].
    intros w Hw. split; [|discriminate].
    intros p. rewrite added_nil by reflexivity. exact I.
  - cbn [spin].
    apply triple_bind with
      (Mid := fun v d => if exits m b v then Post tt d else Inv d).
    + apply triple_reg_read. intros d p Hd v d1.
      destruct (H d p Hd) as (H1 & H2 & H3). split; [exact H1|].
      fold v. destruct (exits m b v) eqn:E; auto.
    + intros v. fold (exits m b v). destruct (exits m b v) eqn:E.
      * apply triple_ret. auto.
      * exact IH.
Qed.

Lemma triple_ext {A} (ok : @check D) Pre (m m' : M D A) Post :
  (forall w, m w = m' w) -> triple ok Pre m Post -> triple ok Pre m' Post.
Proof.
  intros E [Hx H]. split.
  - intros w. unfold added. rewrite <- E. apply Hx.
  - intros w Hw. unfold added. rewrite <- E. apply (H w Hw).
Qed.

Lemma scan_any p (tr : list (access D)) : scan any_entry p tr.
Proof. revert p. induction tr; intros p; cbn [scan]; [exact I|]. split; [exact I|auto]. Qed.

Lemma triple_any {A} (m : M D A) :
  faithful m -> triple (D:=D) any_entry (fun _ => True) m (fun _ _ => True).
Proof.
  intros H. split; [apply faithful_extends, H|].
  intros w _. split; [intros p; apply scan_any|auto].
Qed.

Lemma triple_done {A} (ok : @check D) Pre (m : M D A) Post w a :
  triple ok Pre m Post -> Pre (hw w) -> fst (m w) = Done a ->
  Post a (hw (snd (m w))).
Proof. intros [_ H] Hw Ha. apply (H w Hw), Ha. Qed.

End Logic.

(* ------------------------------------------------------------------ *)
(** ** Bit fields *)

Lemma flag_clear_bits m v :
  flag_clear m v <-> forall n, 0 <= n -> Z.testbit v n && Z.testbit m n = false.
Proof.
  unfold flag_clear. split.
  - intros H n Hn. rewrite <- Z.land_spec, H. apply Z.bits_0.
  - intros H. apply Z.bits_inj'. intros n Hn.
    rewrite Z.land_spec, Z.bits_0. apply H, Hn.
Qed.

Lemma testbit_wrap32 x n : Z.testbit (wrap32 x) n = (n <? 32) && Z.testbit x n.
Proof. apply Z.testbit_mod_pow2. lia. Qed.

Lemma testbit_not32 m n :
  0 <= n -> Z.testbit (not32 m) n = (n <? 32) && negb (Z.testbit m n).
Proof. intros Hn. unfold not32. now rewrite testbit_wrap32, Z.lnot_spec. Qed.

(** [r &= ~m] leaves the bits of [m] clear. *)
Lemma clear_after_mask v m : flag_clear m (wrap32 (Z.land v (not32 m))).
Proof.
  apply flag_clear_bits. intros n Hn.
  rewrite testbit_wrap32, Z.land_spec, testbit_not32 by lia.
  destruct (n <? 32), (Z.testbit v n), (Z.testbit m n); reflexivity.
Qed.

(** Bits that are clear stay clear under a further [&=]. *)
Lemma clear_kept_land x k m :
  flag_clear m x -> flag_clear m (wrap32 (Z.land (wrap32 x) k)).
Proof.
  intros H. apply flag_clear_bits. intros n Hn.
  pose proof (proj1 (flag_clear_bits m x) H n Hn) as Hx.
  rewrite testbit_wrap32, Z.land_spec, testbit_wrap32.
  destruct (n <? 32), (Z.testbit x n), (Z.testbit m n), (Z.testbit k n);
    simpl in *; congruence.
Qed.

(** ... and under a [|=] with a value that has them clear. *)
Lemma clear_kept_lor x k m :
  flag_clear m x -> flag_clear m k -> flag_clear m (wrap32 (Z.lor (wrap32 x) k)).
Proof.
  intros H Hk. apply flag_clear_bits. intros n Hn.
  pose proof (proj1 (flag_clear_bits m x) H n Hn) as Hx.
  pose proof (proj1 (flag_clear_bits m k) Hk n Hn) as Hkn.
  rewrite testbit_wrap32, Z.lor_spec, testbit_wrap32.
  destruct (n <? 32), (Z.testbit x n), (Z.testbit m n), (Z.testbit k n);
    simpl in *; congruence.
Qed.

(** A field of [k] bits at position [s] whose mask is clear reads zero. *)
Lemma field_zero k s v :
  0 <= k -> 0 <= s ->
  flag_clear (Z.shiftl (Z.ones k) s) v -> Z.land (Z.shiftr v s) (Z.ones k) = 0.
Proof.
  intros Hk Hs H. apply Z.bits_inj'. intros n Hn.
  pose proof (proj1 (flag_clear_bits _ v) H (n + s) ltac:(lia)) as Hb.
  rewrite Z.shiftl_spec in Hb by lia.
  replace (n + s - s) with n in Hb by lia.
  rewrite Z.land_spec, Z.shiftr_spec, Z.bits_0 by lia. exact Hb.
Qed.

(** A value shifted left by [s] has its low [s] bits clear. *)
Lemma shifted_low_clear c s k :
  0 <= k <= s -> flag_clear (Z.ones k) (Z.shiftl c s).
Proof.
  intros Hks. apply flag_clear_bits. intros n Hn.
  rewrite Z.shiftl_spec by lia. rewrite Z.testbit_ones_nonneg by lia.
  destruct (Z.ltb_spec n k); [|apply andb_false_r].
  rewrite Z.testbit_neg_r by lia. reflexivity.
Qed.

(** Writing [c] into a cleared field of [k] bits at position [s]. *)
Lemma field_written k s x c :
  0 <= k -> 0 <= s -> s + k <= 32 -> 0 <= c < 2 ^ k ->
  flag_clear (Z.shiftl (Z.ones k) s) x ->
  Z.land (Z.shiftr (wrap32 (Z.lor (wrap32 x) (Z.shiftl c s))) s) (Z.ones k) = c.
Proof.
  intros Hk Hs Hsk Hc H. apply Z.bits_inj'. intros n Hn.
  pose proof (proj1 (flag_clear_bits _ x) H (n + s) ltac:(lia)) as Hb.
  rewrite Z.shiftl_spec in Hb by lia.
  replace (n + s - s) with n in Hb by lia.
  rewrite Z.testbit_ones_nonneg in Hb by lia.
  rewrite Z.land_spec, Z.shiftr_spec, testbit_wrap32, Z.lor_spec, testbit_wrap32,
    Z.shiftl_spec by lia.
  replace (n + s - s) with n by lia.
  rewrite Z.testbit_ones_nonneg by lia.
  destruct (Z.ltb_spec n k) as [Hlt|Hge].
  - replace (n + s <? 32) with true by (symmetry; apply Z.ltb_lt; lia).
    rewrite andb_true_r in Hb. rewrite Hb. simpl.
    now rewrite andb_true_r.
  - rewrite andb_false_r. symmetry.
    apply (proj1 (below_pow2_bits k c Hk (proj1 Hc)) (proj2 Hc)). lia.
Qed.

(* ------------------------------------------------------------------ *)
(** ** Configuration registers *)

Section PlainRegisters.
Context {D : Type} {P : Peripheral D}.

(** The configuration registers are plain storage: a read returns the
    content and changes no content, a write replaces the content of the
    register written and of no other. *)
Variable value : reg -> D -> Z.
Hypothesis read_value :
  forall r d, config_reg r = true -> fst (dev_read r d) = value r d.
Hypothesis read_keeps :
  forall r q d, config_reg q = true -> value q (snd (dev_read r d)) = value q d.
Hypothesis write_sets :
  forall r v d, config_reg r = true -> value r (dev_write r v d) = v.
Hypothesis write_keeps :
  forall r q v d, config_reg q = true -> r <> q ->
                  value q (dev_write r v d) = value q d.

Lemma step_reg_and r m (Pre Post : D -> Prop) :
  (forall d, Pre d ->
     Post (dev_write r (wrap32 (Z.land (wrap32 (fst (dev_read r d))) m))
                     (snd (dev_read r d)))) ->
  triple (D:=D) any_entry Pre (reg_and r m) (fun _ => Post).
Proof.
  intros H. apply triple_reg_and. intros d p Hd. cbv zeta.
  split; [exact I|]. split; [exact I|]. apply H, Hd.
Qed.

Lemma step_reg_or r m (Pre Post : D -> Prop) :
  (forall d, Pre d ->
     Post (dev_write r (wrap32 (Z.lor (wrap32 (fst (dev_read r d))) m))
                     (snd (dev_read r d)))) ->
  triple (D:=D) any_entry Pre (reg_or r m) (fun _ => Post).
Proof.
  intros H. apply triple_reg_or. intros d p Hd. cbv zeta.
  split; [exact I|]. split; [exact I|]. apply H, Hd.
Qed.

Lemma step_spin fuel r m b (Inv : D -> Prop) :
  (forall d, Inv d -> Inv (snd (dev_read r d))) ->
  triple (D:=D) any_entry Inv (spin fuel r m b) (fun _ => Inv).
Proof.
  intros H. apply triple_spin. intros d p Hd. cbv zeta.
  split; [exact I|]. split; intros _; apply H, Hd.
Qed.

Lemma step_digitalWrite pn l (Inv : D -> Prop) :
  triple (D:=D) any_entry Inv (digitalWrite pn l) (fun _ => Inv).
Proof. apply triple_digitalWrite. intros d p Hd. split; [exact I|exact Hd]. Qed.

Ltac plain :=
  repeat first
    [ rewrite write_sets by reflexivity
    | rewrite write_keeps by (reflexivity || discriminate)
    | rewrite read_keeps by reflexivity
    | rewrite read_value by reflexivity ].

Lemma fields_clear_configured d : (fields_clear value) d -> (configured value) d.
Proof.
  intros (Hc & Hr & Hs & Hl). repeat split.
  - apply (single_bit_clear 13); [lia|exact Hc].
  - unfold cfgr_resolution.
    pose proof (field_zero 2 3 _ ltac:(lia) ltac:(lia) Hr) as E.
    change (Z.ones 2) with 3 in E. rewrite E. reflexivity.
  - unfold smpr1_smp.
    exact (field_zero 3 15 _ ltac:(lia) ltac:(lia) Hs).
  - unfold sqr1_entries, sqr1_length. unfold flag_clear in Hl. rewrite Hl. reflexivity.
Qed.

Lemma init_configure_sets :
  triple (D:=D) any_entry (fun _ => True) init_configure (fun _ => (fields_clear value)).
Proof.
  unfold init_configure, fields_clear.
  apply triple_bind with
    (Mid := fun _ d => flag_clear ADC_CFGR_CONT (value ADC1_CFGR d)).
  { apply step_reg_and. intros d _. plain. apply clear_after_mask. }
  intros _. apply triple_bind with
    (Mid := fun _ d => flag_clear ADC_CFGR_CONT (value ADC1_CFGR d) /\
                       flag_clear ADC_CFGR_RES (value ADC1_CFGR d)).
  { apply step_reg_and. intros d H. plain.
    split; [apply clear_kept_land, H|apply clear_after_mask]. }
  intros _. apply triple_bind with
    (Mid := fun _ d => flag_clear ADC_CFGR_CONT (value ADC1_CFGR d) /\
                       flag_clear ADC_CFGR_RES (value ADC1_CFGR d) /\
                       flag_clear (Z.shiftl 7 (ADC_CHANNEL * 3)) (value ADC1_SMPR1 d)).
  { apply step_reg_and. intros d [H1 H2]. plain.
    split; [exact H1|]. split; [exact H2|]. apply clear_after_mask. }
  intros _. apply triple_bind with
    (Mid := fun _ d => flag_clear ADC_CFGR_CONT (value ADC1_CFGR d) /\
                       flag_clear ADC_CFGR_RES (value ADC1_CFGR d) /\
                       flag_clear (Z.shiftl 7 (ADC_CHANNEL * 3)) (value ADC1_SMPR1 d)).
  { apply step_reg_or. intros d (H1 & H2 & H3). plain.
    split; [exact H1|]. split; [exact H2|].
    apply clear_kept_lor; [exact H3|reflexivity]. }
  intros _. apply step_reg_and. intros d (H1 & H2 & H3). plain.
  split; [exact H1|]. split; [exact H2|]. split; [exact H3|].
  apply clear_after_mask.
Qed.

Lemma fields_clear_config_only : config_only (fields_clear value).
Proof.
  unfold fields_clear. split.
  - intros r d H. plain. exact H.
  - intros r v d Hr H.
    rewrite !(write_keeps r) by (reflexivity || (intros ->; discriminate)).
    exact H.
Qed.

Lemma init_enable_keeps fuel Q :
  config_only Q -> triple (D:=D) any_entry Q (init_enable fuel) (fun _ => Q).
Proof.
  intros [Hr Hw]. unfold init_enable, wait_until.
  apply triple_bind with (Mid := fun _ => Q).
  - apply step_reg_or. intros d Hd. apply Hw; [reflexivity|]. apply Hr, Hd.
  - intros _. apply step_spin. intros d Hd. apply Hr, Hd.
Qed.

Lemma adc_init_clears_fields fuel :
  triple (D:=D) any_entry (fun _ => True) (adc_init fuel) (fun _ => (fields_clear value)).
Proof.
  apply triple_ext with
    (m := (init_clock ;; init_disable fuel ;; init_regulator ;;
           init_calibrate fuel) ;; init_configure ;; init_enable fuel).
  { intros w. rewrite adc_init_split, !bind_assoc.
    repeat (apply bind_ext; intros ? ?; rewrite ?bind_assoc). reflexivity. }
  apply triple_bind with (Mid := fun _ _ => True).
  { apply triple_any. unfold init_clock, init_disable, init_regulator,
      init_calibrate, reg_or, reg_and, wait_while. faithful_tac. }
  intros _. apply triple_bind with (Mid := fun _ => (fields_clear value)).
  - apply init_configure_sets.
  - intros _. apply init_enable_keeps, fields_clear_config_only.
Qed.

(** *** The sequence register across conversions *)

Lemma last_default (l l' : list Z) a b :
  l <> [] -> last l' b = last l b -> last l a = last l' b.
Proof.
  intros Hne ->. clear l'. induction l as [|x l IH]; [congruence|].
  destruct l as [|y l]; [reflexivity|]. cbn [last] in *. apply IH. discriminate.
Qed.

Lemma keep_reg_or r m Q :
  config_only Q -> config_reg r = false ->
  triple (D:=D) any_entry Q (reg_or r m) (fun _ => Q).
Proof.
  intros [Hr Hw] Hc. apply step_reg_or. intros d Hd.
  apply Hw; [exact Hc|]. apply Hr, Hd.
Qed.

Lemma keep_reg_read r Q :
  config_only Q -> triple (D:=D) any_entry Q (reg_read r) (fun _ => Q).
Proof.
  intros [Hr _]. apply triple_reg_read. intros d p Hd. cbv zeta.
  split; [exact I|]. apply Hr, Hd.
Qed.

Lemma selected_config_only ch : config_only ((selected value) ch).
Proof.
  unfold selected. split.
  - intros r d H. plain. exact H.
  - intros r v d Hr H.
    rewrite !(write_keeps r) by (reflexivity || (intros ->; discriminate)).
    exact H.
Qed.

Lemma adc_read_selects fuel ch :
  0 <= ch < 2 ^ 5 ->
  triple (D:=D) any_entry (fun d => flag_clear ADC_SQR1_L (value ADC1_SQR1 d))
    (adc_read fuel ch) (fun _ => (selected value) ch).
Proof.
  intros Hch. unfold adc_read.
  pose proof (selected_config_only ch) as Hk.
  apply triple_bind with
    (Mid := fun _ d => flag_clear ADC_SQR1_L (value ADC1_SQR1 d)).
  { apply step_digitalWrite. }
  intros _. apply triple_bind with
    (Mid := fun _ d => flag_clear ADC_SQR1_L (value ADC1_SQR1 d) /\
                       flag_clear (Z.shiftl 0x1F 6) (value ADC1_SQR1 d)).
  { apply step_reg_and. intros d H. plain.
    split; [apply clear_kept_land, H|apply clear_after_mask]. }
  intros _. apply triple_bind with (Mid := fun _ => (selected value) ch).
  { apply step_reg_or. intros d [H1 H2]. unfold selected. plain. split.
    - apply clear_kept_lor; [exact H1|].
      apply (shifted_low_clear (wrap8 ch) 6 4). lia.
    - rewrite wrap8_small by (change (2 ^ 5) with 32 in Hch; change (2 ^ 8) with 256; lia).
      apply (field_written 5 6); try lia. exact H2. }
  intros _. apply triple_bind with (Mid := fun _ => (selected value) ch).
  { apply keep_reg_or; [exact Hk|reflexivity]. }
  intros _. apply triple_bind with (Mid := fun _ => (selected value) ch).
  { apply keep_reg_or; [exact Hk|reflexivity]. }
  intros _. apply triple_bind with (Mid := fun _ => (selected value) ch).
  { apply step_spin. intros d Hd. apply Hk, Hd. }
  intros _. apply triple_bind with (Mid := fun _ => (selected value) ch).
  { apply step_digitalWrite. }
  intros _. apply triple_bind with (Mid := fun _ => (selected value) ch).
  { apply keep_reg_read, Hk. }
  intros dr. apply triple_ret. auto.
Qed.

Lemma faithful_convert_each fuel chs : faithful (convert_each fuel chs).
Proof.
  induction chs as [|c chs IH]; cbn [convert_each]; [apply faithful_ret|].
  apply faithful_bind; [apply faithful_adc_read|intros _; exact IH].
Qed.

Lemma convert_each_selects fuel chs : forall c0,
  Forall (fun c => 0 <= c < 2 ^ 5) chs ->
  triple (D:=D) any_entry ((selected value) c0) (convert_each fuel chs)
    (fun _ => (selected value) (last chs c0)).
Proof.
  induction chs as [|c chs IH]; intros c0 Hall.
  - apply triple_ret. auto.
  - inversion Hall as [|? ? Hc Hrest]; subst. cbn [convert_each].
    apply triple_bind with (Mid := fun _ => (selected value) c).
    + eapply triple_conseq; [apply adc_read_selects, Hc| |auto].
      intros d [H _]. exact H.
    + intros _. eapply triple_conseq; [apply (IH c Hrest)|auto|].
      intros a d H. destruct chs as [|z chs]; [exact H|].
      rewrite (last_default (z :: chs) (c :: z :: chs) c c0) in H; [exact H|discriminate|reflexivity].
Qed.

(** C3. After [adc_init] and then any number of [adc_read] calls, on
    whatever channels that fit the five-bit entry field of the sequence
    register (as the channel numbers 0..18 of the converter do), the
    regular sequence still has exactly one entry, and that entry is the
    channel of the latest call. *)
Theorem sequence_stays_single_entry (fuel : nat) (channels : list Z) (w : world D) :
  Forall (fun c => 0 <= c < 2 ^ 5) channels ->
  fst ((adc_init fuel ;; convert_each fuel channels) w) = Done tt ->
  let d := hw (snd ((adc_init fuel ;; convert_each fuel channels) w)) in
  sqr1_entries (value ADC1_SQR1 d) = 1 /\
  (channels <> [] -> sqr1_sq1 (value ADC1_SQR1 d) = last channels 0).
Proof.
  intros Hall Hdone d.
  assert (T : triple (D:=D) any_entry (fun _ => True)
                (adc_init fuel ;; convert_each fuel channels)
                (fun _ d => flag_clear ADC_SQR1_L (value ADC1_SQR1 d) /\
                            (channels <> [] ->
                             sqr1_sq1 (value ADC1_SQR1 d) = last channels 0))).
  { apply triple_bind with (Mid := fun _ => (fields_clear value)).
    { apply adc_init_clears_fields. }
    intros _. split.
    { apply faithful_extends, faithful_convert_each. }
    intros w0 (_ & _ & _ & Hl).
    destruct (convert_each_selects fuel channels (sqr1_sq1 (value ADC1_SQR1 (hw w0))) Hall)
      as [_ H].
    destruct (H w0 (conj Hl eq_refl)) as [Hs Hp].
    split; [exact Hs|]. intros a Ha. destruct (Hp a Ha) as [H1 H2].
    split; [exact H1|]. intros Hne. rewrite H2.
    apply (last_default channels channels); [exact Hne|reflexivity]. }
  destruct (triple_done any_entry _ _ _ w tt T I Hdone) as [Hl Hs].
  split; [|exact Hs].
  unfold sqr1_entries, sqr1_length, d. unfold flag_clear in Hl. rewrite Hl. reflexivity.
Qed.

End PlainRegisters.

(* ------------------------------------------------------------------ *)
(** ** The simulated converter obeys the register laws *)

Lemma sim_tick_config r m :
  config_reg r = true -> Sim.regs (Sim.tick m) r = Sim.regs m r.
Proof.
  intros Hr. unfold Sim.tick.
  destruct (Sim.busy m) as [|[|k]]; try reflexivity.
  unfold Sim.complete. cbn [Sim.regs Sim.set_busy].
  repeat match goal with
  | |- context [if ?c then _ else _] => destruct c
  end; cbn [Sim.regs Sim.set_regs]; unfold Sim.upd;
    destruct r; try discriminate; reflexivity.
Qed.

Lemma sim_read_value r d :
  config_reg r = true -> fst (dev_read r d) = Sim.value r d.
Proof. intros Hr. cbn. apply sim_tick_config, Hr. Qed.

Lemma sim_read_keeps r q d :
  config_reg q = true -> Sim.value q (snd (dev_read r d)) = Sim.value q d.
Proof. intros Hq. cbn. apply sim_tick_config, Hq. Qed.

Lemma sim_write_sets r v d :
  config_reg r = true -> Sim.value r (dev_write r v d) = v.
Proof. intros Hr. destruct r; try discriminate; reflexivity. Qed.

Lemma sim_write_keeps r q v d :
  config_reg q = true -> r <> q -> Sim.value q (dev_write r v d) = Sim.value q d.
Proof.
  intros Hq Hne. unfold Sim.value.
  destruct r; cbn [dev_write Sim.peripheral Sim.write];
    try (cbn [Sim.regs Sim.set_regs]; unfold Sim.upd;
         destruct q; try discriminate; try reflexivity; congruence).
  - unfold Sim.write_cr, Sim.start.
    repeat match goal with
    | |- context [if ?c then _ else _] => destruct c
    end; cbn [Sim.regs Sim.set_regs Sim.set_busy]; unfold Sim.upd;
      destruct q; try discriminate; reflexivity.
Qed.

Lemma sequence_stays_single_entry_witness :
  Forall (fun c => 0 <= c < 2 ^ 5) [5; 7; 3] /\
  fst ((adc_init 10 ;; convert_each 10 [5; 7; 3])
         (boot (Sim.reset 2 (fun _ => 2048)))) = Done tt /\
  let d := hw (snd ((adc_init 10 ;; convert_each 10 [5; 7; 3])
                      (boot (Sim.reset 2 (fun _ => 2048))))) in
  sqr1_entries (Sim.value ADC1_SQR1 d) = 1 /\
  (([5; 7; 3] : list Z) <> [] -> sqr1_sq1 (Sim.value ADC1_SQR1 d) = last [5; 7; 3] 0).
Proof.
  assert (Hc : Forall (fun c => 0 <= c < 2 ^ 5) [5; 7; 3])
    by (repeat constructor; lia).
  assert (H : fst ((adc_init 10 ;; convert_each 10 [5; 7; 3])
                     (boot (Sim.reset 2 (fun _ => 2048)))) = Done tt)
    by (vm_compute; reflexivity).
  split; [exact Hc|]. split; [exact H|].
  exact (sequence_stays_single_entry Sim.value sim_read_value sim_read_keeps
           sim_write_sets sim_write_keeps 10 [5; 7; 3] _ Hc H).
Defined.

(* ------------------------------------------------------------------ *)
(** ** Calibration happens on a disabled converter *)

Lemma scan_at {D} (ok : option event -> access D -> Prop) pre a b post p :
  scan ok p (pre ++ a :: b :: post) -> ok (Some (acc_ev a)) b.
Proof.
  revert p. induction pre as [|x pre IH]; intros p H; cbn [app scan] in H.
  - apply H.
  - apply (IH _ (proj2 H)).
Qed.

Lemma testbit_wrap32_low x n : 0 <= n < 32 -> Z.testbit (wrap32 x) n = Z.testbit x n.
Proof.
  intros Hn. rewrite testbit_wrap32.
  replace (n <? 32) with true by (symmetry; apply Z.ltb_lt; lia). reflexivity.
Qed.

Lemma flag_clear_aden v : flag_clear ADC_CR_ADEN v <-> Z.testbit v 0 = false.
Proof. apply (single_bit_clear 0). lia. Qed.

Section EnableFlag.
Context {D : Type} {P : Peripheral D}.

(** [enabled] tells whether the converter is enabled.  A read of the
    control register reports it in bit 0; the converter never becomes
    enabled by itself; it can become enabled only by a write to the
    control register with bit 0 set. *)
Variable enabled : D -> bool.
Hypothesis read_reports :
  forall d, Z.testbit (wrap32 (fst (dev_read ADC1_CR d))) 0
            = enabled (snd (dev_read ADC1_CR d)).
Hypothesis read_never_enables :
  forall r d, enabled d = false -> enabled (snd (dev_read r d)) = false.
Hypothesis write_enables_on_request :
  forall r v d, enabled d = false -> r <> ADC1_CR \/ Z.testbit v 0 = false ->
                enabled (dev_write r v d) = false.

Lemma guard_read p d r v d1 :
  (calibration_guard enabled) p (Access d (RegRead r v) d1).
Proof.
  unfold calibration_guard. cbn [acc_ev].
  destruct p as [[q ?| | | | | | |]|]; try exact I. destruct q; exact I.
Qed.

Lemma guard_other_write p d r x d1 :
  r <> ADC1_CR -> (calibration_guard enabled) p (Access d (RegWrite r x) d1).
Proof.
  intros Hr. unfold calibration_guard. cbn [acc_ev].
  destruct p as [[q ?| | | | | | |]|]; try exact I.
  destruct q; try exact I. destruct r; try exact I. congruence.
Qed.

(** A compound assignment to a register other than the control register. *)
Lemma guard_rmw_other r f (Pre : D -> Prop) :
  r <> ADC1_CR ->
  (forall d, Pre d -> Pre (dev_write r (wrap32 (f (wrap32 (fst (dev_read r d)))))
                                     (snd (dev_read r d)))) ->
  triple (calibration_guard enabled) Pre (rmw r f) (fun _ => Pre).
Proof.
  intros Hr H. apply triple_rmw. intros d p Hd. cbv zeta.
  split; [apply guard_read|]. split; [apply guard_other_write, Hr|]. apply H, Hd.
Qed.

Lemma disabled_kept_other r x d :
  r <> ADC1_CR -> (disabled enabled) d -> (disabled enabled) (dev_write r x (snd (dev_read r d))).
Proof.
  intros Hr Hd. apply write_enables_on_request; [|left; exact Hr].
  apply read_never_enables, Hd.
Qed.

(** A compound assignment to the control register that changes neither
    bit 0 nor bit 31. *)
Lemma guard_rmw_cr f (keep : bool) :
  (forall v, Z.testbit (f v) 31 = Z.testbit v 31) ->
  (keep = true -> forall v, Z.testbit (f v) 0 = Z.testbit v 0) ->
  triple (calibration_guard enabled) (fun d => if keep then (disabled enabled) d else True)
    (rmw ADC1_CR f) (fun _ d => if keep then (disabled enabled) d else True).
Proof.
  intros H31 H0. apply triple_rmw. intros d p Hd. cbv zeta.
  split; [apply guard_read|]. split.
  - unfold calibration_guard. cbn [acc_ev]. intros Hx Hv.
    rewrite testbit_wrap32_low, H31 in Hx by lia. congruence.
  - destruct keep; [|exact I].
    apply write_enables_on_request; [apply read_never_enables, Hd|].
    right. rewrite testbit_wrap32_low, (H0 eq_refl), read_reports by lia.
    apply read_never_enables, Hd.
Qed.

Lemma guard_spin fuel r m b (Inv : D -> Prop) (Post : D -> Prop) :
  (forall d, Inv d ->
     (exits m b (wrap32 (fst (dev_read r d))) = false -> Inv (snd (dev_read r d))) /\
     (exits m b (wrap32 (fst (dev_read r d))) = true -> Post (snd (dev_read r d)))) ->
  triple (calibration_guard enabled) Inv (spin fuel r m b) (fun _ => Post).
Proof.
  intros H. apply triple_spin. intros d p Hd. cbv zeta.
  split; [apply guard_read|]. apply H, Hd.
Qed.

Lemma init_clock_guarded :
  triple (calibration_guard enabled) (fun _ => True) init_clock (fun _ _ => True).
Proof.
  unfold init_clock.
  repeat (apply triple_bind with (Mid := fun _ _ => True); [|intros _]);
    apply (guard_rmw_other _ _ (fun _ => True)); auto; discriminate.
Qed.

Lemma init_configure_guarded :
  triple (calibration_guard enabled) (fun _ => True) init_configure (fun _ _ => True).
Proof.
  unfold init_configure.
  repeat (apply triple_bind with (Mid := fun _ _ => True); [|intros _]);
    apply (guard_rmw_other _ _ (fun _ => True)); auto; discriminate.
Qed.

Lemma lor_bit v m i : Z.testbit m i = false -> Z.testbit (Z.lor v m) i = Z.testbit v i.
Proof. intros H. rewrite Z.lor_spec, H. apply orb_false_r. Qed.

Lemma land_bit v m i : Z.testbit m i = true -> Z.testbit (Z.land v m) i = Z.testbit v i.
Proof. intros H. rewrite Z.land_spec, H. apply andb_true_r. Qed.

Lemma init_disable_guarded fuel :
  triple (calibration_guard enabled) (fun _ => True) (init_disable fuel) (fun _ => (disabled enabled)).
Proof.
  unfold init_disable.
  apply triple_bind with (Mid := fun cr d => Z.testbit cr 0 = enabled d).
  { apply triple_reg_read. intros d p _. cbv zeta.
    split; [apply guard_read|apply read_reports]. }
  intros cr. apply triple_if; intros Hc.
  - apply triple_bind with (Mid := fun _ _ => True).
    + eapply triple_conseq.
      * apply (guard_rmw_cr (fun v => Z.lor v ADC_CR_ADDIS) false);
          [intros v; apply lor_bit; reflexivity|discriminate].
      * intros; exact I.
      * intros; exact I.
    + intros _. unfold wait_while. apply guard_spin. intros d _. split; [auto|].
      intros Hx. apply exits_clear_true, flag_clear_aden in Hx.
      unfold disabled. rewrite <- read_reports. exact Hx.
  - apply triple_ret. intros d Hd. unfold disabled. rewrite <- Hd.
    apply flag_clear_aden. unfold flag_clear.
    apply negb_false_iff, Z.eqb_eq in Hc. exact Hc.
Qed.

Lemma init_regulator_guarded :
  triple (calibration_guard enabled) (disabled enabled) init_regulator (fun _ => (disabled enabled)).
Proof.
  unfold init_regulator.
  apply triple_bind with (Mid := fun _ => (disabled enabled)).
  { apply (guard_rmw_cr (fun v => Z.land v (not32 ADC_CR_DEEPPWD)) true);
      intros; apply land_bit; reflexivity. }
  intros _. apply triple_bind with (Mid := fun _ => (disabled enabled)).
  { apply (guard_rmw_cr (fun v => Z.lor v ADC_CR_ADVREGEN) true);
      intros; apply lor_bit; reflexivity. }
  intros _. apply triple_settle_delay.
Qed.

Lemma init_calibrate_guarded fuel :
  triple (calibration_guard enabled) (disabled enabled) (init_calibrate fuel) (fun _ _ => True).
Proof.
  unfold init_calibrate.
  apply triple_bind with (Mid := fun _ _ => True).
  - apply triple_rmw. intros d p Hd. cbv zeta.
    split; [apply guard_read|]. split; [|exact I].
    unfold calibration_guard. cbn [acc_ev acc_pre]. intros _ _.
    apply read_never_enables, Hd.
  - intros _. unfold wait_while. apply guard_spin. auto.
Qed.

Lemma init_enable_guarded fuel :
  triple (calibration_guard enabled) (fun _ => True) (init_enable fuel) (fun _ _ => True).
Proof.
  unfold init_enable.
  apply triple_bind with (Mid := fun _ _ => True).
  - apply (guard_rmw_cr (fun v => Z.lor v ADC_CR_ADEN) false);
      [intros v; apply lor_bit; reflexivity|discriminate].
  - intros _. unfold wait_until. apply guard_spin. auto.
Qed.

Lemma adc_init_guarded fuel :
  triple (calibration_guard enabled) (fun _ => True) (adc_init fuel) (fun _ _ => True).
Proof.
  apply triple_ext with
    (m := init_clock ;; init_disable fuel ;; init_regulator ;;
          init_calibrate fuel ;; init_configure ;; init_enable fuel).
  { intros w. symmetry. apply adc_init_split. }
  apply triple_bind with (Mid := fun _ _ => True); [apply init_clock_guarded|].
  intros _. apply triple_bind with (Mid := fun _ => (disabled enabled));
    [apply init_disable_guarded|].
  intros _. apply triple_bind with (Mid := fun _ => (disabled enabled));
    [apply init_regulator_guarded|].
  intros _. apply triple_bind with (Mid := fun _ _ => True);
    [apply init_calibrate_guarded|].
  intros _. apply triple_bind with (Mid := fun _ _ => True);
    [apply init_configure_guarded|].
  intros _. apply init_enable_guarded.
Qed.

End EnableFlag.

(* ------------------------------------------------------------------ *)
(** ** The events of [adc_init] up to the start of calibration *)

Section InitEvents.
Context {D : Type} {P : Peripheral D}.

Lemma added_events_of {A} (m : M D A) w l :
  events (snd (m w)) = events w ++ l -> added_events m w = l.
Proof.
  intros H. unfold added_events, added. unfold events in H.
  rewrite <- (length_map acc_ev (trace w)), <- skipn_map, H.
  apply skipn_app_exact.
Qed.

Lemma faithful_init_clock : faithful (init_clock (D:=D)).
Proof. unfold init_clock, reg_or, reg_and. faithful_tac. Qed.

Lemma faithful_init_disable fuel : faithful (init_disable (D:=D) fuel).
Proof. unfold init_disable, reg_or, wait_while. faithful_tac. Qed.

Lemma faithful_init_regulator : faithful (init_regulator (D:=D)).
Proof. unfold init_regulator, reg_or, reg_and. faithful_tac. Qed.

Lemma faithful_init_calibrate fuel : faithful (init_calibrate (D:=D) fuel).
Proof. unfold init_calibrate, reg_or, wait_while. faithful_tac. Qed.

Lemma faithful_init_configure : faithful (init_configure (D:=D)).
Proof. unfold init_configure, reg_or, reg_and. faithful_tac. Qed.

Lemma faithful_init_enable fuel : faithful (init_enable (D:=D) fuel).
Proof. unfold init_enable, reg_or, wait_until. faithful_tac. Qed.

Lemma init_clock_done (w : world D) : fst (init_clock w) = Done tt.
Proof. reflexivity. Qed.

Lemma init_clock_events (w : world D) :
  length (added_events init_clock w) = 8%nat /\
  Forall (fun e => touches ADC1_CR e = false) (added_events init_clock w).
Proof.
  unfold added_events, added, init_clock. run. flat. rewrite skipn_app_exact.
  cbn [map acc_ev length]. split; [reflexivity|repeat constructor].
Qed.

Lemma init_disable_events fuel (w : world D) :
  exists done,
    disable_events (added_events (init_disable fuel) w) done /\
    fst (init_disable fuel w) = (if done then Done tt else Hang).
Proof.
  set (v0 := peek ADC1_CR w).
  set (w1 := snd (reg_read ADC1_CR w)).
  destruct (Z.land v0 ADC_CR_ADEN =? 0) eqn:E.
  - exists true.
    assert (R : init_disable fuel w = (Done tt, w1)).
    { unfold init_disable, bind. cbn [reg_read].
      change (wrap32 (fst (dev_read ADC1_CR (hw w)))) with v0.
      rewrite E. reflexivity. }
    rewrite R. split; [|reflexivity].
    rewrite (added_events_of (init_disable fuel) w [RegRead ADC1_CR v0]).
    + apply found_disabled. apply Z.eqb_eq, E.
    + rewrite R. unfold w1, events. cbn [snd reg_read log trace]. now rewrite map_app.
  - set (w3 := snd (reg_or ADC1_CR ADC_CR_ADDIS w1)).
    assert (R : init_disable fuel w = spin fuel ADC1_CR ADC_CR_ADEN false w3).
    { unfold init_disable, bind at 1. cbn [reg_read].
      change (wrap32 (fst (dev_read ADC1_CR (hw w)))) with v0.
      rewrite E. reflexivity. }
    assert (Hset : flag_set ADC_CR_ADEN v0) by (apply Z.eqb_neq, E).
    assert (H3 : events w3 = events w ++
              [RegRead ADC1_CR v0; RegRead ADC1_CR (peek ADC1_CR w1);
               RegWrite ADC1_CR (Z.lor (peek ADC1_CR w1) ADC_CR_ADDIS)]).
    { unfold w3, w1, events. run. rewrite !map_app, <- !app_assoc. cbn [map app acc_ev].
      unfold peek. cbn [hw]. rewrite wrap32_lor;
        [reflexivity|apply wrap32_range|cbv; intuition congruence]. }
    destruct (spin_run fuel ADC1_CR ADC_CR_ADEN false w3)
      as (n & Hlt & [[-> H]|(Hn & Hx & H)]).
    + exists false. rewrite R, H. split; [|reflexivity].
      rewrite (added_events_of (init_disable fuel) w
                 ([RegRead ADC1_CR v0; RegRead ADC1_CR (peek ADC1_CR w1);
                   RegWrite ADC1_CR (Z.lor (peek ADC1_CR w1) ADC_CR_ADDIS)]
                  ++ map (RegRead ADC1_CR) (poll_values ADC1_CR fuel (hw w3)))).
      * apply disable_not_seen; [exact Hset|].
        apply poll_values_Forall. intros k Hk. apply exits_clear_false, Hlt, Hk.
      * rewrite R, H. cbn [snd]. rewrite poll_n_events, H3, <- app_assoc. reflexivity.
    + exists true. rewrite R, H. split; [|reflexivity].
      rewrite (added_events_of (init_disable fuel) w
                 ([RegRead ADC1_CR v0; RegRead ADC1_CR (peek ADC1_CR w1);
                   RegWrite ADC1_CR (Z.lor (peek ADC1_CR w1) ADC_CR_ADDIS)]
                  ++ map (RegRead ADC1_CR)
                       (poll_values ADC1_CR n (hw w3)
                        ++ [peek ADC1_CR (poll_n ADC1_CR n w3)]))).
      * apply disabled_on_request; [exact Hset| |apply exits_clear_true, Hx].
        apply poll_values_Forall. intros k Hk. apply exits_clear_false, Hlt, Hk.
      * rewrite R, H. cbn [snd].
        rewrite poll_n_events, H3, poll_values_S, <- app_assoc. reflexivity.
Qed.

Lemma faithful_cal_start : faithful cal_start.
Proof. unfold cal_start, init_regulator, reg_or, reg_and. faithful_tac. Qed.

Lemma cal_start_run (w : world D) :
  fst (cal_start w) = Done tt /\
  exists a b c, u32 a /\ u32 b /\ u32 c /\
    added_events cal_start w = calibration_start_events a b c.
Proof.
  assert (R : cal_start w =
              reg_or ADC1_CR ADC_CR_ADCAL
                (snd ((reg_and ADC1_CR (not32 ADC_CR_DEEPPWD) ;;
                       reg_or ADC1_CR ADC_CR_ADVREGEN) w))).
  { unfold cal_start, init_regulator.
    rewrite bind_assoc. run. rewrite bind_assoc. run.
    unfold bind at 1. rewrite settle_delay_run. reflexivity. }
  split; [rewrite R; reflexivity|].
  eexists _, _, _.
  split; [|split; [|split]]; cycle 3.
  - apply added_events_of. rewrite R. unfold events. run.
    rewrite !map_app, <- !app_assoc. cbn [map app acc_ev].
    unfold calibration_start_events.
    rewrite wrap32_land by apply wrap32_range.
    rewrite !wrap32_lor
      by first [apply wrap32_range | cbv; intuition congruence].
    reflexivity.
  - apply wrap32_range.
  - apply wrap32_range.
  - apply wrap32_range.
Qed.

Lemma added_ext {A} (m m' : M D A) w : m w = m' w -> added m w = added m' w.
Proof. intros E. unfold added. now rewrite E. Qed.

Lemma adc_init_resplit fuel w :
  adc_init fuel w =
  (init_clock ;; init_disable fuel ;; cal_start ;;
   wait_while fuel ADC1_CR ADC_CR_ADCAL ;; init_configure ;; init_enable fuel) w.
Proof.
  rewrite adc_init_split. unfold cal_start, init_calibrate.
  repeat first [rewrite bind_assoc | apply bind_ext; intros ? ?].
  reflexivity.
Qed.

Lemma adc_init_events fuel (w : world D) :
  exists clock dis done rest,
    added_events (adc_init fuel) w = clock ++ dis ++ rest /\
    length clock = 8%nat /\
    Forall (fun e => touches ADC1_CR e = false) clock /\
    disable_events dis done /\
    (done = false -> rest = [] /\ fst (adc_init fuel w) = Hang) /\
    (done = true ->
     exists a b c rest', rest = calibration_start_events a b c ++ rest').
Proof.
  set (K2 := wait_while fuel ADC1_CR ADC_CR_ADCAL ;; init_configure ;;
             init_enable fuel).
  set (K1 := cal_start ;; K2).
  set (K0 := init_disable fuel ;; K1).
  assert (F2 : faithful K2).
  { unfold K2, wait_while. apply faithful_bind; [apply faithful_spin|intros _].
    apply faithful_bind; [apply faithful_init_configure|intros _].
    apply faithful_init_enable. }
  assert (F1 : faithful K1).
  { apply faithful_bind; [apply faithful_cal_start|intros _; exact F2]. }
  assert (F0 : faithful K0).
  { apply faithful_bind; [apply faithful_init_disable|intros _; exact F1]. }
  set (w1 := snd (init_clock w)).
  destruct (init_clock_events w) as [Hlen Hclock].
  destruct (init_disable_events fuel w1) as (done & Hdis & Hres).
  assert (R : adc_init fuel w = K0 w1).
  { rewrite adc_init_resplit. apply (bind_done init_clock (fun _ => K0) w tt).
    reflexivity. }
  assert (E0 : added (adc_init fuel) w = added init_clock w ++ added K0 w1).
  { rewrite (added_ext _ (init_clock ;; K0) w (adc_init_resplit fuel w)).
    rewrite added_bind
      by (intros; apply faithful_extends; [apply faithful_init_clock || exact F0]).
    rewrite init_clock_done. reflexivity. }
  assert (E1 : added K0 w1 =
               added (init_disable fuel) w1 ++
               match fst (init_disable fuel w1) with
               | Done _ => added K1 (snd (init_disable fuel w1))
               | Hang => []
               end).
  { unfold K0. apply added_bind; intros; apply faithful_extends;
      [apply faithful_init_disable|exact F1]. }
  exists (added_events init_clock w), (added_events (init_disable fuel) w1), done.
  destruct done.
  - set (w2 := snd (init_disable fuel w1)) in *.
    exists (added_events K1 w2).
    split.
    { unfold added_events. rewrite E0, E1, Hres, !map_app. reflexivity. }
    repeat (split; [assumption|]).
    split; [discriminate|]. intros _.
    destruct (cal_start_run w2) as (Hd & a & b & c & _ & _ & _ & Hev).
    exists a, b, c, (added_events K2 (snd (cal_start w2))).
    unfold added_events, K1. rewrite added_bind
      by (intros; apply faithful_extends; [apply faithful_cal_start || exact F2]).
    rewrite Hd, map_app. fold (added_events cal_start w2). rewrite Hev. reflexivity.
  - exists [].
    split.
    { unfold added_events. rewrite E0, E1, Hres, !map_app. reflexivity. }
    repeat (split; [assumption|]).
    split; [|discriminate]. intros _. split; [reflexivity|].
    rewrite R. unfold K0. rewrite (bind_hang _ _ _ Hres). reflexivity.
Qed.

End InitEvents.

Section Calibration.
Context {D : Type} {P : Peripheral D}.

(** The enable flag: bit 0 of the control register, as read, reports it;
    no read sets it; a write sets it only if it is a write to the control
    register with bit 0 set. *)
Variable enabled : D -> bool.
Hypothesis read_reports :
  forall d, Z.testbit (wrap32 (fst (dev_read ADC1_CR d))) 0
            = enabled (snd (dev_read ADC1_CR d)).
Hypothesis read_never_enables :
  forall r d, enabled d = false -> enabled (snd (dev_read r d)) = false.
Hypothesis write_enables_on_request :
  forall r v d, enabled d = false -> r <> ADC1_CR \/ Z.testbit v 0 = false ->
                enabled (dev_write r v d) = false.

(** C7. In [adc_init], a write to the control register that sets the
    calibration bit - the bit having just been read as clear - is always
    issued with the converter disabled.  The events of [adc_init] are the
    eight clock and prescaler accesses, then the disable stage, then, if
    that stage came to its end, the regulator start-up and the
    calibration-start write: when the first read of the control register
    shows the converter enabled, the disable request is written and the
    register is polled, and nothing else is done before a poll shows the
    enable flag clear; if no poll does, [adc_init] hangs there. *)
Theorem calibration_only_when_disabled (fuel : nat) (w : world D) :
  (forall pre rd wr post v x,
     added (adc_init fuel) w = pre ++ rd :: wr :: post ->
     acc_ev rd = RegRead ADC1_CR v ->
     acc_ev wr = RegWrite ADC1_CR x ->
     Z.testbit x 31 = true -> Z.testbit v 31 = false ->
     enabled (acc_pre wr) = false) /\
  (exists clock dis done rest,
     added_events (adc_init fuel) w = clock ++ dis ++ rest /\
     length clock = 8%nat /\
     Forall (fun e => touches ADC1_CR e = false) clock /\
     disable_events dis done /\
     (done = false -> rest = [] /\ fst (adc_init fuel w) = Hang) /\
     (done = true ->
      exists a b c rest', rest = calibration_start_events a b c ++ rest')).
Proof.
  split; [|apply adc_init_events].
  intros pre rd wr post v x Hadd Hrd Hwr Hx Hv.
  destruct (adc_init_guarded enabled read_reports read_never_enables
              write_enables_on_request fuel) as [_ H].
  destruct (H w I) as [Hscan _]. specialize (Hscan None).
  rewrite Hadd in Hscan. apply scan_at in Hscan.
  unfold calibration_guard in Hscan. rewrite Hrd, Hwr in Hscan.
  apply Hscan; assumption.
Qed.

End Calibration.

Lemma sim_has_bit0 v : Sim.has v ADC_CR_ADEN = Z.testbit v 0.
Proof.
  unfold Sim.has. destruct (Z.testbit v 0) eqn:E.
  - apply (single_bit_set 0) in E; [|lia]. unfold flag_set in E.
    apply negb_true_iff, Z.eqb_neq. exact E.
  - apply (single_bit_clear 0) in E; [|lia]. unfold flag_clear in E.
    apply negb_false_iff, Z.eqb_eq. exact E.
Qed.

Lemma sim_read_reports d :
  Z.testbit (wrap32 (fst (dev_read ADC1_CR d))) 0
  = Sim.enabled (snd (dev_read ADC1_CR d)).
Proof. rewrite testbit_wrap32_low by lia. reflexivity. Qed.

Lemma ldiff_bit_clear c m i :
  Z.testbit c i = false -> Z.testbit (Z.ldiff c m) i = false.
Proof. intros H. now rewrite Z.ldiff_spec, H. Qed.

Lemma sim_read_never_enables r d :
  Sim.enabled d = false -> Sim.enabled (snd (dev_read r d)) = false.
Proof.
  unfold Sim.enabled. intros H. cbn [dev_read Sim.peripheral Sim.read snd].
  unfold Sim.tick. destruct (Sim.busy d) as [|[|k]]; try exact H.
  unfold Sim.complete. cbn [Sim.regs Sim.set_busy].
  repeat match goal with
  | |- context [if ?c then _ else _] => destruct c
  end; cbn [Sim.regs Sim.set_regs]; unfold Sim.upd; cbn [reg_eqb];
    try exact H; apply ldiff_bit_clear, H.
Qed.

Lemma sim_write_enables_on_request r v d :
  Sim.enabled d = false -> r <> ADC1_CR \/ Z.testbit v 0 = false ->
  Sim.enabled (dev_write r v d) = false.
Proof.
  unfold Sim.enabled. intros H Hr.
  destruct r; cbn [dev_write Sim.peripheral Sim.write];
    try (cbn [Sim.regs Sim.set_regs]; unfold Sim.upd; cbn [reg_eqb]; exact H).
  destruct Hr as [Hr|Hv]; [congruence|].
  assert (Hc1 : Z.testbit
                  (Z.lor (Z.ldiff (Sim.regs d ADC1_CR)
                            (Z.lor ADC_CR_DEEPPWD ADC_CR_ADVREGEN))
                         (Z.land v (Z.lor ADC_CR_DEEPPWD ADC_CR_ADVREGEN))) 0 = false).
  { rewrite Z.lor_spec, Z.ldiff_spec, Z.land_spec, H, Hv. reflexivity. }
  unfold Sim.write_cr, Sim.start. rewrite (sim_has_bit0 v), Hv.
  cbn [andb].
  repeat match goal with
  | |- context [if ?c then _ else _] => destruct c
  end; cbn [Sim.regs Sim.set_regs Sim.set_busy]; unfold Sim.upd; cbn [reg_eqb];
    try exact Hc1; rewrite Z.lor_spec, Hc1; reflexivity.
Qed.

Lemma calibration_only_when_disabled_witness :
  Sim.enabled (hw (sim_started 2048)) = true /\
  fst (adc_init 10 (sim_started 2048)) = Done tt /\
  (forall pre rd wr post v x,
     added (adc_init 10) (sim_started 2048) = pre ++ rd :: wr :: post ->
     acc_ev rd = RegRead ADC1_CR v ->
     acc_ev wr = RegWrite ADC1_CR x ->
     Z.testbit x 31 = true -> Z.testbit v 31 = false ->
     Sim.enabled (acc_pre wr) = false) /\
  (exists clock dis done rest,
     added_events (adc_init 10) (sim_started 2048) = clock ++ dis ++ rest /\
     length clock = 8%nat /\
     Forall (fun e => touches ADC1_CR e = false) clock /\
     disable_events dis done /\
     (done = false -> rest = [] /\ fst (adc_init 10 (sim_started 2048)) = Hang) /\
     (done = true ->
      exists a b c rest', rest = calibration_start_events a b c ++ rest')).
Proof.
  split; [vm_compute; reflexivity|]. split; [vm_compute; reflexivity|].
  exact (calibration_only_when_disabled Sim.enabled sim_read_reports
           sim_read_never_enables sim_write_enables_on_request
           10 (sim_started 2048)).
Defined.

(* ------------------------------------------------------------------ *)
(** ** Nothing of [adc_read] happens before the converter is ready *)

Lemma steps_app ok p l1 l2 :
  steps ok p l1 -> (forall q, steps ok q l2) -> steps ok p (l1 ++ l2).
Proof.
  revert p. induction l1 as [|e l1 IH]; intros p H1 H2; cbn [app steps] in *.
  - apply H2.
  - destruct H1 as [He H1]. split; [exact He|]. now apply IH.
Qed.

Lemma before_ready_app l1 l2 :
  Forall (fun e => observes_ready e = false) l1 ->
  before_ready (l1 ++ l2) = l1 ++ before_ready l2.
Proof.
  induction 1 as [|e l1 He _ IH]; [reflexivity|].
  cbn [app before_ready]. rewrite He, IH. reflexivity.
Qed.

Lemma before_ready_none l :
  Forall (fun e => observes_ready e = false) l -> before_ready l = l.
Proof.
  intros H. rewrite <- (app_nil_r l) at 1. rewrite before_ready_app by exact H.
  apply app_nil_r.
Qed.

Lemma steps_reads ok r vs :
  (forall p v, ok p (RegRead r v)) -> forall q, steps ok q (map (RegRead r) vs).
Proof.
  intros H. induction vs as [|v vs IH]; intros q; cbn [map steps]; [exact I|].
  split; [apply H|apply IH].
Qed.

Section ReadyGate.
Context {D : Type} {P : Peripheral D}.

Lemma scan_init_check p (tr : list (access D)) :
  scan init_check p tr ->
  steps init_step p (map acc_ev tr) /\
  Forall (fun e => observes_ready e = false) (map acc_ev tr).
Proof.
  revert p. induction tr as [|a tr IH]; intros p H; cbn [scan map steps] in *.
  - split; [exact I|constructor].
  - destruct H as [[Hs Ho] H]. destruct (IH _ H) as [IH1 IH2].
    split; [split; assumption|constructor; assumption].
Qed.

Lemma check_platform e :
  init_step None e -> (forall p, init_step p e) -> observes_ready e = false ->
  triple (D:=D) init_check (fun _ => True) (platform e) (fun _ _ => True).
Proof.
  intros _ H Ho. apply triple_platform. intros d p _.
  split; [|exact I]. split; [apply H|exact Ho].
Qed.

Lemma check_read (d : D) p r (v : Z) d1 :
  r <> ADC1_ISR -> r <> ADC1_DR -> init_check p (Access d (RegRead r v) d1).
Proof.
  intros H1 H2. split; cbn [acc_ev]; destruct r; try exact I; try reflexivity;
    congruence.
Qed.

Lemma check_rmw_plain r f :
  plain_reg r = true ->
  triple (D:=D) init_check (fun _ => True) (rmw r f) (fun _ _ => True).
Proof.
  intros Hr. apply triple_rmw. intros d p _. cbv zeta.
  split; [apply check_read; intros ->; discriminate|].
  split; [|exact I].
  split; cbn [acc_ev]; destruct r; try discriminate; try exact I; reflexivity.
Qed.

Lemma check_rmw_cr f :
  (forall v, Z.testbit (f v) 2 = Z.testbit v 2) ->
  triple (D:=D) init_check (fun _ => True) (rmw ADC1_CR f) (fun _ _ => True).
Proof.
  intros Hf. apply triple_rmw. intros d p _. cbv zeta.
  split; [apply check_read; discriminate|].
  split; [|exact I].
  split; cbn [acc_ev]; [|reflexivity].
  eexists. split; [reflexivity|].
  rewrite testbit_wrap32_low by lia. apply Hf.
Qed.

Lemma check_rmw_length :
  triple (D:=D) init_check (fun _ => True)
    (rmw ADC1_SQR1 (fun v => Z.land v (not32 ADC_SQR1_L))) (fun _ _ => True).
Proof.
  apply triple_rmw. intros d p _. cbv zeta.
  split; [apply check_read; discriminate|].
  split; [|exact I].
  split; cbn [acc_ev]; [|reflexivity].
  eexists. split; [reflexivity|].
  apply wrap32_land, wrap32_range.
Qed.

Lemma check_spin_cr fuel m b :
  triple (D:=D) init_check (fun _ => True) (spin fuel ADC1_CR m b) (fun _ _ => True).
Proof.
  apply triple_spin. intros d p _. cbv zeta.
  split; [apply check_read; discriminate|]. auto.
Qed.

Lemma bind_ext_l {A B} (m m' : M D A) (k : A -> M D B) w :
  m w = m' w -> bind m k w = bind m' k w.
Proof. intros E. unfold bind. now rewrite E. Qed.

Lemma main_split fuel n w :
  main fuel n w =
  (before_wait fuel ;; wait_until fuel ADC1_ISR ADC_ISR_ADRDY ;; after_init fuel n) w.
Proof.
  unfold main, startup, before_wait, after_init.
  repeat first [rewrite bind_assoc | apply bind_ext; intros ? ?].
  rewrite (bind_ext_l (adc_init fuel) _ _ _ (adc_init_split fuel _)).
  unfold init_enable.
  repeat first [rewrite bind_assoc | apply bind_ext; intros ? ?].
  reflexivity.
Qed.

Ltac check_seq :=
  repeat match goal with
  | |- triple _ _ (bind _ _) _ =>
      apply triple_bind with (Mid := fun _ _ => True); [|intros ?]
  end.

Lemma before_wait_checked fuel :
  triple (D:=D) init_check (fun _ => True) (before_wait fuel) (fun _ _ => True).
Proof.
  unfold before_wait. check_seq.
  - apply check_platform; [exact I|intros; exact I|reflexivity].
  - apply check_platform; [exact I|intros; exact I|reflexivity].
  - apply (check_rmw_plain RCC_AHB2ENR (fun v => Z.lor v _)). reflexivity.
  - apply (check_rmw_plain GPIOA_MODER (fun v => Z.lor v _)). reflexivity.
  - apply (check_rmw_plain GPIOA_ASCR (fun v => Z.lor v _)). reflexivity.
  - unfold init_clock. check_seq.
    + apply (check_rmw_plain RCC_AHB2ENR (fun v => Z.lor v _)). reflexivity.
    + apply (check_rmw_plain RCC_CCIPR (fun v => Z.lor v _)). reflexivity.
    + apply (check_rmw_plain ADC123_COMMON_CCR (fun v => Z.land v _)). reflexivity.
    + apply (check_rmw_plain ADC123_COMMON_CCR (fun v => Z.lor v _)). reflexivity.
  - unfold init_disable. check_seq.
    + apply triple_reg_read. intros d p _. cbv zeta.
      split; [apply check_read; discriminate|exact I].
    + apply triple_if; intros _; [|apply triple_ret; auto]. check_seq.
      * apply (check_rmw_cr (fun v => Z.lor v ADC_CR_ADDIS)).
        intros v. apply lor_bit. reflexivity.
      * apply check_spin_cr.
  - unfold init_regulator. check_seq.
    + apply (check_rmw_cr (fun v => Z.land v (not32 ADC_CR_DEEPPWD))).
      intros v. apply land_bit. reflexivity.
    + apply (check_rmw_cr (fun v => Z.lor v ADC_CR_ADVREGEN)).
      intros v. apply lor_bit. reflexivity.
    + apply triple_settle_delay.
  - unfold init_calibrate. check_seq.
    + apply (check_rmw_cr (fun v => Z.lor v ADC_CR_ADCAL)).
      intros v. apply lor_bit. reflexivity.
    + apply check_spin_cr.
  - unfold init_configure. check_seq.
    + apply (check_rmw_plain ADC1_CFGR (fun v => Z.land v _)). reflexivity.
    + apply (check_rmw_plain ADC1_CFGR (fun v => Z.land v _)). reflexivity.
    + apply (check_rmw_plain ADC1_SMPR1 (fun v => Z.land v _)). reflexivity.
    + apply (check_rmw_plain ADC1_SMPR1 (fun v => Z.lor v _)). reflexivity.
    + apply check_rmw_length.
  - apply (check_rmw_cr (fun v => Z.lor v ADC_CR_ADEN)).
    intros v. apply lor_bit. reflexivity.
Qed.

Lemma faithful_before_wait fuel : faithful (before_wait fuel).
Proof.
  unfold before_wait, init, Serial_begin.
  repeat match goal with
  | |- faithful (bind _ _) => apply faithful_bind; [|intros ?]
  | |- faithful (platform _) => apply faithful_platform; reflexivity
  | |- faithful init_clock => apply faithful_init_clock
  | |- faithful (init_disable _) => apply faithful_init_disable
  | |- faithful init_regulator => apply faithful_init_regulator
  | |- faithful (init_calibrate _) => apply faithful_init_calibrate
  | |- faithful init_configure => apply faithful_init_configure
  | |- faithful (reg_or _ _) => unfold reg_or; faithful_tac
  end.
Qed.

Lemma faithful_after_init fuel n : faithful (after_init fuel n).
Proof.
  unfold after_init, pinMode.
  apply faithful_bind; [apply faithful_platform; reflexivity|intros ?].
  apply faithful_bind; [apply faithful_platform; reflexivity|intros ?].
  apply faithful_main_loop.
Qed.

(** The events of a wait for a flag to be set. *)
Lemma wait_until_events fuel r m w :
  exists polls,
    Forall (flag_clear m) polls /\
    ((fst (wait_until fuel r m w) = Hang /\
      added_events (wait_until fuel r m) w = map (RegRead r) polls) \/
     (exists last,
        flag_set m last /\ fst (wait_until fuel r m w) = Done tt /\
        added_events (wait_until fuel r m) w = map (RegRead r) (polls ++ [last]))).
Proof.
  unfold wait_until.
  destruct (spin_run fuel r m true w) as (n & Hlt & H).
  exists (poll_values r n (hw w)). split.
  { apply poll_values_Forall. intros k Hk. apply exits_set_false, Hlt, Hk. }
  destruct H as [[-> H]|(Hn & Hx & H)]; [left|right].
  - rewrite H. split; [reflexivity|].
    apply added_events_of. rewrite H. apply poll_n_events.
  - exists (peek r (poll_n r n w)).
    split; [apply exits_set_true, Hx|]. rewrite H. split; [reflexivity|].
    apply added_events_of. rewrite H. cbn [snd].
    rewrite poll_n_events, poll_values_S. reflexivity.
Qed.

(** A program that waits for a flag between two others. *)
Lemma gated_events {A} (m : M D unit) (k : M D A) fuel r mask w :
  faithful m -> faithful k ->
  exists polls tail,
    Forall (flag_clear mask) polls /\
    added_events (m ;; wait_until fuel r mask ;; k) w =
    added_events m w ++ map (RegRead r) polls ++ tail /\
    (tail = [] \/
     exists last rest, flag_set mask last /\ tail = RegRead r last :: rest).
Proof.
  intros Fm Fk.
  assert (FK : faithful (wait_until fuel r mask ;; k)).
  { apply faithful_bind; [apply faithful_spin|intros _; exact Fk]. }
  unfold added_events.
  rewrite added_bind by (intros; apply faithful_extends; assumption).
  destruct (fst (m w)) as [[]|].
  2:{ exists [], []. split; [constructor|]. split; [|left; reflexivity].
      rewrite !app_nil_r. reflexivity. }
  rewrite added_bind
    by (intros; apply faithful_extends; [apply faithful_spin || exact Fk]).
  destruct (wait_until_events fuel r mask (snd (m w)))
    as (polls & Hpolls & [(Hh & Hev)|(last & Hlast & Hd & Hev)]).
  - exists polls, []. split; [exact Hpolls|]. split; [|left; reflexivity].
    unfold added_events in Hev. rewrite Hh, !map_app, Hev. reflexivity.
  - exists polls, (RegRead r last ::
                   added_events k (snd (wait_until fuel r mask (snd (m w))))).
    split; [exact Hpolls|]. split; [|right; eauto].
    unfold added_events in *. rewrite Hd, !map_app, Hev, map_app.
    rewrite <- !app_assoc. reflexivity.
Qed.

Lemma main_events fuel n w :
  exists polls tail,
    Forall (flag_clear ADC_ISR_ADRDY) polls /\
    added_events (main fuel n) w =
    added_events (before_wait fuel) w ++ map (RegRead ADC1_ISR) polls ++ tail /\
    (tail = [] \/
     exists last rest, flag_set ADC_ISR_ADRDY last /\
                       tail = RegRead ADC1_ISR last :: rest).
Proof.
  unfold added_events at 1.
  rewrite (added_ext _ _ w (main_split fuel n w)).
  apply (gated_events (before_wait fuel) (after_init fuel n)).
  - apply faithful_before_wait.
  - apply faithful_after_init.
Qed.

(** C4, in the form that holds.  In every run of [main], for any number of passes of
    its loop, each event that comes before the first observation of the
    ready flag is a step of the initialisation: no pin is driven and
    nothing is sent (so [adc_read], which starts by driving the probe,
    has not been entered), the status register is not written, the
    result register is not read, a write to the control register leaves
    the start bit as it was just read, and the only writes to the
    sequence register clear the length field of the value just read. *)
Theorem no_convert_action_before_ready (fuel n : nat) (w : world D) :
  steps init_step None (before_ready (added_events (main fuel n) w)).
Proof.
  destruct (main_events fuel n w) as (polls & tail & Hpolls & -> & Htail).
  destruct (before_wait_checked fuel) as [_ H].
  destruct (H w I) as [Hscan _].
  destruct (scan_init_check None _ (Hscan None)) as [Hsteps Hquiet].
  fold (added_events (before_wait fuel) w) in Hsteps, Hquiet.
  assert (Hq : Forall (fun e => observes_ready e = false)
                 (map (RegRead ADC1_ISR) polls)).
  { clear - Hpolls. induction Hpolls as [|v vs Hv _ IH]; constructor; [|exact IH].
    cbn [observes_ready]. unfold flag_clear in Hv. rewrite Hv. reflexivity. }
  rewrite before_ready_app by exact Hquiet.
  rewrite before_ready_app by exact Hq.
  assert (Ht : before_ready tail = []).
  { destruct Htail as [->|(last & rest & Hlast & ->)]; [reflexivity|].
    cbn [before_ready observes_ready]. unfold flag_set in Hlast.
    apply Z.eqb_neq in Hlast. rewrite Hlast. reflexivity. }
  rewrite Ht, app_nil_r.
  apply steps_app; [exact Hsteps|].
  apply steps_reads. intros p v. exact I.
Qed.

End ReadyGate.

(** C4 does not hold to the letter: [adc_init] itself writes the
    sequence register (to clear its length field, line 104) before it
    enables the converter and waits for ready. *)
Lemma sequence_written_before_ready :
  In (RegWrite ADC1_SQR1 0)
     (before_ready
        (added_events (main 10 1) (boot (Sim.reset 2 (fun _ => 2048))))) /\
  sequence_or_start_write (RegWrite ADC1_SQR1 0) = true.
Proof.
  split; [|reflexivity].
  vm_compute. repeat first [left; reflexivity | right].
Qed.

(* ------------------------------------------------------------------ *)
(** ** The first frame *)

Section FirstFrame.
Context {D : Type} {P : Peripheral D}.

Lemma main_once_split fuel w :
  main fuel 1 w = (to_loop fuel ;; loop_body fuel ;; ret tt) w.
Proof.
  rewrite main_split. unfold to_loop, after_init. cbn [main_loop].
  rewrite bind_assoc. apply bind_ext; intros ? ?. cbv beta.
  rewrite bind_assoc. apply bind_ext; intros ? ?. cbv beta.
  rewrite bind_assoc. apply bind_ext; intros ? ?. cbv beta.
  reflexivity.
Qed.

Lemma scan_no_serial p (tr : list (access D)) :
  scan no_serial p tr -> serial_bytes (map acc_ev tr) = [].
Proof.
  revert p. induction tr as [|a tr IH]; intros p H; [reflexivity|].
  cbn [scan] in H. destruct H as [Ha H]. unfold no_serial in Ha.
  cbn [map serial_bytes]. destruct (acc_ev a); try contradiction; apply (IH _ H).
Qed.

Lemma triple_check_weaken {A} (ok ok' : @check D) Pre (m : M D A) Post :
  (forall p a, ok p a -> ok' p a) ->
  triple ok Pre m Post -> triple ok' Pre m Post.
Proof.
  intros Hw [E H]. split; [exact E|]. intros w Hp.
  destruct (H w Hp) as [Hs Hq]. split; [|exact Hq].
  intros p. apply (scan_weaken ok ok' Hw), Hs.
Qed.

Lemma to_loop_quiet fuel :
  triple (D:=D) no_serial (fun _ => True) (to_loop fuel) (fun _ _ => True).
Proof.
  unfold to_loop.
  apply triple_bind with (Mid := fun _ _ => True).
  { apply (triple_check_weaken init_check); [|apply before_wait_checked].
    intros p a [Hs _]. unfold no_serial.
    destruct (acc_ev a); try exact I. exact Hs. }
  intros _. apply triple_bind with (Mid := fun _ _ => True).
  { unfold wait_until. apply triple_spin. intros d p _. cbv zeta.
    split; [exact I|]. auto. }
  intros _. apply triple_bind with (Mid := fun _ _ => True).
  { apply triple_platform. intros d p _. split; exact I. }
  intros _. apply triple_platform. intros d p _. split; exact I.
Qed.

Lemma faithful_to_loop fuel : faithful (to_loop fuel).
Proof.
  unfold to_loop, pinMode, wait_until.
  apply faithful_bind; [apply faithful_before_wait|intros ?].
  apply faithful_bind; [apply faithful_spin|intros ?].
  apply faithful_bind; [apply faithful_platform; reflexivity|intros ?].
  apply faithful_platform; reflexivity.
Qed.

(** A silent program followed by another sends what the other sends. *)
Lemma silent_then {A} (m : M D unit) (k : M D A) w :
  faithful m -> faithful k ->
  fst (m w) = Done tt ->
  serial_bytes (added_events m w) = [] ->
  fst ((m ;; k) w) = fst (k (snd (m w))) /\
  serial_bytes (added_events (m ;; k) w)
  = serial_bytes (added_events k (snd (m w))).
Proof.
  intros Fm Fk Hd Hq. split.
  - rewrite (bind_done m (fun _ => k) w tt Hd). reflexivity.
  - unfold added_events in *.
    rewrite added_bind by (intros; apply faithful_extends; assumption).
    rewrite Hd, map_app, serial_bytes_app, Hq. reflexivity.
Qed.

Lemma then_ret (m : M D unit) w :
  faithful m ->
  fst ((m ;; ret tt) w) = fst (m w) /\
  added_events (m ;; ret tt) w = added_events m w.
Proof.
  intros Fm. split.
  - unfold bind. destruct (m w) as [[[]|] w']; reflexivity.
  - unfold added_events.
    rewrite added_bind
      by (intros; apply faithful_extends; [exact Fm || apply faithful_ret]).
    destruct (fst (m w)); [rewrite (added_nil (ret tt)) by reflexivity|];
      now rewrite app_nil_r.
Qed.

Lemma to_loop_silent fuel w : serial_bytes (added_events (to_loop fuel) w) = [].
Proof.
  destruct (to_loop_quiet fuel) as [_ H]. destruct (H w I) as [Hq _].
  exact (scan_no_serial None _ (Hq None)).
Qed.

(** If [main] reaches its loop and the first [adc_read] returns a
    sample, the first pass sends the frame of that sample, and nothing
    was sent before. *)
Lemma main_first_frame fuel w s :
  fst (to_loop fuel w) = Done tt ->
  fst (adc_read fuel ADC_CHANNEL (snd (to_loop fuel w))) = Done s ->
  fst (main fuel 1 w) = Done tt /\
  serial_bytes (added_events (main fuel 1) w)
  = [0xAA; 0xAA; Z.land s 0xFF; Z.shiftr s 8].
Proof.
  intros Hloop Hread.
  destruct (loop_body_frame fuel (snd (to_loop fuel w)) s Hread)
    as (Hbody & Hsent).
  assert (F : faithful (loop_body fuel ;; ret tt)).
  { apply faithful_bind; [apply faithful_loop_body|intros; apply faithful_ret]. }
  destruct (silent_then (to_loop fuel) (loop_body fuel ;; ret tt) w
              (faithful_to_loop fuel) F Hloop (to_loop_silent fuel w))
    as [H1 H2].
  destruct (then_ret (loop_body fuel) (snd (to_loop fuel w))
              (faithful_loop_body fuel)) as [H3 H4].
  unfold added_events at 1.
  rewrite (added_ext _ _ w (main_once_split fuel w)), (main_once_split fuel w).
  fold (added_events (to_loop fuel ;; loop_body fuel ;; ret tt) w).
  rewrite H1, H2, H3, H4, Hbody, Hsent. split; reflexivity.
Qed.

(** *** Runs that are known to finish *)

Lemma total_ret {A} (d : D) (a : A) : total_at d (ret a) a d.
Proof. intros w Hw. split; [reflexivity|exact Hw]. Qed.

Lemma total_bind {A B} (d : D) (m : M D A) a d1 (k : A -> M D B) b d2 :
  total_at d m a d1 -> total_at d1 (k a) b d2 -> total_at d (bind m k) b d2.
Proof.
  intros H1 H2 w Hw. destruct (H1 w Hw) as [Hf Hh].
  rewrite (bind_done m k w a Hf). apply H2, Hh.
Qed.

Lemma total_reg_read (d : D) r :
  total_at d (reg_read r) (wrap32 (fst (dev_read r d))) (snd (dev_read r d)).
Proof. intros w <-. split; reflexivity. Qed.

Lemma total_rmw (d : D) r f :
  total_at d (rmw r f) tt
    (dev_write r (wrap32 (f (wrap32 (fst (dev_read r d))))) (snd (dev_read r d))).
Proof. intros w <-. split; reflexivity. Qed.

Lemma total_platform (d : D) e : total_at d (platform e) tt d.
Proof. intros w <-. split; reflexivity. Qed.

Lemma total_digitalWrite (d : D) p l : total_at d (digitalWrite p l) tt d.
Proof. intros w <-. split; reflexivity. Qed.

Lemma total_settle_delay (d : D) : total_at d settle_delay tt d.
Proof. intros w <-. rewrite settle_delay_run. split; reflexivity. Qed.

Lemma total_if_true {A} (d : D) (c : bool) (m1 m2 : M D A) a d' :
  c = true -> total_at d m1 a d' -> total_at d (if c then m1 else m2) a d'.
Proof. intros ->. auto. Qed.

Lemma total_if_false {A} (d : D) (c : bool) (m1 m2 : M D A) a d' :
  c = false -> total_at d m2 a d' -> total_at d (if c then m1 else m2) a d'.
Proof. intros ->. auto. Qed.

Lemma total_at_state {A} (d : D) d0 (m : M D A) a d' :
  d = d0 -> total_at d0 m a d' -> total_at d m a d'.
Proof. intros ->. auto. Qed.

End FirstFrame.

(* ------------------------------------------------------------------ *)
(** ** The simulated converter answers *)

Lemma sim_spin_total fuel r m b : forall k d,
  Sim.busy d = S k -> (k < fuel)%nat ->
  (k <> O -> exits m b (wrap32 (Sim.regs d r)) = false) ->
  exits m b (wrap32 (Sim.regs (Sim.complete (Sim.set_busy O d)) r)) = true ->
  total_at d (spin fuel r m b) tt (Sim.complete (Sim.set_busy O d)).
Proof.
  induction fuel as [|fuel IH]; intros k d Hb Hk Hwait Hexit; [lia|].
  intros w Hw. cbn [spin]. unfold bind. cbn [reg_read fst snd].
  cbn [dev_read Sim.peripheral Sim.read fst snd]. rewrite Hw.
  destruct k as [|k].
  - assert (Ht : Sim.tick d = Sim.complete (Sim.set_busy O d))
      by (unfold Sim.tick; rewrite Hb; reflexivity).
    rewrite Ht. unfold exits in Hexit. rewrite Hexit.
    cbn [ret fst snd log hw]. split; reflexivity.
  - assert (Ht : Sim.tick d = Sim.set_busy (S k) d)
      by (unfold Sim.tick; rewrite Hb; reflexivity).
    rewrite Ht. cbn [Sim.regs Sim.set_busy].
    specialize (Hwait ltac:(discriminate)). unfold exits in Hwait. rewrite Hwait.
    apply (IH k (Sim.set_busy (S k) d)).
    + reflexivity.
    + lia.
    + intros _. exact Hwait.
    + exact Hexit.
    + cbn [log hw]. reflexivity.
Qed.

Ltac norm_state :=
  lazymatch goal with
  | |- total_at ?s _ _ _ =>
      let s' := eval vm_compute in s in
      apply (total_at_state s s'); [vm_compute; reflexivity|]
  end.

Ltac total_run Hfuel :=
  lazymatch goal with
  | |- total_at _ (bind _ _) _ _ =>
      eapply total_bind; [total_run Hfuel|cbv beta; norm_state; total_run Hfuel]
  | |- total_at _ (reg_or ?r ?m) _ _ => apply (total_rmw _ r (fun v => Z.lor v m))
  | |- total_at _ (reg_and ?r ?m) _ _ => apply (total_rmw _ r (fun v => Z.land v m))
  | |- total_at _ (reg_read ?r) _ _ => apply total_reg_read
  | |- total_at _ (platform _) _ _ => apply total_platform
  | |- total_at _ (digitalWrite _ _) _ _ => apply total_digitalWrite
  | |- total_at _ settle_delay _ _ => apply total_settle_delay
  | |- total_at _ (ret _) _ _ => apply total_ret
  | |- total_at _ (if _ then _ else _) _ _ =>
      first [ apply total_if_true; [vm_compute; reflexivity|total_run Hfuel]
            | apply total_if_false; [vm_compute; reflexivity|total_run Hfuel] ]
  | |- total_at _ (spin _ _ _ _) _ _ =>
      eapply sim_spin_total;
        [ reflexivity | exact Hfuel
        | intros _; vm_compute; reflexivity | vm_compute; reflexivity ]
  end.

Lemma sim_reaches_loop lat fuel other :
  (lat < fuel)%nat ->
  exists d, total_at (Sim.reset lat (fixed_on 5 2048 other)) (to_loop fuel) tt d /\
            exists d', total_at d (adc_read fuel ADC_CHANNEL) 2048 d'.
Proof.
  intros Hfuel. eexists. split.
  - unfold to_loop, before_wait, init, Serial_begin, pinMode, init_clock,
      init_disable, init_regulator, init_calibrate, init_configure,
      wait_while, wait_until.
    total_run Hfuel.
  - eexists. unfold adc_read, wait_until. norm_state. total_run Hfuel.
Qed.

(** C8. On the simulated converter - whatever its latency, as long as
    the poll budget exceeds it, and whatever it yields on other channels
    - with the raw code 2048 on channel 5: [main] gets through its
    initialisation and the first pass of its loop, and the bytes handed
    to the serial port up to the end of that pass are exactly
    AA AA 00 08. *)
Theorem first_frame_of_2048 (lat fuel : nat) (other : Z -> Z) :
  (lat < fuel)%nat ->
  let mock := Sim.reset lat (fixed_on 5 2048 other) in
  fst (main fuel 1 (boot mock)) = Done tt /\
  serial_bytes (events (snd (main fuel 1 (boot mock)))) = [0xAA; 0xAA; 0x00; 0x08].
Proof.
  intros Hfuel mock.
  destruct (sim_reaches_loop lat fuel other Hfuel) as (d & T1 & d' & T2).
  destruct (T1 (boot mock) eq_refl) as [Hloop Hd].
  destruct (T2 (snd (to_loop fuel (boot mock))) Hd) as [Hread _].
  destruct (main_first_frame fuel (boot mock) 2048 Hloop Hread)
    as [Hdone Hsent].
  split; [exact Hdone|].
  rewrite (events_added (main fuel 1) (boot mock)
             (faithful_extends _ (faithful_main fuel 1))).
  exact Hsent.
Qed.

Lemma first_frame_of_2048_witness :
  (2 < 10)%nat /\
  fst (main 10 1 (boot (Sim.reset 2 (fixed_on 5 2048 (fun _ => 0))))) = Done tt /\
  serial_bytes
    (events (snd (main 10 1 (boot (Sim.reset 2 (fixed_on 5 2048 (fun _ => 0)))))))
  = [0xAA; 0xAA; 0x00; 0x08].
Proof.
  split; [lia|].
  exact (first_frame_of_2048 2 10 (fun _ => 0) ltac:(lia)).
Defined.

(* ------------------------------------------------------------------ *)
(** ** Sequences of stages and the events they leave *)

Section Sequencing.
Context {D : Type} {P : Peripheral D}.

Lemma bind_events {A B} (m : M D A) (k : A -> M D B) w :
  faithful m -> (forall a, faithful (k a)) ->
  added_events (bind m k) w =
  added_events m w ++ match fst (m w) with
                      | Done a => added_events (k a) (snd (m w))
                      | Hang => []
                      end.
Proof.
  intros Fm Fk. unfold added_events.
  rewrite added_bind by (intros; apply faithful_extends; auto).
  rewrite map_app. destruct (fst (m w)); reflexivity.
Qed.

Lemma seq_done {A} (m : M D unit) (k : M D A) w :
  faithful m -> faithful k -> fst (m w) = Done tt ->
  (m ;; k) w = k (snd (m w)) /\
  added_events (m ;; k) w = added_events m w ++ added_events k (snd (m w)).
Proof.
  intros Fm Fk Hd. split; [apply (bind_done m (fun _ => k) w tt Hd)|].
  rewrite bind_events by auto. rewrite Hd. reflexivity.
Qed.

Lemma seq_hang {A} (m : M D unit) (k : M D A) w :
  faithful m -> faithful k -> fst (m w) = Hang ->
  (m ;; k) w = (Hang, snd (m w)) /\
  added_events (m ;; k) w = added_events m w.
Proof.
  intros Fm Fk Hd. split; [apply (bind_hang m (fun _ => k) w Hd)|].
  rewrite bind_events by auto. rewrite Hd. apply app_nil_r.
Qed.

Lemma unit_outcome (o : outcome unit) : o = Done tt \/ o = Hang.
Proof. destruct o as [[]|]; auto. Qed.

(** *** Programs all of whose events pass a test *)

Lemma emits_events {A} Q (m : M D A) w :
  emits Q m -> Forall (fun e => Q e = true) (added_events m w).
Proof.
  intros [_ H]. destruct (H w I) as [Hs _]. specialize (Hs None).
  unfold added_events. revert Hs. generalize (@None event).
  induction (added m w) as [|a tr IH]; intros p Hs; cbn [map]; constructor.
  - apply Hs.
  - apply (IH _ (proj2 Hs)).
Qed.

Lemma emits_ext {A} Q (m m' : M D A) :
  (forall w, m w = m' w) -> emits Q m -> emits Q m'.
Proof. apply triple_ext. Qed.

Lemma emits_ret {A} Q (a : A) : emits (D:=D) Q (ret a).
Proof. apply triple_ret. auto. Qed.

Lemma emits_bind {A B} Q (m : M D A) (k : A -> M D B) :
  emits Q m -> (forall a, emits Q (k a)) -> emits Q (bind m k).
Proof. intros Hm Hk. apply triple_bind with (Mid := fun _ _ => True); assumption. Qed.

Lemma emits_read Q r :
  (forall v, Q (RegRead r v) = true) -> emits (D:=D) Q (reg_read r).
Proof.
  intros H. apply triple_reg_read. intros d p _. cbv zeta. split; [apply H|exact I].
Qed.

Lemma emits_rmw Q r f :
  (forall v, Q (RegRead r v) = true) -> (forall v, Q (RegWrite r v) = true) ->
  emits (D:=D) Q (rmw r f).
Proof.
  intros Hr Hw. apply triple_rmw. intros d p _. cbv zeta.
  split; [apply Hr|]. split; [apply Hw|exact I].
Qed.

Lemma emits_spin Q fuel r m b :
  (forall v, Q (RegRead r v) = true) -> emits (D:=D) Q (spin fuel r m b).
Proof.
  intros H. apply triple_spin. intros d p _. cbv zeta. split; [apply H|]. auto.
Qed.

Lemma emits_platform Q e : Q e = true -> emits (D:=D) Q (platform e).
Proof. intros H. apply triple_platform. intros d p _. split; [exact H|exact I]. Qed.

Lemma emits_digitalWrite Q p l :
  Q (DigitalWrite p l) = true -> emits (D:=D) Q (digitalWrite p l).
Proof. intros H. apply triple_digitalWrite. intros d q _. split; [exact H|exact I]. Qed.

Lemma emits_settle_delay Q : emits (D:=D) Q settle_delay.
Proof. apply (triple_settle_delay (event_check Q) (fun _ => True)). Qed.

End Sequencing.

Ltac emits_tac :=
  repeat match goal with
  | |- emits _ (bind _ _) => apply emits_bind; [|intros ?]
  | |- emits _ (ret _) => apply emits_ret
  | |- emits _ (reg_or ?r ?m) =>
      apply (emits_rmw _ r (fun v => Z.lor v m)); intros ?; reflexivity
  | |- emits _ (reg_and ?r ?m) =>
      apply (emits_rmw _ r (fun v => Z.land v m)); intros ?; reflexivity
  | |- emits _ (reg_read _) => apply emits_read; intros ?; reflexivity
  | |- emits _ (platform _) => apply emits_platform; reflexivity
  | |- emits _ (digitalWrite _ _) => apply emits_digitalWrite; reflexivity
  | |- emits _ settle_delay => apply emits_settle_delay
  | |- emits _ (spin _ _ _ _) => apply emits_spin; intros ?; reflexivity
  | |- emits _ (if ?c then _ else _) => destruct c
  end.

Section Shape.
Context {D : Type} {P : Peripheral D}.

Lemma platform_events e (w : world D) : added_events (platform e) w = [e].
Proof.
  apply added_events_of. unfold events. cbn [platform snd log trace].
  now rewrite map_app.
Qed.

Lemma pinMode_events p m (w : world D) :
  added_events (pinMode p m) w = [PinMode p m].
Proof. apply platform_events. Qed.

Lemma faithful_clock_setup : faithful (clock_setup (D:=D)).
Proof.
  unfold clock_setup, init, Serial_begin, init_clock, reg_or, reg_and. faithful_tac.
Qed.

Lemma faithful_adc_bringup fuel : faithful (adc_bringup (D:=D) fuel).
Proof.
  unfold adc_bringup, init_disable, init_regulator, init_calibrate,
    init_configure, init_enable, reg_or, reg_and, wait_while, wait_until.
  faithful_tac.
Qed.

Lemma faithful_pins_then_loop fuel n : faithful (pins_then_loop (D:=D) fuel n).
Proof. apply faithful_after_init. Qed.

(** [startup] is the set-up of the clocks followed by the bring-up of the
    converter. *)
Lemma startup_split fuel (w : world D) :
  startup fuel w = (clock_setup ;; adc_bringup fuel) w.
Proof.
  unfold startup, clock_setup, adc_bringup.
  repeat first [rewrite bind_assoc | apply bind_ext; intros ? ?].
  rewrite adc_init_split.
  repeat first [rewrite bind_assoc | apply bind_ext; intros ? ?].
  reflexivity.
Qed.

(** The start-up sends nothing and touches no pin. *)
Lemma startup_quiet fuel : emits (D:=D) quiet (startup fuel).
Proof.
  apply emits_ext with (m := clock_setup ;; adc_bringup fuel).
  { intros w. symmetry. apply startup_split. }
  unfold clock_setup, adc_bringup, init, Serial_begin, init_clock, init_disable,
    init_regulator, init_calibrate, init_configure, init_enable,
    wait_while, wait_until.
  emits_tac.
Qed.

(** The set-up of the two pins always returns, and leaves the levels of
    the pins as they were. *)
Lemma pins_then_loop_run fuel n (w1 : world D) :
  exists w', pins w' = pins w1 /\
    pins_then_loop fuel n w1 = main_loop fuel n w' /\
    added_events (pins_then_loop fuel n) w1 =
    [PinMode PIN_SAMPLE OUTPUT; PinMode PIN_SERIAL OUTPUT]
    ++ added_events (main_loop fuel n) w'.
Proof.
  exists (snd (pinMode PIN_SERIAL OUTPUT (snd (pinMode PIN_SAMPLE OUTPUT w1)))).
  split; [reflexivity|]. split; [reflexivity|].
  unfold pins_then_loop.
  assert (F1 : forall p, faithful (pinMode (D:=D) p OUTPUT))
    by (intros p; apply faithful_platform; reflexivity).
  assert (F2 : faithful (pinMode PIN_SERIAL OUTPUT ;; main_loop fuel n))
    by (apply faithful_bind; [apply F1|intros ?; apply faithful_main_loop]).
  destruct (seq_done (pinMode PIN_SAMPLE OUTPUT)
              (pinMode PIN_SERIAL OUTPUT ;; main_loop fuel n) w1
              (F1 _) F2 eq_refl) as [_ E1].
  destruct (seq_done (pinMode PIN_SERIAL OUTPUT) (main_loop fuel n)
              (snd (pinMode PIN_SAMPLE OUTPUT w1))
              (F1 _) (faithful_main_loop fuel n) eq_refl) as [_ E2].
  rewrite E1, E2, !pinMode_events. reflexivity.
Qed.

(** [main] is its start-up and then, if the start-up comes to its end,
    the set-up of the two pins and the loop. *)
Lemma main_cases fuel n (w : world D) :
  (fst (startup fuel w) = Hang /\
   main fuel n w = (Hang, snd (startup fuel w)) /\
   added_events (main fuel n) w = added_events (startup fuel) w) \/
  (fst (startup fuel w) = Done tt /\
   exists w', pins w' = pins (snd (startup fuel w)) /\
     main fuel n w = main_loop fuel n w' /\
     added_events (main fuel n) w =
     added_events (startup fuel) w
     ++ [PinMode PIN_SAMPLE OUTPUT; PinMode PIN_SERIAL OUTPUT]
     ++ added_events (main_loop fuel n) w').
Proof.
  change (main fuel n) with (startup fuel ;; pins_then_loop fuel n).
  destruct (unit_outcome (fst (startup fuel w))) as [Hd|Hh]; [right|left].
  - split; [exact Hd|].
    destruct (seq_done (startup fuel) (pins_then_loop fuel n) w
                (faithful_startup fuel) (faithful_pins_then_loop fuel n) Hd)
      as [Hrun Hev].
    destruct (pins_then_loop_run fuel n (snd (startup fuel w)))
      as (w' & Hp & Hr & He).
    exists w'. split; [exact Hp|]. split; [rewrite Hrun; exact Hr|].
    rewrite Hev, He. reflexivity.
  - split; [exact Hh|].
    apply (seq_hang (startup fuel) (pins_then_loop fuel n) w
             (faithful_startup fuel) (faithful_pins_then_loop fuel n) Hh).
Qed.

(** One pass of the loop either comes to its end or stalls in the wait
    for the end of the conversion. *)
Lemma loop_body_pass fuel (w : world D) :
  (fst (loop_body fuel w) = Done tt /\
   complete_pass (added_events (loop_body fuel) w)) \/
  (fst (loop_body fuel w) = Hang /\
   stalled_pass (added_events (loop_body fuel) w)).
Proof.
  destruct (adc_read_events fuel ADC_CHANNEL w)
    as (a & b & c & e & polls & _ & _ & _ & _ & Hpolls & H).
  destruct H as [(Hh & _ & Hev)|(last & dr & Hlast & _ & _ & Hd & Hev)].
  - right. rewrite (loop_body_hang fuel w Hh). split; [reflexivity|].
    exists a, b, c, e, polls. split; [exact Hpolls|].
    rewrite <- Hev. unfold added_events, added.
    rewrite (loop_body_hang fuel w Hh). reflexivity.
  - left. destruct (loop_body_done fuel w _ Hd) as (_ & Hdone & Hev').
    split; [exact Hdone|].
    exists a, b, c, e, polls, last, dr. split; [exact Hpolls|].
    split; [exact Hlast|]. rewrite Hev', Hev, <- !app_assoc. reflexivity.
Qed.

(** The loop is a number of complete passes, followed by a stalled one
    unless all the passes asked for came to their end. *)
Lemma main_loop_passes fuel n : forall (w : world D),
  exists done stalled,
    added_events (main_loop fuel n) w = concat done ++ stalled /\
    Forall complete_pass done /\
    ((fst (main_loop fuel n w) = Done tt /\ stalled = [] /\ length done = n) \/
     (fst (main_loop fuel n w) = Hang /\ stalled_pass stalled /\
      (length done < n)%nat)).
Proof.
  induction n as [|n IH]; intros w.
  - exists [], []. split.
    { unfold added_events. rewrite added_nil by reflexivity. reflexivity. }
    split; [constructor|]. left. repeat split.
  - cbn [main_loop].
    destruct (loop_body_pass fuel w) as [[Hd Hp]|[Hh Hp]].
    + destruct (seq_done (loop_body fuel) (main_loop fuel n) w
                  (faithful_loop_body fuel) (faithful_main_loop fuel n) Hd)
        as [Hrun Hev].
      destruct (IH (snd (loop_body fuel w))) as (done & stalled & He & Hall & Hc).
      exists (added_events (loop_body fuel) w :: done), stalled.
      split; [rewrite Hev, He; cbn [concat]; now rewrite app_assoc|].
      split; [constructor; assumption|].
      rewrite Hrun. cbn [length].
      destruct Hc as [(H1 & H2 & H3)|(H1 & H2 & H3)]; [left|right];
        repeat split; auto; lia.
    + destruct (seq_hang (loop_body fuel) (main_loop fuel n) w
                  (faithful_loop_body fuel) (faithful_main_loop fuel n) Hh)
        as [Hrun Hev].
      exists [], (added_events (loop_body fuel) w).
      split; [rewrite Hev; reflexivity|]. split; [constructor|].
      right. rewrite Hrun. cbn [fst length]. repeat split; [exact Hp|lia].
Qed.

End Shape.

(* ------------------------------------------------------------------ *)
(** ** The stream of frames *)

Lemma result_reads_app l1 l2 :
  result_reads (l1 ++ l2) = result_reads l1 ++ result_reads l2.
Proof.
  induction l1 as [|e l1 IH]; [reflexivity|].
  destruct e as [r v| | | | | | |]; cbn [app result_reads]; try exact IH.
  destruct r; cbn [app]; rewrite IH; reflexivity.
Qed.

Lemma result_reads_polls vs : result_reads (map (RegRead ADC1_ISR) vs) = [].
Proof. induction vs; [reflexivity|assumption]. Qed.

Lemma frame_events_bytes s :
  0 <= s < 2 ^ 16 -> serial_bytes (frame_events s) = frame s.
Proof.
  intros Hs. cbn [frame_events serial_bytes]. unfold frame.
  rewrite (wrap8_small (Z.land s 0xFF)) by apply low_byte_range.
  rewrite (wrap8_small (Z.shiftr s 8)) by (apply high_byte_range; exact Hs).
  rewrite (wrap8_small (Z.land s 0xFF)) by apply low_byte_range.
  rewrite (wrap8_small (Z.shiftr s 8)) by (apply high_byte_range; exact Hs).
  reflexivity.
Qed.

Lemma frame_bytes s :
  0 <= s < 2 ^ 16 -> Forall (fun b => 0 <= b < 256) (frame s).
Proof.
  intros Hs. unfold frame.
  pose proof (low_byte_range s) as Hl. pose proof (high_byte_range s Hs) as Hh.
  change (2 ^ 8) with 256 in *.
  repeat constructor; lia.
Qed.

Lemma complete_pass_stream es :
  complete_pass es ->
  exists dr, result_reads es = [dr] /\ serial_bytes es = frame_of_read dr.
Proof.
  intros (a & b & c & e & polls & last & dr & _ & _ & ->). exists dr.
  rewrite !result_reads_app, !serial_bytes_app, result_reads_polls,
    serial_bytes_reads, frame_events_bytes by apply wrap16_range.
  split; reflexivity.
Qed.

Lemma stalled_pass_stream es :
  stalled_pass es -> result_reads es = [] /\ serial_bytes es = [].
Proof.
  intros (a & b & c & e & polls & _ & ->).
  rewrite result_reads_app, serial_bytes_app, result_reads_polls, serial_bytes_reads.
  split; reflexivity.
Qed.

Lemma quiet_stream es :
  Forall (fun e => quiet e = true) es ->
  result_reads es = [] /\ serial_bytes es = [].
Proof.
  induction 1 as [|e es He _ [IH1 IH2]]; [split; reflexivity|].
  destruct e as [r v| | | | | | |]; try discriminate; cbn [result_reads serial_bytes];
    try (split; assumption).
  destruct r; try discriminate; split; assumption.
Qed.

Lemma complete_passes_stream done :
  Forall complete_pass done ->
  serial_bytes (concat done) = flat_map frame_of_read (result_reads (concat done)) /\
  length (result_reads (concat done)) = length done.
Proof.
  induction 1 as [|es done Hes _ [IH1 IH2]]; [split; reflexivity|].
  destruct (complete_pass_stream es Hes) as (dr & Hr & Hs).
  cbn [concat]. rewrite result_reads_app, serial_bytes_app, Hr, Hs, IH1.
  cbn [app flat_map length]. rewrite IH2. split; reflexivity.
Qed.

Lemma frames_bytes reads :
  Forall (fun b => 0 <= b < 256) (flat_map frame_of_read reads).
Proof.
  induction reads as [|r reads IH]; [constructor|].
  cbn [flat_map]. apply Forall_app. split; [|exact IH].
  apply frame_bytes, wrap16_range.
Qed.

Section Stream.
Context {D : Type} {P : Peripheral D}.

Lemma main_loop_stream fuel n (w : world D) :
  let ev := added_events (main_loop fuel n) w in
  serial_bytes ev = flat_map frame_of_read (result_reads ev) /\
  (length (result_reads ev) <= n)%nat /\
  (fst (main_loop fuel n w) = Done tt -> length (result_reads ev) = n) /\
  (fst (main_loop fuel n w) = Hang -> (length (result_reads ev) < n)%nat).
Proof.
  intros ev. unfold ev.
  destruct (main_loop_passes fuel n w) as (done & stalled & -> & Hall & Hc).
  destruct (complete_passes_stream done Hall) as [Hs Hl].
  assert (Hst : result_reads stalled = [] /\ serial_bytes stalled = []).
  { destruct Hc as [(_ & -> & _)|(_ & Hst & _)]; [split; reflexivity|].
    apply stalled_pass_stream, Hst. }
  destruct Hst as [Hr0 Hs0].
  rewrite result_reads_app, serial_bytes_app, Hr0, Hs0, !app_nil_r, Hl.
  split; [exact Hs|].
  destruct Hc as [(Hd & _ & Hn)|(Hh & _ & Hn)]; rewrite ?Hd, ?Hh;
    repeat split; intros; try discriminate; lia.
Qed.

(** X1. Whatever the peripheral does and however long [main] is
    observed, the bytes it sends are whole frames, one for each read of
    the result register and in that order: AA AA and then the low and the
    high byte of the value read, narrowed to 16 bits, from which the two
    bytes give it back.  A pass that stalls sends nothing, so no frame
    is ever cut short; there are at most as many frames as passes, and
    exactly as many when the passes all come to their end. *)
Theorem main_sends_whole_frames (fuel n : nat) (w : world D) :
  let ev := added_events (main fuel n) w in
  serial_bytes ev = flat_map frame_of_read (result_reads ev) /\
  (length (result_reads ev) <= n)%nat /\
  (fst (main fuel n w) = Done tt -> length (result_reads ev) = n) /\
  Forall (fun b => 0 <= b < 256) (serial_bytes ev) /\
  (forall raw, exists lo hi,
     frame_of_read raw = [0xAA; 0xAA; lo; hi] /\
     Z.lor lo (Z.shiftl hi 8) = wrap16 raw).
Proof.
  intros ev.
  assert (H : serial_bytes ev = flat_map frame_of_read (result_reads ev) /\
              (length (result_reads ev) <= n)%nat /\
              (fst (main fuel n w) = Done tt -> length (result_reads ev) = n)).
  { unfold ev.
    destruct (quiet_stream _ (emits_events quiet (startup fuel) w (startup_quiet fuel)))
      as [Hr Hs].
    destruct (main_cases fuel n w) as [(_ & Hrun & ->)|(_ & w' & _ & Hrun & ->)].
    - rewrite Hr, Hs, Hrun. cbn [fst length flat_map].
      repeat split; [lia|discriminate].
    - destruct (main_loop_stream fuel n w') as (H1 & H2 & H3 & _).
      rewrite !result_reads_app, !serial_bytes_app, Hr, Hs, Hrun.
      cbn [app result_reads serial_bytes PIN_SAMPLE PIN_SERIAL].
      repeat split; assumption. }
  destruct H as (H1 & H2 & H3).
  split; [exact H1|]. split; [exact H2|]. split; [exact H3|].
  split; [rewrite H1; apply frames_bytes|].
  intros raw. eexists _, _. split; [reflexivity|apply bytes_roundtrip].
Qed.

End Stream.

(* ------------------------------------------------------------------ *)
(** ** Stalls *)

Section Stalls.
Context {D : Type} {P : Peripheral D}.

Lemma adc_start_pins ch (w : world D) :
  pins (snd (adc_start ch w)) PIN_SAMPLE = HIGH.
Proof. reflexivity. Qed.

(** X2. [adc_read] returns exactly when, within the poll budget, a read
    of the status register after the start of the conversion shows the
    end-of-conversion flag: the wait of line 124 is the only place where
    it can stall.  When it stalls it has polled the status register as
    often as the budget allows and always found the flag clear, it has
    not read the result register, and it has left the probe pin high. *)
Theorem adc_read_returns_iff_answered (fuel : nat) (ch : Z) (w : world D) :
  ((exists s, fst (adc_read fuel ch w) = Done s) <->
   conversion_completes fuel ch w) /\
  (fst (adc_read fuel ch w) = Hang ->
   pins (snd (adc_read fuel ch w)) PIN_SAMPLE = HIGH /\
   pin_levels PIN_SAMPLE (added_events (adc_read fuel ch) w) = [HIGH] /\
   result_reads (added_events (adc_read fuel ch) w) = [] /\
   exists a b c e polls,
     length polls = fuel /\ Forall (flag_clear ADC_ISR_EOC) polls /\
     added_events (adc_read fuel ch) w =
     start_events ch a b c e ++ map (RegRead ADC1_ISR) polls).
Proof.
  split; [split|].
  - intros [s Hs].
    destruct (adc_read_run fuel ch w) as (n & _ & [[_ H]|(Hn & Hx & _)]).
    + rewrite H in Hs. discriminate.
    + exists n. split; [exact Hn|apply exits_set_true, Hx].
  - intros Hc. destruct (adc_read_completes fuel ch w Hc) as (n & _ & ->).
    rewrite adc_finish_run. cbn [fst]. eauto.
  - intros Hh. split.
    { destruct (adc_read_run fuel ch w) as (n & _ & [[_ H]|(_ & _ & H)]).
      - rewrite H. cbn [snd]. rewrite poll_n_pins. apply adc_start_pins.
      - rewrite H, adc_finish_run in Hh. discriminate. }
    destruct (adc_read_events fuel ch w)
      as (a & b & c & e & polls & _ & _ & _ & _ & Hpolls & H).
    destruct H as [(_ & Hlen & Hev)|(last & dr & _ & _ & _ & Hd & _)];
      [|congruence].
    rewrite Hev, pin_levels_app, pin_levels_reads, result_reads_app,
      result_reads_polls.
    split; [reflexivity|]. split; [reflexivity|].
    exists a, b, c, e, polls. auto.
Qed.

(** X3. When the start-up stalls - in the wait for the disable, for the
    end of the calibration or for ready - [main] stalls with it, having
    done nothing but [init()], [Serial.begin] and register accesses: no
    byte has been sent, no pin has been configured or driven, and the
    result register has not been read. *)
Theorem stalled_startup_is_silent (fuel n : nat) (w : world D) :
  fst (startup fuel w) = Hang ->
  fst (main fuel n w) = Hang /\
  Forall (fun e => quiet e = true) (added_events (main fuel n) w) /\
  serial_bytes (added_events (main fuel n) w) = [] /\
  result_reads (added_events (main fuel n) w) = [].
Proof.
  intros Hh.
  destruct (main_cases fuel n w) as [(_ & Hrun & Hev)|(Hd & _)]; [|congruence].
  pose proof (emits_events quiet (startup fuel) w (startup_quiet fuel)) as Hq.
  rewrite Hrun, Hev. split; [reflexivity|]. split; [exact Hq|].
  destruct (quiet_stream _ Hq) as [Hr Hs]. split; assumption.
Qed.

End Stalls.

Lemma adc_read_returns_iff_answered_witness :
  fst (adc_read 1 ADC_CHANNEL (sim_started 2048)) = Hang /\
  pins (snd (adc_read 1 ADC_CHANNEL (sim_started 2048))) PIN_SAMPLE = HIGH /\
  result_reads (added_events (adc_read 1 ADC_CHANNEL) (sim_started 2048)) = [] /\
  ~ conversion_completes 1 ADC_CHANNEL (sim_started 2048).
Proof.
  assert (H : fst (adc_read 1 ADC_CHANNEL (sim_started 2048)) = Hang)
    by (vm_compute; reflexivity).
  destruct (adc_read_returns_iff_answered 1 ADC_CHANNEL (sim_started 2048))
    as [Hiff Hstall].
  destruct (Hstall H) as (Hp & _ & Hr & _).
  split; [exact H|]. split; [exact Hp|]. split; [exact Hr|].
  intros Hc. apply Hiff in Hc. destruct Hc as [s Hs]. congruence.
Defined.

Lemma stalled_startup_is_silent_witness :
  fst (startup 1 (boot (Sim.reset 2 (fun _ => 2048)))) = Hang /\
  fst (main 1 3 (boot (Sim.reset 2 (fun _ => 2048)))) = Hang /\
  serial_bytes (added_events (main 1 3) (boot (Sim.reset 2 (fun _ => 2048)))) = [].
Proof.
  assert (H : fst (startup 1 (boot (Sim.reset 2 (fun _ => 2048)))) = Hang)
    by (vm_compute; reflexivity).
  destruct (stalled_startup_is_silent 1 3 (boot (Sim.reset 2 (fun _ => 2048))) H)
    as (Hm & _ & Hs & _).
  split; [exact H|]. split; [exact Hm|exact Hs].
Defined.

Lemma main_sends_whole_frames_witness :
  fst (main 10 2 (boot (Sim.reset 2 (fun _ => 2048)))) = Done tt /\
  length (result_reads
            (added_events (main 10 2) (boot (Sim.reset 2 (fun _ => 2048))))) = 2%nat /\
  serial_bytes (added_events (main 10 2) (boot (Sim.reset 2 (fun _ => 2048))))
  = flat_map frame_of_read
      (result_reads (added_events (main 10 2) (boot (Sim.reset 2 (fun _ => 2048))))).
Proof.
  assert (H : fst (main 10 2 (boot (Sim.reset 2 (fun _ => 2048)))) = Done tt)
    by (vm_compute; reflexivity).
  destruct (main_sends_whole_frames 10 2 (boot (Sim.reset 2 (fun _ => 2048))))
    as (Hs & _ & Hn & _).
  split; [exact H|]. split; [exact (Hn H)|exact Hs].
Defined.

(* ------------------------------------------------------------------ *)
(** ** Monitors *)

Lemma passes_app {S} (m : monitor S) (s : S) l1 l2 :
  passes m s (l1 ++ l2) = passes m s l1 && passes m (state_after m s l1) l2.
Proof.
  revert s. induction l1 as [|e l1 IH]; intros s; [reflexivity|].
  cbn [app passes]. rewrite IH, andb_assoc. reflexivity.
Qed.

Lemma state_after_app {S} (m : monitor S) (s : S) l1 l2 :
  state_after m s (l1 ++ l2) = state_after m (state_after m s l1) l2.
Proof. apply fold_left_app. Qed.

(** Events that the monitor accepts in state [s] and that leave it in
    that state. *)
Lemma passes_stable {S} (m : monitor S) (s : S) es :
  Forall (fun e => accepts m s e = true /\ after m s e = s) es ->
  passes m s es = true /\ state_after m s es = s.
Proof.
  induction 1 as [|e es [Ha Hs] _ [IH1 IH2]]; [split; reflexivity|].
  unfold state_after in *. cbn [passes fold_left]. rewrite Ha, Hs, IH1, IH2.
  split; reflexivity.
Qed.

Lemma passes_stable_if {S} (m : monitor S) (s : S) (Q : event -> bool) es :
  (forall e, Q e = true -> accepts m s e = true /\ after m s e = s) ->
  Forall (fun e => Q e = true) es ->
  passes m s es = true /\ state_after m s es = s.
Proof.
  intros HQ H. apply passes_stable. revert H. apply Forall_impl. exact HQ.
Qed.

Lemma passes_concat {S} (m : monitor S) (s : S) ls :
  Forall (fun es => passes m s es = true /\ state_after m s es = s) ls ->
  passes m s (concat ls) = true /\ state_after m s (concat ls) = s.
Proof.
  induction 1 as [|es ls [Hp Hs] _ [IH1 IH2]]; [split; reflexivity|].
  cbn [concat]. rewrite passes_app, state_after_app, Hp, Hs, IH1, IH2.
  split; reflexivity.
Qed.

Lemma polls_stable {S} (m : monitor S) (s : S) r vs :
  (forall v, accepts m s (RegRead r v) = true /\ after m s (RegRead r v) = s) ->
  passes m s (map (RegRead r) vs) = true /\
  state_after m s (map (RegRead r) vs) = s.
Proof.
  intros H. apply passes_stable. induction vs; constructor; auto.
Qed.

Lemma land_lor_self x m :
  0 <= m < 2 ^ 32 -> Z.land (wrap32 (Z.lor x m)) m = m.
Proof.
  intros Hm. apply Z.bits_inj'. intros n Hn.
  rewrite Z.land_spec, testbit_wrap32, Z.lor_spec.
  destruct (Z.testbit m n) eqn:E; [|apply andb_false_r].
  rewrite orb_true_r, !andb_true_r. apply Z.ltb_lt.
  destruct (Z.lt_ge_cases n 32) as [|Hge]; [assumption|].
  rewrite (proj1 (below_pow2_bits 32 m ltac:(lia) (proj1 Hm)) (proj2 Hm) n Hge) in E.
  discriminate.
Qed.

Lemma set_after_lor x m :
  0 < m < 2 ^ 32 -> negb (Z.land (wrap32 (Z.lor x m)) m =? 0) = true.
Proof.
  intros Hm. rewrite land_lor_self by lia.
  apply negb_true_iff, Z.eqb_neq. lia.
Qed.

Section Monitored.
Context {D : Type} {P : Peripheral D}.

Lemma emits_loop_body Q fuel :
  Q (DigitalWrite PIN_SAMPLE HIGH) = true ->
  Q (DigitalWrite PIN_SAMPLE LOW) = true ->
  Q (DigitalWrite PIN_SERIAL HIGH) = true ->
  Q (DigitalWrite PIN_SERIAL LOW) = true ->
  (forall r v, adc_reg r = true -> Q (RegRead r v) = true) ->
  (forall r v, adc_reg r = true -> Q (RegWrite r v) = true) ->
  (forall b, Q (SerialWrite b) = true) ->
  (forall us, Q (DelayMicroseconds us) = true) ->
  emits (D:=D) Q (loop_body fuel).
Proof.
  intros H1 H2 H3 H4 Hr Hw Hs Hd.
  unfold loop_body, adc_read, wait_until, Serial_write, delayMicroseconds.
  repeat match goal with
  | |- emits _ (bind _ _) => apply emits_bind; [|intros ?]
  | |- emits _ (ret _) => apply emits_ret
  | |- emits _ (reg_or ?r ?m) =>
      apply (emits_rmw _ r (fun v => Z.lor v m)); intros ?;
      first [apply Hr | apply Hw]; reflexivity
  | |- emits _ (reg_and ?r ?m) =>
      apply (emits_rmw _ r (fun v => Z.land v m)); intros ?;
      first [apply Hr | apply Hw]; reflexivity
  | |- emits _ (reg_read _) => apply emits_read; intros ?; apply Hr; reflexivity
  | |- emits _ (platform _) => apply emits_platform; first [apply Hs | apply Hd]
  | |- emits _ (digitalWrite _ _) => apply emits_digitalWrite; assumption
  | |- emits _ (spin _ _ _ _) => apply emits_spin; intros ?; apply Hr; reflexivity
  end.
Qed.

Lemma emits_main_loop Q fuel n :
  emits (D:=D) Q (loop_body fuel) -> emits (D:=D) Q (main_loop fuel n).
Proof.
  intros H. induction n as [|n IH]; cbn [main_loop]; [apply emits_ret|].
  apply emits_bind; [exact H|intros _; exact IH].
Qed.

Lemma adc_bringup_converter_only fuel :
  emits (D:=D) converter_only (adc_bringup fuel).
Proof.
  unfold adc_bringup, init_disable, init_regulator, init_calibrate,
    init_configure, init_enable, wait_while, wait_until.
  emits_tac.
Qed.

Lemma pins_then_loop_converter_only fuel n :
  emits (D:=D) converter_only (pins_then_loop fuel n).
Proof.
  unfold pins_then_loop, pinMode.
  apply emits_bind; [apply emits_platform; reflexivity|intros _].
  apply emits_bind; [apply emits_platform; reflexivity|intros _].
  apply emits_main_loop, emits_loop_body; try reflexivity; auto.
Qed.

Lemma main_loop_no_pin_mode fuel n : emits (D:=D) no_pin_mode (main_loop fuel n).
Proof. apply emits_main_loop, emits_loop_body; reflexivity. Qed.

(** [main] is the set-up of the clocks and then everything else. *)
Lemma main_after_clocks fuel n (w : world D) :
  main fuel n w = (clock_setup ;; adc_bringup fuel ;; pins_then_loop fuel n) w /\
  added_events (main fuel n) w =
  added_events clock_setup w
  ++ added_events (adc_bringup fuel ;; pins_then_loop fuel n) (snd (clock_setup w)).
Proof.
  assert (E : forall w', main fuel n w' =
            (clock_setup ;; adc_bringup fuel ;; pins_then_loop fuel n) w').
  { intros w'. change (main fuel n) with (startup fuel ;; pins_then_loop fuel n).
    rewrite <- bind_assoc. apply bind_ext_l, startup_split. }
  split; [apply E|].
  unfold added_events at 1. rewrite (added_ext _ _ w (E w)).
  fold (added_events (clock_setup ;; adc_bringup fuel ;; pins_then_loop fuel n) w).
  apply (seq_done clock_setup (adc_bringup fuel ;; pins_then_loop fuel n) w).
  - apply faithful_clock_setup.
  - apply faithful_bind; [apply faithful_adc_bringup|intros _].
    apply faithful_pins_then_loop.
  - reflexivity.
Qed.

Lemma clock_setup_gated (w : world D) :
  passes clock_gating (false, false) (added_events clock_setup w) = true /\
  snd (state_after clock_gating (false, false) (added_events clock_setup w)) = true.
Proof.
  unfold added_events, added, clock_setup, init_clock. run. flat.
  rewrite skipn_app_exact. cbn [map acc_ev].
  unfold state_after.
  cbn [passes fold_left accepts after clock_gating gpio_reg adc_reg implb
       andb fst snd].
  rewrite !set_after_lor by (cbv; intuition congruence).
  split; reflexivity.
Qed.

(** X4. Clock gating.  In every run of [main], a register of port A is
    accessed only after a write to [RCC->AHB2ENR] that sets the clock
    enable of the port, and a register of the converter only after one
    that sets the clock enable of the converter, with no later write to
    [RCC->AHB2ENR] taking the bit away. *)
Theorem clocks_enabled_before_use (fuel n : nat) (w : world D) :
  passes clock_gating (false, false) (added_events (main fuel n) w) = true.
Proof.
  destruct (main_after_clocks fuel n w) as [_ ->].
  destruct (clock_setup_gated w) as [Hp Hs].
  rewrite passes_app, Hp. cbn [andb].
  destruct (state_after clock_gating (false, false) (added_events clock_setup w))
    as [g a]. cbn [snd] in Hs. subst a.
  apply (passes_stable_if clock_gating (g, true) converter_only).
  - intros e He. destruct e as [r v|r v| | | | | |]; try (split; reflexivity);
      destruct r; try discriminate; split; cbn; try reflexivity;
      destruct g; reflexivity.
  - apply emits_events.
    apply emits_bind; [apply adc_bringup_converter_only|intros _].
    apply pins_then_loop_converter_only.
Qed.

(** X5. Pin set-up.  In every run of [main], a pin is driven only after
    it has been made an output: both [pinMode] calls come before the
    first [digitalWrite], and nothing changes the mode of a pin
    afterwards. *)
Theorem pins_are_outputs_before_driven (fuel n : nat) (w : world D) :
  passes pin_setup (false, false) (added_events (main fuel n) w) = true.
Proof.
  pose proof (emits_events quiet (startup fuel) w (startup_quiet fuel)) as Hq.
  assert (Hstart : passes pin_setup (false, false) (added_events (startup fuel) w) = true /\
                   state_after pin_setup (false, false) (added_events (startup fuel) w)
                   = (false, false)).
  { apply (passes_stable_if pin_setup (false, false) quiet); [|exact Hq].
    intros e He. destruct e; try discriminate; split; reflexivity. }
  destruct Hstart as [Hp Hs].
  destruct (main_cases fuel n w) as [(_ & _ & ->)|(_ & w' & _ & _ & ->)];
    [exact Hp|].
  rewrite passes_app, Hp, Hs, passes_app. cbn [andb].
  change (PinMode PIN_SAMPLE OUTPUT) with (PinMode D3 OUTPUT).
  change (PinMode PIN_SERIAL OUTPUT) with (PinMode D4 OUTPUT).
  unfold state_after.
  cbn [passes fold_left accepts after pin_setup is_output fst snd andb].
  apply (passes_stable_if pin_setup (true, true) no_pin_mode).
  - intros e He. destruct e as [| | | | |p m|p l|]; try discriminate;
      try (split; reflexivity). destruct p; split; reflexivity.
  - apply emits_events, main_loop_no_pin_mode.
Qed.

End Monitored.

Lemma start_events_windows ch a b c e :
  passes probe_windows (false, false) (start_events ch a b c e) = true /\
  state_after probe_windows (false, false) (start_events ch a b c e) = (true, false).
Proof. split; reflexivity. Qed.

Lemma status_polls_windows vs :
  passes probe_windows (true, false) (map (RegRead ADC1_ISR) vs) = true /\
  state_after probe_windows (true, false) (map (RegRead ADC1_ISR) vs) = (true, false).
Proof. apply polls_stable. intros v. split; reflexivity. Qed.

Lemma complete_pass_windows es :
  complete_pass es ->
  passes probe_windows (false, false) es = true /\
  state_after probe_windows (false, false) es = (false, false).
Proof.
  intros (a & b & c & e & polls & last & dr & _ & _ & ->).
  destruct (start_events_windows ADC_CHANNEL a b c e) as [H1 H2].
  destruct (status_polls_windows (polls ++ [last])) as [H3 H4].
  rewrite !passes_app, !state_after_app, H1, H2, H3, H4.
  split; reflexivity.
Qed.

Lemma stalled_pass_windows es :
  stalled_pass es -> passes probe_windows (false, false) es = true.
Proof.
  intros (a & b & c & e & polls & _ & ->).
  destruct (start_events_windows ADC_CHANNEL a b c e) as [H1 H2].
  destruct (status_polls_windows polls) as [H3 _].
  rewrite passes_app, H1, H2, H3. reflexivity.
Qed.

Section Probes.
Context {D : Type} {P : Peripheral D}.

(** X6. The two timing probes.  In every run of [main] the probes are
    never high together; a byte is sent only while the serial probe is
    high and the sample probe low; the result register is read, and the
    delay between samples taken, only while both are low; and no register
    is accessed while the serial probe is high.  So the window the sample
    probe marks holds the register traffic of the conversion, and the
    window the serial probe marks holds the four writes of the frame and
    nothing else. *)
Theorem probe_windows_never_overlap (fuel n : nat) (w : world D) :
  passes probe_windows (false, false) (added_events (main fuel n) w) = true.
Proof.
  pose proof (emits_events quiet (startup fuel) w (startup_quiet fuel)) as Hq.
  assert (Hstart : passes probe_windows (false, false)
                     (added_events (startup fuel) w) = true /\
                   state_after probe_windows (false, false)
                     (added_events (startup fuel) w) = (false, false)).
  { apply (passes_stable_if probe_windows (false, false) quiet); [|exact Hq].
    intros e He. destruct e as [r v|r v| | | | | |]; try discriminate;
      try (split; reflexivity).
    destruct r; try discriminate; split; reflexivity. }
  destruct Hstart as [Hp Hs].
  destruct (main_cases fuel n w) as [(_ & _ & ->)|(_ & w' & _ & _ & ->)];
    [exact Hp|].
  destruct (main_loop_passes fuel n w') as (done & stalled & -> & Hall & Hc).
  assert (Hdone : passes probe_windows (false, false) (concat done) = true /\
                  state_after probe_windows (false, false) (concat done)
                  = (false, false)).
  { apply passes_concat. revert Hall. apply Forall_impl.
    exact complete_pass_windows. }
  destruct Hdone as [Hd1 Hd2].
  assert (Hst : passes probe_windows (false, false) stalled = true).
  { destruct Hc as [(_ & -> & _)|(_ & Hst & _)]; [reflexivity|].
    apply stalled_pass_windows, Hst. }
  rewrite passes_app, Hp, Hs, passes_app.
  change (passes probe_windows (false, false)
            [PinMode PIN_SAMPLE OUTPUT; PinMode PIN_SERIAL OUTPUT]) with true.
  change (state_after probe_windows (false, false)
            [PinMode PIN_SAMPLE OUTPUT; PinMode PIN_SERIAL OUTPUT])
    with (false, false).
  rewrite passes_app, Hd1, Hd2, Hst. reflexivity.
Qed.

End Probes.

(* ------------------------------------------------------------------ *)
(** ** What survives a stage *)

Lemma lor_keeps_and_sets v m1 m2 :
  0 <= m1 < 2 ^ 32 -> 0 <= m2 < 2 ^ 32 -> Z.land v m1 = m1 ->
  Z.land (wrap32 (Z.lor (wrap32 v) m2)) (Z.lor m1 m2) = Z.lor m1 m2.
Proof.
  intros H1 H2 Hv. apply Z.bits_inj'. intros n Hn.
  assert (B1 : Z.testbit m1 n = true -> Z.testbit v n = true /\ n < 32).
  { intros E. split.
    - assert (Hb : Z.testbit (Z.land v m1) n = true) by (rewrite Hv; exact E).
      rewrite Z.land_spec in Hb. apply andb_true_iff in Hb. apply Hb.
    - destruct (Z.lt_ge_cases n 32) as [|Hge]; [assumption|].
      rewrite (proj1 (below_pow2_bits 32 m1 ltac:(lia) (proj1 H1)) (proj2 H1) n Hge)
        in E. discriminate. }
  assert (B2 : Z.testbit m2 n = true -> n < 32).
  { intros E. destruct (Z.lt_ge_cases n 32) as [|Hge]; [assumption|].
    rewrite (proj1 (below_pow2_bits 32 m2 ltac:(lia) (proj1 H2)) (proj2 H2) n Hge)
      in E. discriminate. }
  rewrite Z.land_spec, testbit_wrap32, !Z.lor_spec, testbit_wrap32.
  destruct (Z.testbit m1 n) eqn:E1, (Z.testbit m2 n) eqn:E2.
  - pose proof (proj2 (Z.ltb_lt n 32) (B2 eq_refl)) as Hlt. rewrite Hlt.
    destruct (Z.testbit v n); reflexivity.
  - destruct (B1 eq_refl) as [Hvn Hlt]. apply Z.ltb_lt in Hlt.
    rewrite Hvn, Hlt. reflexivity.
  - pose proof (proj2 (Z.ltb_lt n 32) (B2 eq_refl)) as Hlt. rewrite Hlt.
    destruct (Z.testbit v n); reflexivity.
  - apply andb_false_r.
Qed.

(** Writing [k] with [|=] into a field [m] that is clear. *)
Lemma field_set v k m :
  0 <= k < 2 ^ 32 -> Z.land k m = k -> flag_clear m v ->
  Z.land (wrap32 (Z.lor (wrap32 v) k)) m = k.
Proof.
  intros Hk Hkm Hv. apply Z.bits_inj'. intros n Hn.
  pose proof (proj1 (flag_clear_bits m v) Hv n Hn) as Hb.
  assert (Bk : Z.testbit k n = true -> Z.testbit m n = true /\ n < 32).
  { intros E. split.
    - assert (Hx : Z.testbit (Z.land k m) n = true) by (rewrite Hkm; exact E).
      rewrite Z.land_spec in Hx. apply andb_true_iff in Hx. apply Hx.
    - destruct (Z.lt_ge_cases n 32) as [|Hge]; [assumption|].
      rewrite (proj1 (below_pow2_bits 32 k ltac:(lia) (proj1 Hk)) (proj2 Hk) n Hge)
        in E. discriminate. }
  rewrite Z.land_spec, testbit_wrap32, Z.lor_spec, testbit_wrap32.
  destruct (Z.testbit k n) eqn:Ek.
  - destruct (Bk eq_refl) as [Hm Hlt]. apply Z.ltb_lt in Hlt.
    rewrite Hm, Hlt, orb_true_r. reflexivity.
  - destruct (Z.testbit m n); [|apply andb_false_r].
    rewrite andb_true_r in Hb. rewrite Hb.
    destruct (n <? 32); reflexivity.
Qed.

Section Survival.
Context {D : Type} {P : Peripheral D}.
Variable written : reg -> bool.
Variable Q : D -> Prop.
Hypothesis HQ : survives written Q.

Lemma surv_ret {A} (a : A) : triple (D:=D) any_entry Q (ret a) (fun _ => Q).
Proof. apply triple_ret. auto. Qed.

Lemma surv_bind {A B} (m : M D A) (k : A -> M D B) :
  triple any_entry Q m (fun _ => Q) ->
  (forall a, triple any_entry Q (k a) (fun _ => Q)) ->
  triple any_entry Q (bind m k) (fun _ => Q).
Proof. intros Hm Hk. apply triple_bind with (Mid := fun _ => Q); assumption. Qed.

Lemma surv_read r : triple (D:=D) any_entry Q (reg_read r) (fun _ => Q).
Proof.
  apply triple_reg_read. intros d p Hd. cbv zeta.
  split; [exact I|]. apply HQ, Hd.
Qed.

Lemma surv_rmw r f :
  written r = true -> triple (D:=D) any_entry Q (rmw r f) (fun _ => Q).
Proof.
  intros Hr. apply triple_rmw. intros d p Hd. cbv zeta.
  split; [exact I|]. split; [exact I|].
  apply HQ; [exact Hr|]. apply HQ, Hd.
Qed.

Lemma surv_spin fuel r m b :
  triple (D:=D) any_entry Q (spin fuel r m b) (fun _ => Q).
Proof.
  apply triple_spin. intros d p Hd. cbv zeta.
  split; [exact I|]. split; intros _; apply HQ, Hd.
Qed.

Lemma surv_platform e : triple (D:=D) any_entry Q (platform e) (fun _ => Q).
Proof. apply triple_platform. intros d p Hd. split; [exact I|exact Hd]. Qed.

Lemma surv_digitalWrite p l :
  triple (D:=D) any_entry Q (digitalWrite p l) (fun _ => Q).
Proof. apply triple_digitalWrite. intros d q Hd. split; [exact I|exact Hd]. Qed.

Lemma surv_settle_delay : triple (D:=D) any_entry Q settle_delay (fun _ => Q).
Proof. apply triple_settle_delay. Qed.

End Survival.

Ltac surv_tac HQ :=
  repeat match goal with
  | |- triple _ _ (bind _ _) _ => apply (surv_bind _ _); [|intros ?]
  | |- triple _ _ (ret _) _ => apply surv_ret
  | |- triple _ _ (reg_or ?r ?m) _ =>
      apply (surv_rmw _ _ HQ r (fun v => Z.lor v m)); reflexivity
  | |- triple _ _ (reg_and ?r ?m) _ =>
      apply (surv_rmw _ _ HQ r (fun v => Z.land v m)); reflexivity
  | |- triple _ _ (reg_read _) _ => apply (surv_read _ _ HQ)
  | |- triple _ _ (platform _) _ => apply surv_platform
  | |- triple _ _ (digitalWrite _ _) _ => apply surv_digitalWrite
  | |- triple _ _ settle_delay _ => apply surv_settle_delay
  | |- triple _ _ (spin _ _ _ _) _ => apply (surv_spin _ _ HQ)
  | |- triple _ _ (if ?c then _ else _) _ => destruct c
  end.

Section SurvivingStages.
Context {D : Type} {P : Peripheral D}.

(** The bring-up of the converter writes registers of the converter
    only. *)
Lemma adc_bringup_keeps fuel (Q : D -> Prop) :
  survives (fun r => negb (system_reg r)) Q ->
  triple any_entry Q (adc_bringup fuel) (fun _ => Q).
Proof.
  intros HQ.
  unfold adc_bringup, init_disable, init_regulator, init_calibrate,
    init_configure, init_enable, wait_while, wait_until.
  surv_tac HQ.
Qed.

(** [adc_read] writes the sequence, status and control registers only. *)
Lemma adc_read_keeps fuel ch (Q : D -> Prop) :
  survives (fun r => negb (plain_reg r)) Q ->
  triple any_entry Q (adc_read fuel ch) (fun _ => Q).
Proof.
  intros HQ. unfold adc_read, wait_until. surv_tac HQ.
Qed.

Lemma loop_body_keeps fuel (Q : D -> Prop) :
  survives (fun r => negb (plain_reg r)) Q ->
  triple any_entry Q (loop_body fuel) (fun _ => Q).
Proof.
  intros HQ.
  unfold loop_body, adc_read, wait_until, Serial_write, delayMicroseconds.
  surv_tac HQ.
Qed.

Lemma main_loop_keeps fuel n (Q : D -> Prop) :
  survives (fun r => negb (plain_reg r)) Q ->
  triple any_entry Q (main_loop fuel n) (fun _ => Q).
Proof.
  intros HQ. induction n as [|n IH]; cbn [main_loop]; [apply surv_ret|].
  apply surv_bind; [apply loop_body_keeps, HQ|intros _; exact IH].
Qed.

Lemma pins_then_loop_keeps fuel n (Q : D -> Prop) :
  survives (fun r => negb (plain_reg r)) Q ->
  triple any_entry Q (pins_then_loop fuel n) (fun _ => Q).
Proof.
  intros HQ. unfold pins_then_loop, pinMode.
  apply surv_bind; [apply surv_platform|intros _].
  apply surv_bind; [apply surv_platform|intros _].
  apply main_loop_keeps, HQ.
Qed.

Lemma convert_each_keeps fuel channels (Q : D -> Prop) :
  survives (fun r => negb (plain_reg r)) Q ->
  triple any_entry Q (convert_each fuel channels) (fun _ => Q).
Proof.
  intros HQ. induction channels as [|c cs IH]; cbn [convert_each];
    [apply surv_ret|].
  apply surv_bind; [apply adc_read_keeps, HQ|intros _; exact IH].
Qed.

Lemma survives_weaken (w1 w2 : reg -> bool) (Q : D -> Prop) :
  (forall r, w2 r = true -> w1 r = true) -> survives w1 Q -> survives w2 Q.
Proof. intros H [Hr Hw]. split; [exact Hr|]. intros r v d Hx. apply Hw, H, Hx. Qed.

End SurvivingStages.

(* ------------------------------------------------------------------ *)
(** ** Clocks and analog pin *)

Ltac range32 := cbv; split; [discriminate|reflexivity].

Section SystemRegisters.
Context {D : Type} {P : Peripheral D}.

(** The clock-control and pin-configuration registers are plain storage:
    a read returns the content and changes no content, a write replaces
    the content of the register written and of no other. *)
Variable value : reg -> D -> Z.
Hypothesis sys_read_value :
  forall r d, system_reg r = true -> fst (dev_read r d) = value r d.
Hypothesis sys_read_keeps :
  forall r q d, system_reg q = true -> value q (snd (dev_read r d)) = value q d.
Hypothesis sys_write_sets :
  forall r v d, system_reg r = true -> value r (dev_write r v d) = v.
Hypothesis sys_write_keeps :
  forall r q v d, system_reg q = true -> r <> q ->
                  value q (dev_write r v d) = value q d.

Ltac sys :=
  repeat first
    [ rewrite sys_write_sets by reflexivity
    | rewrite sys_write_keeps by (reflexivity || discriminate)
    | rewrite sys_read_keeps by reflexivity
    | rewrite sys_read_value by reflexivity ].

Lemma clocks_and_pin_survives :
  survives (fun r => negb (system_reg r)) (clocks_and_pin value).
Proof.
  unfold clocks_and_pin. split.
  - intros r d H. sys. exact H.
  - intros r v d Hr H.
    rewrite !(sys_write_keeps r)
      by (reflexivity || (intros ->; discriminate)).
    exact H.
Qed.

Lemma clock_setup_sets :
  triple (D:=D) any_entry (fun _ => True) clock_setup
    (fun _ => clocks_and_pin value).
Proof.
  unfold clock_setup, init, Serial_begin, init_clock, clocks_and_pin.
  apply triple_bind with (Mid := fun _ _ => True).
  { apply triple_platform. intros; split; exact I. }
  intros _. apply triple_bind with (Mid := fun _ _ => True).
  { apply triple_platform. intros; split; exact I. }
  intros _. apply triple_bind with
    (Mid := fun _ d =>
       Z.land (value RCC_AHB2ENR d) RCC_AHB2ENR_GPIOAEN = RCC_AHB2ENR_GPIOAEN).
  { apply step_reg_or. intros d _. sys. apply land_lor_self. range32. }
  intros _. apply triple_bind with
    (Mid := fun _ d =>
       Z.land (value RCC_AHB2ENR d) RCC_AHB2ENR_GPIOAEN = RCC_AHB2ENR_GPIOAEN /\
       Z.land (value GPIOA_MODER d) (Z.shiftl 3 (ADC_PIN * 2))
       = Z.shiftl 3 (ADC_PIN * 2)).
  { apply step_reg_or. intros d H. sys.
    split; [exact H|]. apply land_lor_self. range32. }
  intros _. apply triple_bind with
    (Mid := fun _ d =>
       Z.land (value RCC_AHB2ENR d) RCC_AHB2ENR_GPIOAEN = RCC_AHB2ENR_GPIOAEN /\
       Z.land (value GPIOA_MODER d) (Z.shiftl 3 (ADC_PIN * 2))
       = Z.shiftl 3 (ADC_PIN * 2) /\
       Z.land (value GPIOA_ASCR d) (Z.shiftl 1 ADC_PIN) = Z.shiftl 1 ADC_PIN).
  { apply step_reg_or. intros d [H1 H2]. sys.
    split; [exact H1|]. split; [exact H2|]. apply land_lor_self. range32. }
  intros _. apply triple_bind with
    (Mid := fun _ d =>
       Z.land (value RCC_AHB2ENR d) (Z.lor RCC_AHB2ENR_GPIOAEN RCC_AHB2ENR_ADCEN)
       = Z.lor RCC_AHB2ENR_GPIOAEN RCC_AHB2ENR_ADCEN /\
       Z.land (value GPIOA_MODER d) (Z.shiftl 3 (ADC_PIN * 2))
       = Z.shiftl 3 (ADC_PIN * 2) /\
       Z.land (value GPIOA_ASCR d) (Z.shiftl 1 ADC_PIN) = Z.shiftl 1 ADC_PIN).
  { apply step_reg_or. intros d (H1 & H2 & H3). sys.
    split; [|split; assumption].
    apply lor_keeps_and_sets; [range32|range32|exact H1]. }
  intros _. apply triple_bind with
    (Mid := fun _ d =>
       Z.land (value RCC_AHB2ENR d) (Z.lor RCC_AHB2ENR_GPIOAEN RCC_AHB2ENR_ADCEN)
       = Z.lor RCC_AHB2ENR_GPIOAEN RCC_AHB2ENR_ADCEN /\
       Z.land (value GPIOA_MODER d) (Z.shiftl 3 (ADC_PIN * 2))
       = Z.shiftl 3 (ADC_PIN * 2) /\
       Z.land (value GPIOA_ASCR d) (Z.shiftl 1 ADC_PIN) = Z.shiftl 1 ADC_PIN /\
       Z.land (value RCC_CCIPR d) RCC_CCIPR_ADCSEL = RCC_CCIPR_ADCSEL).
  { apply step_reg_or. intros d (H1 & H2 & H3). sys.
    repeat (split; [assumption|]). apply land_lor_self. range32. }
  intros _. apply triple_bind with
    (Mid := fun _ d =>
       Z.land (value RCC_AHB2ENR d) (Z.lor RCC_AHB2ENR_GPIOAEN RCC_AHB2ENR_ADCEN)
       = Z.lor RCC_AHB2ENR_GPIOAEN RCC_AHB2ENR_ADCEN /\
       Z.land (value GPIOA_MODER d) (Z.shiftl 3 (ADC_PIN * 2))
       = Z.shiftl 3 (ADC_PIN * 2) /\
       Z.land (value GPIOA_ASCR d) (Z.shiftl 1 ADC_PIN) = Z.shiftl 1 ADC_PIN /\
       Z.land (value RCC_CCIPR d) RCC_CCIPR_ADCSEL = RCC_CCIPR_ADCSEL /\
       flag_clear ADC_CCR_PRESC (value ADC123_COMMON_CCR d)).
  { apply step_reg_and. intros d (H1 & H2 & H3 & H4). sys.
    repeat (split; [assumption|]). apply clear_after_mask. }
  intros _. apply step_reg_or. intros d (H1 & H2 & H3 & H4 & H5). sys.
  split; [exact H1|]. split; [exact H4|]. split; [|split; assumption].
  apply field_set; [range32|reflexivity|exact H5].
Qed.

Lemma main_sets_clocks_and_pin fuel n :
  triple (D:=D) any_entry (fun _ => True) (main fuel n)
    (fun _ => clocks_and_pin value).
Proof.
  apply triple_ext with
    (m := clock_setup ;; adc_bringup fuel ;; pins_then_loop fuel n).
  { intros w. symmetry. apply main_after_clocks. }
  apply triple_bind with (Mid := fun _ => clocks_and_pin value);
    [apply clock_setup_sets|intros _].
  apply triple_bind with (Mid := fun _ => clocks_and_pin value);
    [apply adc_bringup_keeps, clocks_and_pin_survives|intros _].
  apply pins_then_loop_keeps.
  apply (survives_weaken (fun r => negb (system_reg r))).
  - intros r. destruct r; cbn; congruence.
  - apply clocks_and_pin_survives.
Qed.

(** X7. Whenever [main] has come through its start-up and any number of
    passes of its loop, the clock enables of port A and of the converter
    are both set in [RCC->AHB2ENR], the converter's clock selection in
    [RCC->CCIPR] is 11 (system clock), the common prescaler field holds
    0100 (divide by 8), pin [ADC_PIN] of port A is in analog mode (11)
    and its switch to the converter is closed: what lines 34-36 and
    70-76 set, nothing later in the program changes. *)
Theorem main_keeps_clocks_and_pin (fuel n : nat) (w : world D) :
  fst (main fuel n w) = Done tt ->
  let d := hw (snd (main fuel n w)) in
  Z.land (value RCC_AHB2ENR d) (Z.lor RCC_AHB2ENR_GPIOAEN RCC_AHB2ENR_ADCEN)
  = Z.lor RCC_AHB2ENR_GPIOAEN RCC_AHB2ENR_ADCEN /\
  Z.land (value RCC_CCIPR d) RCC_CCIPR_ADCSEL = RCC_CCIPR_ADCSEL /\
  Z.land (value ADC123_COMMON_CCR d) ADC_CCR_PRESC = ADC_CCR_PRESC_2 /\
  Z.land (value GPIOA_MODER d) (Z.shiftl 3 (ADC_PIN * 2)) = Z.shiftl 3 (ADC_PIN * 2) /\
  Z.land (value GPIOA_ASCR d) (Z.shiftl 1 ADC_PIN) = Z.shiftl 1 ADC_PIN.
Proof.
  intros Hdone.
  exact (triple_done any_entry (fun _ => True) (main fuel n)
           (fun _ => clocks_and_pin value) w tt
           (main_sets_clocks_and_pin fuel n) I Hdone).
Qed.

End SystemRegisters.

Lemma sim_tick_system r m :
  system_reg r = true -> Sim.regs (Sim.tick m) r = Sim.regs m r.
Proof.
  intros Hr. unfold Sim.tick.
  destruct (Sim.busy m) as [|[|k]]; try reflexivity.
  unfold Sim.complete. cbn [Sim.regs Sim.set_busy].
  repeat match goal with
  | |- context [if ?c then _ else _] => destruct c
  end; cbn [Sim.regs Sim.set_regs]; unfold Sim.upd;
    destruct r; try discriminate; reflexivity.
Qed.

Lemma sim_sys_read_value r d :
  system_reg r = true -> fst (dev_read r d) = Sim.value r d.
Proof. intros Hr. cbn. apply sim_tick_system, Hr. Qed.

Lemma sim_sys_read_keeps r q d :
  system_reg q = true -> Sim.value q (snd (dev_read r d)) = Sim.value q d.
Proof. intros Hq. cbn. apply sim_tick_system, Hq. Qed.

Lemma sim_sys_write_sets r v d :
  system_reg r = true -> Sim.value r (dev_write r v d) = v.
Proof. intros Hr. destruct r; try discriminate; reflexivity. Qed.

Lemma sim_sys_write_keeps r q v d :
  system_reg q = true -> r <> q -> Sim.value q (dev_write r v d) = Sim.value q d.
Proof.
  intros Hq Hne. unfold Sim.value.
  destruct r; cbn [dev_write Sim.peripheral Sim.write];
    try (cbn [Sim.regs Sim.set_regs]; unfold Sim.upd;
         destruct q; try discriminate; try reflexivity; congruence).
  - unfold Sim.write_cr, Sim.start.
    repeat match goal with
    | |- context [if ?c then _ else _] => destruct c
    end; cbn [Sim.regs Sim.set_regs Sim.set_busy]; unfold Sim.upd;
      destruct q; try discriminate; reflexivity.
Qed.

Lemma main_keeps_clocks_and_pin_witness :
  fst (main 10 2 (boot (Sim.reset 2 (fun _ => 2048)))) = Done tt /\
  let d := hw (snd (main 10 2 (boot (Sim.reset 2 (fun _ => 2048))))) in
  Z.land (Sim.value RCC_AHB2ENR d) (Z.lor RCC_AHB2ENR_GPIOAEN RCC_AHB2ENR_ADCEN)
  = Z.lor RCC_AHB2ENR_GPIOAEN RCC_AHB2ENR_ADCEN /\
  Z.land (Sim.value RCC_CCIPR d) RCC_CCIPR_ADCSEL = RCC_CCIPR_ADCSEL /\
  Z.land (Sim.value ADC123_COMMON_CCR d) ADC_CCR_PRESC = ADC_CCR_PRESC_2 /\
  Z.land (Sim.value GPIOA_MODER d) (Z.shiftl 3 (ADC_PIN * 2))
  = Z.shiftl 3 (ADC_PIN * 2) /\
  Z.land (Sim.value GPIOA_ASCR d) (Z.shiftl 1 ADC_PIN) = Z.shiftl 1 ADC_PIN.
Proof.
  assert (H : fst (main 10 2 (boot (Sim.reset 2 (fun _ => 2048)))) = Done tt)
    by (vm_compute; reflexivity).
  split; [exact H|].
  exact (main_keeps_clocks_and_pin Sim.value sim_sys_read_value sim_sys_read_keeps
           sim_sys_write_sets sim_sys_write_keeps 10 2 _ H).
Defined.

(* ------------------------------------------------------------------ *)
(** ** The mode registers across conversions *)

Lemma ones5_bit n : 0 <= n -> Z.testbit 0x1F n = (n <? 5).
Proof. intros Hn. change 0x1F with (Z.ones 5). apply Z.testbit_ones_nonneg; lia. Qed.

Lemma entry_mask_bit n :
  0 <= n ->
  Z.testbit (not32 (Z.shiftl 0x1F 6)) n = (n <? 32) && negb ((6 <=? n) && (n <? 11)).
Proof.
  intros Hn. rewrite testbit_not32 by exact Hn. f_equal. f_equal.
  destruct (Z.leb_spec 6 n) as [Hge|Hlt].
  - rewrite Z.shiftl_spec, ones5_bit by lia. cbn [andb].
    destruct (Z.ltb_spec (n - 6) 5), (Z.ltb_spec n 11); try reflexivity; lia.
  - apply Z.shiftl_spec_low. exact Hlt.
Qed.

Lemma small_bits k c n : 0 <= k -> 0 <= c < 2 ^ k -> k <= n -> Z.testbit c n = false.
Proof.
  intros Hk Hc Hn.
  apply (proj1 (below_pow2_bits k c Hk (proj1 Hc)) (proj2 Hc)), Hn.
Qed.

(** The entry field after lines 119-120. *)
Lemma sq1_of_update old ch :
  0 <= ch ->
  sqr1_sq1 (Z.lor (Z.land (wrap32 old) (not32 (Z.shiftl 0x1F 6))) (Z.shiftl ch 6))
  = ch mod 2 ^ 5.
Proof.
  intros Hch. unfold sqr1_sq1. rewrite <- Z.land_ones by lia.
  apply Z.bits_inj'. intros n Hn.
  rewrite !Z.land_spec, Z.shiftr_spec, Z.lor_spec, Z.land_spec, entry_mask_bit,
    Z.shiftl_spec, ones5_bit by lia.
  change (Z.ones 5) with 0x1F. rewrite ones5_bit by lia.
  replace (n + 6 - 6) with n by lia.
  destruct (Z.ltb_spec n 5) as [Hlt|Hge]; [|now rewrite !andb_false_r].
  replace (6 <=? n + 6) with true by (symmetry; apply Z.leb_le; lia).
  replace (n + 6 <? 11) with true by (symmetry; apply Z.ltb_lt; lia).
  cbn [andb negb]. rewrite !andb_false_r, !andb_true_r. reflexivity.
Qed.

(** The length field is out of their reach. *)
Lemma length_of_update old ch :
  sqr1_length (Z.lor (Z.land (wrap32 old) (not32 (Z.shiftl 0x1F 6))) (Z.shiftl ch 6))
  = sqr1_length old.
Proof.
  unfold sqr1_length. change ADC_SQR1_L with (Z.ones 4).
  apply Z.bits_inj'. intros n Hn.
  rewrite !Z.land_spec, Z.lor_spec, Z.land_spec, testbit_wrap32, entry_mask_bit,
    Z.testbit_ones_nonneg by lia.
  destruct (Z.ltb_spec n 4) as [Hlt|Hge]; [|now rewrite !andb_false_r].
  rewrite Z.shiftl_spec_low by lia.
  replace (n <? 32) with true by (symmetry; apply Z.ltb_lt; lia).
  replace (6 <=? n) with false by (symmetry; apply Z.leb_gt; lia).
  cbn [andb negb]. rewrite orb_false_r, !andb_true_r. reflexivity.
Qed.

(** What of the channel does not fit the entry field lands above it. *)
Lemma spill_of_update old ch :
  0 <= ch < 2 ^ 8 ->
  Z.land (Z.shiftr (Z.lor (Z.land (wrap32 old) (not32 (Z.shiftl 0x1F 6)))
                          (Z.shiftl ch 6)) 11) 7
  = Z.lor (Z.land (Z.shiftr old 11) 7) (Z.shiftr ch 5).
Proof.
  intros Hch. change 7 with (Z.ones 3).
  apply Z.bits_inj'. intros n Hn.
  rewrite Z.lor_spec, !Z.land_spec, !Z.shiftr_spec, Z.lor_spec, Z.land_spec,
    testbit_wrap32, entry_mask_bit, Z.shiftl_spec, Z.testbit_ones_nonneg by lia.
  replace (n + 11 - 6) with (n + 5) by lia.
  destruct (Z.ltb_spec n 3) as [Hlt|Hge].
  - replace (n + 11 <? 32) with true by (symmetry; apply Z.ltb_lt; lia).
    replace (n + 11 <? 11) with false by (symmetry; apply Z.ltb_ge; lia).
    rewrite andb_false_r. cbn [andb negb]. rewrite !andb_true_r. reflexivity.
  - rewrite !andb_false_r. cbn [orb]. symmetry.
    apply (small_bits 8 ch); lia.
Qed.

Section ModeRegisters.
Context {D : Type} {P : Peripheral D}.

(** The registers that hold the conversion mode are plain storage. *)
Variable value : reg -> D -> Z.
Hypothesis read_value :
  forall r d, config_reg r = true -> fst (dev_read r d) = value r d.
Hypothesis read_keeps :
  forall r q d, config_reg q = true -> value q (snd (dev_read r d)) = value q d.
Hypothesis write_sets :
  forall r v d, config_reg r = true -> value r (dev_write r v d) = v.
Hypothesis write_keeps :
  forall r q v d, config_reg q = true -> r <> q ->
                  value q (dev_write r v d) = value q d.

Ltac plain :=
  repeat first
    [ rewrite write_sets by reflexivity
    | rewrite write_keeps by (reflexivity || discriminate)
    | rewrite read_keeps by reflexivity
    | rewrite read_value by reflexivity ].

(** [adc_read] keeps the mode, whatever its channel argument. *)
Lemma adc_read_keeps_fields fuel ch :
  triple (D:=D) any_entry (fields_clear value) (adc_read fuel ch)
    (fun _ => fields_clear value).
Proof.
  pose proof (fields_clear_config_only value read_keeps write_keeps) as Hk.
  unfold adc_read.
  apply triple_bind with (Mid := fun _ => fields_clear value).
  { apply step_digitalWrite. }
  intros _. apply triple_bind with (Mid := fun _ => fields_clear value).
  { apply step_reg_and. unfold fields_clear. intros d (H1 & H2 & H3 & H4). plain.
    repeat (split; [assumption|]). apply clear_kept_land, H4. }
  intros _. apply triple_bind with (Mid := fun _ => fields_clear value).
  { apply step_reg_or. unfold fields_clear. intros d (H1 & H2 & H3 & H4). plain.
    repeat (split; [assumption|]).
    apply clear_kept_lor; [exact H4|].
    apply (shifted_low_clear (wrap8 ch) 6 4). lia. }
  intros _. apply triple_bind with (Mid := fun _ => fields_clear value).
  { apply keep_reg_or; [exact Hk|reflexivity]. }
  intros _. apply triple_bind with (Mid := fun _ => fields_clear value).
  { apply keep_reg_or; [exact Hk|reflexivity]. }
  intros _. apply triple_bind with (Mid := fun _ => fields_clear value).
  { apply step_spin. intros d Hd. apply Hk, Hd. }
  intros _. apply triple_bind with (Mid := fun _ => fields_clear value).
  { apply step_digitalWrite. }
  intros _. apply triple_bind with (Mid := fun _ => fields_clear value).
  { apply keep_reg_read, Hk. }
  intros dr. apply triple_ret. auto.
Qed.

Lemma convert_each_keeps_fields fuel channels :
  triple (D:=D) any_entry (fields_clear value) (convert_each fuel channels)
    (fun _ => fields_clear value).
Proof.
  induction channels as [|c cs IH]; cbn [convert_each]; [apply triple_ret; auto|].
  apply triple_bind with (Mid := fun _ => fields_clear value);
    [apply adc_read_keeps_fields|intros _; exact IH].
Qed.

(** X8. The mode [adc_init] sets up outlives the conversions, whatever
    the channel arguments, valid or not: after [adc_init] and any number
    of [adc_read] calls the converter is still in single-conversion mode
    at 12 bits, channel [ADC_CHANNEL] still has sample time [SAMP_TIME],
    and the regular sequence still has exactly one entry. *)
Theorem mode_outlives_conversions (fuel : nat) (channels : list Z) (w : world D) :
  fst ((adc_init fuel ;; convert_each fuel channels) w) = Done tt ->
  let d := hw (snd ((adc_init fuel ;; convert_each fuel channels) w)) in
  cfgr_continuous (value ADC1_CFGR d) = false /\
  cfgr_resolution (value ADC1_CFGR d) = 12 /\
  smpr1_smp ADC_CHANNEL (value ADC1_SMPR1 d) = SAMP_TIME /\
  sqr1_entries (value ADC1_SQR1 d) = 1.
Proof.
  intros Hdone. apply fields_clear_configured.
  assert (T : triple (D:=D) any_entry (fun _ => True)
                (adc_init fuel ;; convert_each fuel channels)
                (fun _ => fields_clear value)).
  { apply triple_bind with (Mid := fun _ => fields_clear value).
    - apply (adc_init_clears_fields value read_value read_keeps write_sets
               write_keeps).
    - intros _. apply convert_each_keeps_fields. }
  exact (triple_done any_entry _ _ _ w tt T I Hdone).
Qed.

Lemma sequence_value_kept x :
  config_only (fun d => value ADC1_SQR1 d = x).
Proof.
  split.
  - intros r d H. plain. exact H.
  - intros r v d Hr H.
    rewrite (write_keeps r) by (reflexivity || (intros ->; discriminate)).
    exact H.
Qed.

Lemma adc_read_updates_sequence fuel ch old :
  triple (D:=D) any_entry (fun d => value ADC1_SQR1 d = old) (adc_read fuel ch)
    (fun _ d => value ADC1_SQR1 d =
                Z.lor (Z.land (wrap32 old) (not32 (Z.shiftl 0x1F 6)))
                      (Z.shiftl (wrap8 ch) 6)).
Proof.
  set (new := Z.lor (Z.land (wrap32 old) (not32 (Z.shiftl 0x1F 6)))
                    (Z.shiftl (wrap8 ch) 6)).
  pose proof (sequence_value_kept new) as Hk.
  unfold adc_read.
  apply triple_bind with (Mid := fun _ d => value ADC1_SQR1 d = old).
  { apply step_digitalWrite. }
  intros _. apply triple_bind with
    (Mid := fun _ d => value ADC1_SQR1 d =
                       Z.land (wrap32 old) (not32 (Z.shiftl 0x1F 6))).
  { apply step_reg_and. intros d H. plain. rewrite H.
    apply wrap32_land, wrap32_range. }
  intros _. apply triple_bind with (Mid := fun _ d => value ADC1_SQR1 d = new).
  { apply step_reg_or. intros d H. plain. rewrite H. unfold new.
    assert (R : 0 <= Z.land (wrap32 old) (not32 (Z.shiftl 0x1F 6)) < 2 ^ 32)
      by (apply land_range; [lia|apply wrap32_range]).
    rewrite (wrap32_small _ R).
    apply wrap32_lor; [exact R|apply shifted_channel_range]. }
  intros _. apply triple_bind with (Mid := fun _ d => value ADC1_SQR1 d = new).
  { apply keep_reg_or; [exact Hk|reflexivity]. }
  intros _. apply triple_bind with (Mid := fun _ d => value ADC1_SQR1 d = new).
  { apply keep_reg_or; [exact Hk|reflexivity]. }
  intros _. apply triple_bind with (Mid := fun _ d => value ADC1_SQR1 d = new).
  { apply step_spin. intros d Hd. apply Hk, Hd. }
  intros _. apply triple_bind with (Mid := fun _ d => value ADC1_SQR1 d = new).
  { apply step_digitalWrite. }
  intros _. apply triple_bind with (Mid := fun _ d => value ADC1_SQR1 d = new).
  { apply keep_reg_read, Hk. }
  intros dr. apply triple_ret. auto.
Qed.

(** X9. [adc_read] does not check its channel argument.  When it
    returns, the sequence register holds what it held with bits 6-10
    cleared, or-ed with the channel shifted left by six: the entry field
    holds the channel modulo 32, the length field is as it was, and for a
    channel of 32 or more the bits above the fifth are or-ed into bits
    11-13 of the register, which lie outside the entry field. *)
Theorem adc_read_sequence_update (fuel : nat) (ch : Z) (w : world D) (s : Z) :
  0 <= ch < 2 ^ 8 ->
  fst (adc_read fuel ch w) = Done s ->
  let old := value ADC1_SQR1 (hw w) in
  let new := value ADC1_SQR1 (hw (snd (adc_read fuel ch w))) in
  new = Z.lor (Z.land (wrap32 old) (not32 (Z.shiftl 0x1F 6))) (Z.shiftl ch 6) /\
  sqr1_sq1 new = ch mod 2 ^ 5 /\
  sqr1_length new = sqr1_length old /\
  Z.land (Z.shiftr new 11) 7 = Z.lor (Z.land (Z.shiftr old 11) 7) (Z.shiftr ch 5).
Proof.
  intros Hch Hdone old new.
  assert (E : new = Z.lor (Z.land (wrap32 old) (not32 (Z.shiftl 0x1F 6)))
                          (Z.shiftl ch 6)).
  { unfold new.
    rewrite (triple_done any_entry _ _ _ w s
               (adc_read_updates_sequence fuel ch old) eq_refl Hdone).
    rewrite (wrap8_small ch Hch). reflexivity. }
  split; [exact E|]. rewrite E.
  split; [apply sq1_of_update; lia|].
  split; [apply length_of_update|apply spill_of_update, Hch].
Qed.

End ModeRegisters.

Lemma mode_outlives_conversions_witness :
  fst ((adc_init 10 ;; convert_each 10 [5; 200; 37])
         (boot (Sim.reset 2 (fun _ => 2048)))) = Done tt /\
  let d := hw (snd ((adc_init 10 ;; convert_each 10 [5; 200; 37])
                      (boot (Sim.reset 2 (fun _ => 2048))))) in
  cfgr_continuous (Sim.value ADC1_CFGR d) = false /\
  cfgr_resolution (Sim.value ADC1_CFGR d) = 12 /\
  smpr1_smp ADC_CHANNEL (Sim.value ADC1_SMPR1 d) = SAMP_TIME /\
  sqr1_entries (Sim.value ADC1_SQR1 d) = 1.
Proof.
  assert (H : fst ((adc_init 10 ;; convert_each 10 [5; 200; 37])
                     (boot (Sim.reset 2 (fun _ => 2048)))) = Done tt)
    by (vm_compute; reflexivity).
  split; [exact H|].
  exact (mode_outlives_conversions Sim.value sim_read_value sim_read_keeps
           sim_write_sets sim_write_keeps 10 [5; 200; 37] _ H).
Defined.

Lemma adc_read_sequence_update_witness :
  0 <= 37 < 2 ^ 8 /\
  fst (adc_read 10 37 (sim_started 2048)) = Done 2048 /\
  sqr1_sq1 (Sim.value ADC1_SQR1 (hw (snd (adc_read 10 37 (sim_started 2048))))) = 5 /\
  Z.land (Z.shiftr (Sim.value ADC1_SQR1
                      (hw (snd (adc_read 10 37 (sim_started 2048))))) 11) 7 = 1.
Proof.
  assert (Hc : 0 <= 37 < 2 ^ 8) by (split; [discriminate|reflexivity]).
  assert (H : fst (adc_read 10 37 (sim_started 2048)) = Done 2048)
    by (vm_compute; reflexivity).
  destruct (adc_read_sequence_update Sim.value sim_read_value sim_read_keeps
              sim_write_sets sim_write_keeps 10 37 (sim_started 2048) 2048 Hc H)
    as (_ & Hsq & _ & Hsp).
  split; [exact Hc|]. split; [exact H|]. split.
  - rewrite Hsq. reflexivity.
  - rewrite Hsp. vm_compute. reflexivity.
Defined.

(* ------------------------------------------------------------------ *)
(** ** What [adc_init] has seen when it returns *)

Section InitReturn.
Context {D : Type} {P : Peripheral D}.

Lemma seq_done_inv {A} (m : M D unit) (k : M D A) w a :
  faithful m -> faithful k ->
  fst ((m ;; k) w) = Done a ->
  fst (m w) = Done tt /\ fst (k (snd (m w))) = Done a /\
  added_events (m ;; k) w = added_events m w ++ added_events k (snd (m w)).
Proof.
  intros Fm Fk Hd.
  destruct (unit_outcome (fst (m w))) as [Hm|Hm].
  - destruct (seq_done m k w Fm Fk Hm) as [Hrun Hev].
    rewrite Hrun in Hd. auto.
  - destruct (seq_hang m k w Fm Fk Hm) as [Hrun _].
    rewrite Hrun in Hd. discriminate.
Qed.

(** The events of a wait for a flag to clear. *)
Lemma wait_while_events fuel r m (w : world D) :
  exists polls,
    Forall (flag_set m) polls /\
    ((fst (wait_while fuel r m w) = Hang /\ length polls = fuel /\
      added_events (wait_while fuel r m) w = map (RegRead r) polls) \/
     (exists last,
        flag_clear m last /\ fst (wait_while fuel r m w) = Done tt /\
        added_events (wait_while fuel r m) w = map (RegRead r) (polls ++ [last]))).
Proof.
  unfold wait_while.
  destruct (spin_run fuel r m false w) as (n & Hlt & H).
  exists (poll_values r n (hw w)). split.
  { apply poll_values_Forall. intros k Hk. apply exits_clear_false, Hlt, Hk. }
  destruct H as [[-> H]|(Hn & Hx & H)]; [left|right].
  - rewrite H. split; [reflexivity|]. split; [apply poll_values_length|].
    apply added_events_of. rewrite H. apply poll_n_events.
  - exists (peek r (poll_n r n w)).
    split; [apply exits_clear_true, Hx|]. rewrite H. split; [reflexivity|].
    apply added_events_of. rewrite H. cbn [snd].
    rewrite poll_n_events, poll_values_S. reflexivity.
Qed.

Lemma init_configure_events (w : world D) :
  fst (init_configure w) = Done tt /\
  length (added_events init_configure w) = 10%nat /\
  Forall (fun e => mode_access e = true) (added_events init_configure w).
Proof.
  split; [reflexivity|].
  unfold added_events, added, init_configure. run. flat. rewrite skipn_app_exact.
  cbn [map acc_ev length]. split; [reflexivity|repeat constructor].
Qed.

Lemma enable_request_events (w : world D) :
  fst (reg_or ADC1_CR ADC_CR_ADEN w) = Done tt /\
  exists x, added_events (reg_or ADC1_CR ADC_CR_ADEN) w
            = [RegRead ADC1_CR x; RegWrite ADC1_CR (Z.lor x ADC_CR_ADEN)].
Proof.
  split; [reflexivity|]. exists (peek ADC1_CR w).
  apply added_events_of. unfold events. run.
  rewrite !map_app, <- !app_assoc. cbn [map app acc_ev]. unfold peek.
  rewrite wrap32_lor by first [apply wrap32_range | range32]. reflexivity.
Qed.

Lemma before_calibration_no_mode fuel :
  emits (D:=D) (fun e => negb (mode_access e)) (init_clock ;; init_disable fuel).
Proof.
  unfold init_clock, init_disable, wait_while. emits_tac.
Qed.

(** X10. When [adc_init] returns it has, in this order: written the
    calibration bit; polled the control register until a read showed the
    bit clear; only then accessed the mode registers, in ten accesses;
    written the enable bit; and polled the status register until a read
    showed the ready flag, which is the last thing it does.  Before the
    calibration was seen complete it has touched no mode register. *)
Theorem adc_init_returns_calibrated_and_ready (fuel : nat) (w : world D) :
  fst (adc_init fuel w) = Done tt ->
  exists pre c busy cal_end mode x waiting ready,
    added_events (adc_init fuel) w =
    pre
    ++ [RegRead ADC1_CR c; RegWrite ADC1_CR (Z.lor c ADC_CR_ADCAL)]
    ++ map (RegRead ADC1_CR) (busy ++ [cal_end])
    ++ mode
    ++ [RegRead ADC1_CR x; RegWrite ADC1_CR (Z.lor x ADC_CR_ADEN)]
    ++ map (RegRead ADC1_ISR) (waiting ++ [ready]) /\
    Forall (fun e => mode_access e = false) pre /\
    Forall (flag_set ADC_CR_ADCAL) busy /\ flag_clear ADC_CR_ADCAL cal_end /\
    length mode = 10%nat /\ Forall (fun e => mode_access e = true) mode /\
    Forall (flag_clear ADC_ISR_ADRDY) waiting /\ flag_set ADC_ISR_ADRDY ready.
Proof.
  intros Hdone.
  set (K4 := init_configure ;; init_enable fuel).
  set (K3 := wait_while fuel ADC1_CR ADC_CR_ADCAL ;; K4).
  set (K2 := cal_start ;; K3).
  set (M1 := init_clock ;; init_disable fuel).
  assert (F5 : faithful (wait_until (D:=D) fuel ADC1_ISR ADC_ISR_ADRDY))
    by apply faithful_spin.
  assert (F4 : faithful K4).
  { apply faithful_bind; [apply faithful_init_configure|intros _].
    apply faithful_init_enable. }
  assert (F3 : faithful K3).
  { apply faithful_bind; [apply faithful_spin|intros _; exact F4]. }
  assert (F2 : faithful K2).
  { apply faithful_bind; [apply faithful_cal_start|intros _; exact F3]. }
  assert (F1 : faithful M1).
  { apply faithful_bind; [apply faithful_init_clock|intros _].
    apply faithful_init_disable. }
  assert (Fe : faithful (reg_or (D:=D) ADC1_CR ADC_CR_ADEN))
    by (unfold reg_or; faithful_tac).
  assert (E : forall w', adc_init fuel w' = (M1 ;; K2) w').
  { intros w'. rewrite adc_init_resplit. unfold M1, K2, K3, K4.
    rewrite bind_assoc. reflexivity. }
  rewrite E in Hdone. unfold added_events at 1.
  rewrite (added_ext _ _ w (E w)). fold (added_events (M1 ;; K2) w).
  destruct (seq_done_inv M1 K2 w tt F1 F2 Hdone) as (_ & Hd2 & ->).
  set (w1 := snd (M1 w)) in *. clearbody w1.
  pose proof (emits_events _ M1 w (before_calibration_no_mode fuel)) as Hpre.
  unfold K2 in Hd2 |- *.
  destruct (seq_done_inv cal_start K3 w1 tt (faithful_cal_start) F3 Hd2)
    as (_ & Hd3 & ->).
  destruct (cal_start_run w1) as (_ & a & b & c & _ & _ & _ & ->).
  set (w2 := snd (cal_start w1)) in *. clearbody w2.
  unfold K3 in Hd3 |- *.
  destruct (seq_done_inv (wait_while fuel ADC1_CR ADC_CR_ADCAL) K4 w2 tt
              (faithful_spin _ _ _ _) F4 Hd3) as (Hw & Hd4 & ->).
  destruct (wait_while_events fuel ADC1_CR ADC_CR_ADCAL w2)
    as (busy & Hbusy & [(Hh & _)|(cal_end & Hend & _ & ->)]); [congruence|].
  set (w3 := snd (wait_while fuel ADC1_CR ADC_CR_ADCAL w2)) in *. clearbody w3.
  unfold K4 in Hd4 |- *.
  destruct (seq_done_inv init_configure (init_enable fuel) w3 tt
              faithful_init_configure (faithful_init_enable fuel) Hd4)
    as (_ & Hd5 & ->).
  destruct (init_configure_events w3) as (_ & Hlen & Hmode).
  set (w4 := snd (init_configure w3)) in *. clearbody w4.
  change (init_enable fuel)
    with (reg_or ADC1_CR ADC_CR_ADEN ;; wait_until fuel ADC1_ISR ADC_ISR_ADRDY)
    in Hd5 |- *.
  destruct (seq_done_inv (reg_or ADC1_CR ADC_CR_ADEN)
              (wait_until fuel ADC1_ISR ADC_ISR_ADRDY) w4 tt Fe F5 Hd5)
    as (_ & Hd6 & ->).
  destruct (enable_request_events w4) as (_ & x & ->).
  destruct (wait_until_events fuel ADC1_ISR ADC_ISR_ADRDY
              (snd (reg_or ADC1_CR ADC_CR_ADEN w4)))
    as (waiting & Hwait & [(Hh & _)|(ready & Hready & _ & ->)]); [congruence|].
  exists (added_events M1 w
          ++ [RegRead ADC1_CR a; RegWrite ADC1_CR (Z.land a (not32 ADC_CR_DEEPPWD));
              RegRead ADC1_CR b; RegWrite ADC1_CR (Z.lor b ADC_CR_ADVREGEN)]),
         c, busy, cal_end, (added_events init_configure w3), x, waiting, ready.
  split.
  { unfold calibration_start_events. rewrite <- !app_assoc. reflexivity. }
  split.
  { apply Forall_app. split.
    - revert Hpre. apply Forall_impl. intros e He.
      apply negb_true_iff in He. exact He.
    - repeat constructor. }
  repeat (split; [assumption|]). exact Hready.
Qed.

End InitReturn.

Lemma adc_init_returns_calibrated_and_ready_witness :
  fst (adc_init 10 (boot (Sim.reset 2 (fun _ => 2048)))) = Done tt /\
  exists l ready,
    added_events (adc_init 10) (boot (Sim.reset 2 (fun _ => 2048)))
    = l ++ [RegRead ADC1_ISR ready] /\
    flag_set ADC_ISR_ADRDY ready.
Proof.
  assert (H : fst (adc_init 10 (boot (Sim.reset 2 (fun _ => 2048)))) = Done tt)
    by (vm_compute; reflexivity).
  split; [exact H|].
  destruct (adc_init_returns_calibrated_and_ready 10
              (boot (Sim.reset 2 (fun _ => 2048))) H)
    as (pre & c & busy & cal_end & mode & x & waiting & ready & Hev & _ & _ & _
        & _ & _ & _ & Hready).
  eexists _, ready. split; [|exact Hready].
  rewrite Hev, (map_app _ waiting [ready]). cbn [map].
  rewrite !app_assoc. reflexivity.
Defined.

(* ------------------------------------------------------------------ *)
(** ** The settle delay *)

Lemma delay_loop_step n i :
  i < 1000 -> delay_loop (S n) i = delay_loop n (wrap16 (i + 1)).
Proof.
  intros Hi. cbn [delay_loop].
  replace (i <? 1000) with true by (symmetry; apply Z.ltb_lt; exact Hi).
  reflexivity.
Qed.

Lemma delay_loop_stop n i : 1000 <= i -> delay_loop n i = i.
Proof.
  intros Hi. destruct n as [|n]; [reflexivity|]. cbn [delay_loop].
  replace (i <? 1000) with false by (symmetry; apply Z.ltb_ge; exact Hi).
  reflexivity.
Qed.

(** X11. The busy loop of line 90 ends: counting from [i], at most 1000,
    its 16-bit counter stands at [min (i + n) 1000] after at most [n]
    iterations, without ever wrapping, so that from 0 it leaves the loop
    after exactly 1000 iterations and not before; and the delay touches
    no register and never stalls. *)
Theorem settle_loop_ends (n : nat) (i : Z) :
  0 <= i <= 1000 ->
  delay_loop n i = Z.min (i + Z.of_nat n) 1000 /\
  ((delay_loop n 0 <? 1000) = false <-> (1000 <= n)%nat) /\
  (forall (D : Type) (P : Peripheral D) (w : world D),
     settle_delay w = (Done tt, w)).
Proof.
  intros Hi.
  assert (G : forall n i, 0 <= i <= 1000 ->
                delay_loop n i = Z.min (i + Z.of_nat n) 1000).
  { clear. induction n as [|n IH]; intros i Hi.
    - cbn [delay_loop]. lia.
    - destruct (Z.lt_ge_cases i 1000) as [Hlt|Hge].
      + rewrite delay_loop_step by exact Hlt.
        rewrite wrap16_small by (change (2 ^ 16) with 65536; lia).
        rewrite IH by lia. lia.
      + rewrite delay_loop_stop by exact Hge. lia. }
  split; [apply G, Hi|]. split.
  - rewrite G by lia. split; intros H.
    + apply Z.ltb_ge in H. lia.
    + apply Z.ltb_ge. lia.
  - intros D P w. apply settle_delay_run.
Qed.

Lemma settle_loop_ends_witness :
  0 <= 0 <= 1000 /\
  delay_loop 999 0 = 999 /\ delay_loop 1000 0 = 1000 /\ delay_loop 2000 0 = 1000.
Proof.
  assert (H : 0 <= 0 <= 1000) by lia.
  split; [exact H|].
  split; [|split].
  - rewrite (proj1 (settle_loop_ends 999 0 H)). reflexivity.
  - rewrite (proj1 (settle_loop_ends 1000 0 H)). reflexivity.
  - rewrite (proj1 (settle_loop_ends 2000 0 H)). reflexivity.
Defined.

(* ------------------------------------------------------------------ *)
(** ** The mode [adc_init] writes *)

Section ModeWritten.
Context {D : Type} {P : Peripheral D}.

Lemma init_configure_mode_events (w : world D) :
  exists a b c e f, added_events init_configure w = mode_events a b c e f.
Proof.
  unfold added_events, added, init_configure. run. flat.
  rewrite skipn_app_exact. cbn [map acc_ev]. unfold mode_events.
  rewrite !wrap32_land by apply wrap32_range.
  rewrite wrap32_lor by first [apply wrap32_range | range32].
  eexists _, _, _, _, _. reflexivity.
Qed.

Lemma before_configure_no_mode fuel :
  emits (D:=D) (fun e => negb (mode_access e))
    (init_clock ;; init_disable fuel ;; init_regulator ;; init_calibrate fuel).
Proof.
  unfold init_clock, init_disable, init_regulator, init_calibrate, wait_while.
  emits_tac.
Qed.

Lemma init_enable_no_mode fuel :
  emits (D:=D) (fun e => negb (mode_access e)) (init_enable fuel).
Proof. unfold init_enable, wait_until. emits_tac. Qed.

Lemma no_mode_events {A} (m : M D A) w :
  emits (fun e => negb (mode_access e)) m ->
  Forall (fun e => mode_access e = false) (added_events m w).
Proof.
  intros H. pose proof (emits_events _ m w H) as Hq.
  revert Hq. apply Forall_impl. intros e He. apply negb_true_iff in He. exact He.
Qed.

(** When [adc_init] returns, its accesses to the mode registers are the
    ten of lines 96-104, each write that of the value just read with the
    field cleared. *)
Lemma adc_init_mode_trace fuel (w : world D) :
  fst (adc_init fuel w) = Done tt ->
  exists pre a b c e f post,
    added_events (adc_init fuel) w = pre ++ mode_events a b c e f ++ post /\
    Forall (fun x => mode_access x = false) pre /\
    Forall (fun x => mode_access x = false) post.
Proof.
  intros Hdone.
  set (M0 := init_clock ;; init_disable fuel ;; init_regulator ;;
             init_calibrate fuel).
  set (K := init_configure ;; init_enable fuel).
  assert (F0 : faithful M0).
  { unfold M0, init_clock, init_disable, init_regulator, init_calibrate,
      reg_or, reg_and, wait_while. faithful_tac. }
  assert (FK : faithful K).
  { apply faithful_bind; [apply faithful_init_configure|intros _].
    apply faithful_init_enable. }
  assert (E : forall w', adc_init fuel w' = (M0 ;; K) w').
  { intros w'. symmetry. unfold M0, K. rewrite adc_init_split, !bind_assoc.
    repeat (apply bind_ext; intros ? ?; rewrite ?bind_assoc). reflexivity. }
  rewrite E in Hdone. unfold added_events at 1.
  rewrite (added_ext _ _ w (E w)). fold (added_events (M0 ;; K) w).
  destruct (seq_done_inv M0 K w tt F0 FK Hdone) as (_ & Hd1 & ->).
  pose proof (no_mode_events M0 w (before_configure_no_mode fuel)) as Hpre.
  set (w1 := snd (M0 w)) in *. clearbody w1. unfold K in Hd1 |- *.
  destruct (seq_done_inv init_configure (init_enable fuel) w1 tt
              faithful_init_configure (faithful_init_enable fuel) Hd1)
    as (_ & _ & ->).
  destruct (init_configure_mode_events w1) as (a & b & c & e & f & ->).
  exists (added_events M0 w), a, b, c, e, f,
         (added_events (init_enable fuel) (snd (init_configure w1))).
  split; [reflexivity|]. split; [exact Hpre|].
  apply no_mode_events, init_enable_no_mode.
Qed.

(** The mode registers are plain storage. *)
Variable value : reg -> D -> Z.
Hypothesis read_value :
  forall r d, config_reg r = true -> fst (dev_read r d) = value r d.
Hypothesis read_keeps :
  forall r q d, config_reg q = true -> value q (snd (dev_read r d)) = value q d.
Hypothesis write_sets :
  forall r v d, config_reg r = true -> value r (dev_write r v d) = v.
Hypothesis write_keeps :
  forall r q v d, config_reg q = true -> r <> q ->
                  value q (dev_write r v d) = value q d.

(** C6. When [adc_init] returns, whatever the mode registers held
    before, the configuration register has the continuous-mode bit clear
    (single conversion) and the resolution field at 12 bits, the
    sample-time field of channel [ADC_CHANNEL] holds [SAMP_TIME], and the
    regular sequence has exactly one entry.  It is [adc_init] that makes
    it so: its accesses to the mode registers are the ten of lines
    96-104 and no other, and each of its writes to them is the value just
    read with the continuous-mode bit, the resolution field, the
    sample-time field of the channel or the length field cleared (and
    [SAMP_TIME] or-ed into the sample-time field). *)
Theorem adc_init_configures_mode (fuel : nat) (w : world D) :
  fst (adc_init fuel w) = Done tt ->
  let d := hw (snd (adc_init fuel w)) in
  cfgr_continuous (value ADC1_CFGR d) = false /\
  cfgr_resolution (value ADC1_CFGR d) = 12 /\
  smpr1_smp ADC_CHANNEL (value ADC1_SMPR1 d) = SAMP_TIME /\
  sqr1_entries (value ADC1_SQR1 d) = 1 /\
  exists pre a b c e f post,
    added_events (adc_init fuel) w = pre ++ mode_events a b c e f ++ post /\
    Forall (fun x => mode_access x = false) pre /\
    Forall (fun x => mode_access x = false) post.
Proof.
  intros Hdone d.
  pose proof (fields_clear_configured value d
                (triple_done any_entry (fun _ => True) (adc_init fuel)
                   (fun _ => fields_clear value) w tt
                   (adc_init_clears_fields value read_value read_keeps
                      write_sets write_keeps fuel) I Hdone))
    as (H1 & H2 & H3 & H4).
  repeat (split; [assumption|]).
  apply adc_init_mode_trace, Hdone.
Qed.

End ModeWritten.

Lemma adc_init_configures_mode_witness :
  (cfgr_continuous (Sim.value ADC1_CFGR (hw sim_unconfigured)) = true /\
   cfgr_resolution (Sim.value ADC1_CFGR (hw sim_unconfigured)) = 6 /\
   smpr1_smp ADC_CHANNEL (Sim.value ADC1_SMPR1 (hw sim_unconfigured)) = 7 /\
   sqr1_entries (Sim.value ADC1_SQR1 (hw sim_unconfigured)) = 16) /\
  fst (adc_init 10 sim_unconfigured) = Done tt /\
  let d := hw (snd (adc_init 10 sim_unconfigured)) in
  cfgr_continuous (Sim.value ADC1_CFGR d) = false /\
  cfgr_resolution (Sim.value ADC1_CFGR d) = 12 /\
  smpr1_smp ADC_CHANNEL (Sim.value ADC1_SMPR1 d) = SAMP_TIME /\
  sqr1_entries (Sim.value ADC1_SQR1 d) = 1.
Proof.
  assert (H : fst (adc_init 10 sim_unconfigured) = Done tt)
    by (vm_compute; reflexivity).
  split; [repeat split; vm_compute; reflexivity|]. split; [exact H|].
  destruct (adc_init_configures_mode Sim.value sim_read_value sim_read_keeps
              sim_write_sets sim_write_keeps 10 sim_unconfigured H)
    as (H1 & H2 & H3 & H4 & _).
  repeat split; assumption.
Defined.
